(** * Verification of the crawl engine of site2skill-go

    Shallow embedding of the Go package [internal/fetcher]: robots.txt
    parsing and matching ([robots.go]), the locale resolver ([locale.go])
    and the crawl driver ([fetcher.go]).  Go strings are byte strings; they
    are modelled as [string] (a list of [ascii]), so [len] is
    [String.length].  Character classes of the standard library
    ([strings.TrimSpace], [strings.ToLower]) are modelled on their ASCII
    part. *)

From Stdlib Require Import String Ascii List Bool Arith Lia ZArith Permutation.
Import ListNotations.
Open Scope string_scope.
Open Scope bool_scope.

(** ** Go [strings] helpers *)
Module GoStrings.

Fixpoint hasPrefix (s p : string) {struct p} : bool :=
  match p with
  | EmptyString => true
  | String c p' =>
      match s with
      | String d s' => Ascii.eqb c d && hasPrefix s' p'
      | EmptyString => false
      end
  end.

(** [s[n:]], saturating *)
Fixpoint drop (n : nat) (s : string) : string :=
  match n, s with
  | O, _ => s
  | S n', String _ s' => drop n' s'
  | S _, EmptyString => EmptyString
  end.

(** [s[:n]], saturating *)
Fixpoint take (n : nat) (s : string) : string :=
  match n, s with
  | O, _ => EmptyString
  | S n', String c s' => String c (take n' s')
  | S _, EmptyString => EmptyString
  end.

Definition hasSuffix (s suf : string) : bool :=
  Nat.leb (String.length suf) (String.length s)
  && String.eqb (drop (String.length s - String.length suf) s) suf.

(** [strings.Index]: [None] stands for [-1]. *)
Fixpoint index (s sub : string) : option nat :=
  if hasPrefix s sub then Some 0
  else match s with
       | EmptyString => None
       | String _ s' => option_map S (index s' sub)
       end.

Definition contains (s sub : string) : bool :=
  match index s sub with Some _ => true | None => false end.

(** [strings.Split(s, sep)] for a one-byte separator *)
Fixpoint splitChar (c : ascii) (s : string) : list string :=
  match s with
  | EmptyString => [EmptyString]
  | String d s' =>
      let rest := splitChar c s' in
      if Ascii.eqb c d then EmptyString :: rest
      else match rest with
           | r :: rs => String d r :: rs
           | [] => [String d EmptyString]
           end
  end.

Definition trimPrefix (s p : string) : string :=
  if hasPrefix s p then drop (String.length p) s else s.

Definition trimSuffix (s suf : string) : string :=
  if hasSuffix s suf then take (String.length s - String.length suf) s else s.

Definition isSpace (c : ascii) : bool :=
  match nat_of_ascii c with
  | 9 | 10 | 11 | 12 | 13 | 32 => true
  | _ => false
  end.

Fixpoint trimLeft (s : string) : string :=
  match s with
  | String c s' => if isSpace c then trimLeft s' else s
  | EmptyString => EmptyString
  end.

Definition trimSpace (s : string) : string :=
  string_of_list_ascii (rev (list_ascii_of_string
    (trimLeft (string_of_list_ascii (rev (list_ascii_of_string (trimLeft s))))))).

Definition lowerChar (c : ascii) : ascii :=
  let n := nat_of_ascii c in
  if Nat.leb 65 n && Nat.leb n 90 then ascii_of_nat (n + 32) else c.

Fixpoint toLower (s : string) : string :=
  match s with
  | EmptyString => EmptyString
  | String c s' => String (lowerChar c) (toLower s')
  end.

Fixpoint replaceAll (s : string) (old : ascii) (new : string) : string :=
  match s with
  | EmptyString => EmptyString
  | String c s' =>
      if Ascii.eqb c old then new ++ replaceAll s' old new
      else String c (replaceAll s' old new)
  end.

End GoStrings.
Import GoStrings.

(** ** Robots policy engine ([robots.go]) *)
Module Robots.

(** [robotsRules]; [crawlDelay] and [fetchedAt] are never read by the
    matcher and are left out. *)
Record robotsRules := mkRules {
  disallowRules : list string;
  allowRules : list string
}.

(** [wildcardMatch(path, pattern, mustMatchEnd)]: the loop over the
    [*]-separated parts, returning the final [pos], or [None] for an
    early [return false]. *)
Fixpoint wildcardLoop (path pattern : string) (i : nat) (parts : list string)
    (pos : nat) : option nat :=
  match parts with
  | [] => Some pos
  | part :: rest =>
      if String.eqb part "" then wildcardLoop path pattern (S i) rest pos
      else match index (drop pos path) part with
           | None => None
           | Some idx =>
               if (Nat.eqb i 0) && negb (hasPrefix pattern "*")
                  && negb (Nat.eqb idx 0)
               then None
               else wildcardLoop path pattern (S i) rest
                      (pos + idx + String.length part)
           end
  end.

Definition wildcardMatch (path pattern : string) (mustMatchEnd : bool) : bool :=
  match wildcardLoop path pattern 0 (splitChar "*"%char pattern) 0 with
  | None => false
  | Some pos =>
      if mustMatchEnd && negb (Nat.eqb pos (String.length path)) then false
      else true
  end.

Definition pathMatches (path pattern : string) : bool :=
  if String.eqb pattern "" then false
  else
    let '(mustMatchEnd, pattern) :=
      if hasSuffix pattern "$"
      then (true, take (String.length pattern - 1) pattern)
      else (false, pattern) in
    if contains pattern "*" then wildcardMatch path pattern mustMatchEnd
    else if mustMatchEnd then String.eqb path pattern
    else hasPrefix path pattern.

(** One of the two [for _, rule := range ...] loops of [IsAllowed]:
    [verdict] is [true] for the allow list and [false] for the
    disallow list; the accumulator is [(allowed, matchedLen)]. *)
Definition scanRules (path : string) (verdict : bool) (rules : list string)
    (acc : bool * nat) : bool * nat :=
  fold_left (fun '(allowed, matchedLen) rule =>
               if pathMatches path rule && Nat.ltb matchedLen (String.length rule)
               then (verdict, String.length rule)
               else (allowed, matchedLen))
            rules acc.

(** The body of [IsAllowed] once [getRules] has answered ([None] is a nil
    rule set) and the URL path has been extracted. *)
Definition effectivePath (urlPath : string) : string :=
  if String.eqb urlPath "" then "/" else urlPath.

Definition isAllowedPath (rules : option robotsRules) (urlPath : string) : bool :=
  match rules with
  | None => true
  | Some r =>
      let path := effectivePath urlPath in
      fst (scanRules path false (disallowRules r)
             (scanRules path true (allowRules r) (true, 0)))
  end.

(** [parseRobotsTxt]: the scanner state *)
Record parseState := mkParse {
  currentUserAgent : string;
  matchesUs : bool;
  rules : robotsRules;
  wildcardRules : robotsRules
}.

Definition initState : parseState :=
  mkParse "" false (mkRules [] []) (mkRules [] []).

(** [key] and [value] of a non-empty, non-comment line with a colon *)
Definition lineKeyValue (raw : string) : option (string * string) :=
  let line := trimSpace raw in
  if String.eqb line "" || hasPrefix line "#" then None
  else match index line ":" with
       | None => None
       | Some colonIdx =>
           Some (toLower (trimSpace (take colonIdx line)),
                 trimSpace (drop (S colonIdx) line))
       end.

Definition addDisallow (r : robotsRules) (v : string) : robotsRules :=
  mkRules (disallowRules r ++ [v]) (allowRules r).
Definition addAllow (r : robotsRules) (v : string) : robotsRules :=
  mkRules (disallowRules r) (allowRules r ++ [v]).

Definition parseLine (userAgent : string) (st : parseState) (raw : string)
    : parseState :=
  match lineKeyValue raw with
  | None => st
  | Some (key, value) =>
      if String.eqb key "user-agent" then
        let cur := toLower value in
        let m := if String.eqb cur "*" then false
                 else if contains (toLower userAgent) cur
                         || String.eqb cur (toLower userAgent) then true
                 else false in
        mkParse cur m (rules st) (wildcardRules st)
      else if String.eqb key "disallow" then
        if String.eqb value "" then st
        else if matchesUs st then
          mkParse (currentUserAgent st) true (addDisallow (rules st) value)
                  (wildcardRules st)
        else if String.eqb (currentUserAgent st) "*" then
          mkParse (currentUserAgent st) (matchesUs st) (rules st)
                  (addDisallow (wildcardRules st) value)
        else st
      else if String.eqb key "allow" then
        if matchesUs st then
          mkParse (currentUserAgent st) true (addAllow (rules st) value)
                  (wildcardRules st)
        else if String.eqb (currentUserAgent st) "*" then
          mkParse (currentUserAgent st) (matchesUs st) (rules st)
                  (addAllow (wildcardRules st) value)
        else st
      else st
  end.

(** [parseRobotsTxt(reader)], on the lines the [bufio.Scanner] yields;
    the result is never nil. *)
Definition parseRobotsTxt (userAgent : string) (lines : list string)
    : robotsRules :=
  let st := fold_left (parseLine userAgent) lines initState in
  match disallowRules (rules st), allowRules (rules st) with
  | [], [] => mkRules (disallowRules (wildcardRules st))
                      (allowRules (wildcardRules st))
  | _, _ => rules st
  end.

Definition isUserAgentLine (raw : string) : bool :=
  match lineKeyValue raw with
  | Some (key, _) => String.eqb key "user-agent"
  | None => false
  end.

(** the rules of a list that match a path *)
Definition matching (path : string) (rs : list string) : list string :=
  filter (pathMatches path) rs.

(** the longest matching length, starting from [m] *)
Definition maxMatchLen (path : string) (rs : list string) (m : nat) : nat :=
  fold_left (fun acc r => if pathMatches path r then Nat.max acc (String.length r)
                          else acc) rs m.





End Robots.

(** [UserAgent] of [fetcher.go] *)
Definition UserAgent : string :=
  "site2skillgo/1.0 (+https://github.com/f4ah6o/site2skill-go)".

(** ** The part of Go's [net/url] the fetcher relies on

    [url.Parse], [URL.String], [URL.Query], [url.Values.Set],
    [url.Values.Encode] and [url.Values.Get], following the Go sources.
    Userinfo is kept raw (Go validates and re-escapes it), IPv6 zones are
    not modelled and the fragment is written back with [escape]. *)
Module Url.

Inductive encoding :=
| encodePath | encodePathSegment | encodeHost | encodeZone
| encodeUserPassword | encodeQueryComponent | encodeFragment.

Definition enc_eqb (a b : encoding) : bool :=
  match a, b with
  | encodePath, encodePath | encodePathSegment, encodePathSegment
  | encodeHost, encodeHost | encodeZone, encodeZone
  | encodeUserPassword, encodeUserPassword
  | encodeQueryComponent, encodeQueryComponent
  | encodeFragment, encodeFragment => true
  | _, _ => false
  end.

Definition inRange (lo hi : nat) (c : ascii) : bool :=
  Nat.leb lo (nat_of_ascii c) && Nat.leb (nat_of_ascii c) hi.

Definition isAlnum (c : ascii) : bool :=
  inRange 97 122 c || inRange 65 90 c || inRange 48 57 c.

Definition charIn (c : ascii) (set : string) : bool :=
  existsb (Ascii.eqb c) (list_ascii_of_string set).

Definition shouldEscape (c : ascii) (mode : encoding) : bool :=
  if isAlnum c then false
  else if (enc_eqb mode encodeHost || enc_eqb mode encodeZone)
          && charIn c ("!$&'()*+,;=:[]<>" ++ String (ascii_of_nat 34) "") then false
  else if charIn c "-_.~" then false
  else if charIn c "$&+,/:;=?@" then
    match mode with
    | encodePath => Ascii.eqb c "?"
    | encodePathSegment => charIn c "/;,?"
    | encodeUserPassword => charIn c "@/?:"
    | encodeQueryComponent => true
    | encodeFragment => false
    | _ => if enc_eqb mode encodeFragment && charIn c "!()*" then false else true
    end
  else if enc_eqb mode encodeFragment && charIn c "!()*" then false
  else true.

Definition ishex (c : ascii) : bool :=
  inRange 48 57 c || inRange 97 102 c || inRange 65 70 c.

Definition unhex (c : ascii) : nat :=
  let n := nat_of_ascii c in
  if inRange 48 57 c then n - 48
  else if inRange 97 102 c then n - 87
  else if inRange 65 70 c then n - 55
  else 0.

Definition upperhex (n : nat) : ascii :=
  if Nat.ltb n 10 then ascii_of_nat (48 + n) else ascii_of_nat (55 + n).

(** [unescape(s, mode)]: the validation pass and the decoding pass of Go
    fused into one traversal; [None] is an [EscapeError] or an
    [InvalidHostError]. *)
Fixpoint unescape (s : string) (mode : encoding) : option string :=
  match s with
  | EmptyString => Some EmptyString
  | String "%" (String h1 (String h2 rest)) =>
      if ishex h1 && ishex h2 then
        if enc_eqb mode encodeHost && Nat.ltb (unhex h1) 8
           && negb (Ascii.eqb h1 "2" && Ascii.eqb h2 "5")
        then None
        else option_map (String (ascii_of_nat (unhex h1 * 16 + unhex h2)))
                        (unescape rest mode)
      else None
  | String "%" _ => None
  | String "+" rest =>
      option_map (String (if enc_eqb mode encodeQueryComponent then " " else "+"))
                 (unescape rest mode)
  | String c rest =>
      if (enc_eqb mode encodeHost || enc_eqb mode encodeZone)
         && Nat.ltb (nat_of_ascii c) 128 && shouldEscape c mode
      then None
      else option_map (String c) (unescape rest mode)
  end.

Fixpoint escape (s : string) (mode : encoding) : string :=
  match s with
  | EmptyString => EmptyString
  | String c rest =>
      if shouldEscape c mode then
        if Ascii.eqb c " " && enc_eqb mode encodeQueryComponent
        then String "+" (escape rest mode)
        else String "%" (String (upperhex (nat_of_ascii c / 16))
               (String (upperhex (nat_of_ascii c mod 16)) (escape rest mode)))
      else String c (escape rest mode)
  end.

Definition QueryEscape (s : string) : string := escape s encodeQueryComponent.
Definition QueryUnescape (s : string) : option string := unescape s encodeQueryComponent.

(** [validEncoded(s, mode)] *)
Definition validEncoded (s : string) (mode : encoding) : bool :=
  forallb (fun c => charIn c "!$&'()*+,;=:@[]%" || negb (shouldEscape c mode))
          (list_ascii_of_string s).

Record URL := mkURL {
  Scheme : string;
  Opaque : string;
  User : option string;
  Host : string;
  Path : string;
  RawPath : string;
  OmitHost : bool;
  ForceQuery : bool;
  RawQuery : string;
  Fragment : string
}.

Definition emptyURL : URL := mkURL "" "" None "" "" "" false false "" "".

(** [strings.Cut(s, sep)] for a one-byte separator *)
Definition cut (s : string) (sep : string) : string * string * bool :=
  match index s sep with
  | Some i => (take i s, drop (i + String.length sep) s, true)
  | None => (s, EmptyString, false)
  end.

Fixpoint lastIndexChar (s : string) (c : ascii) : option nat :=
  match s with
  | EmptyString => None
  | String d s' =>
      match lastIndexChar s' c with
      | Some i => Some (S i)
      | None => if Ascii.eqb c d then Some 0 else None
      end
  end.

Fixpoint countChar (s : string) (c : ascii) : nat :=
  match s with
  | EmptyString => 0
  | String d s' => (if Ascii.eqb c d then 1 else 0) + countChar s' c
  end.

Definition stringContainsCTLByte (s : string) : bool :=
  existsb (fun c => Nat.ltb (nat_of_ascii c) 32 || Nat.eqb (nat_of_ascii c) 127)
          (list_ascii_of_string s).

(** [getScheme]: [None] is the "missing protocol scheme" error *)
Fixpoint getSchemeAux (i : nat) (s rawURL : string) : option (string * string) :=
  match s with
  | EmptyString => Some (EmptyString, rawURL)
  | String c s' =>
      if inRange 97 122 c || inRange 65 90 c then getSchemeAux (S i) s' rawURL
      else if inRange 48 57 c || charIn c "+-." then
        if Nat.eqb i 0 then Some (EmptyString, rawURL)
        else getSchemeAux (S i) s' rawURL
      else if Ascii.eqb c ":" then
        if Nat.eqb i 0 then None
        else Some (take i rawURL, drop (S i) rawURL)
      else Some (EmptyString, rawURL)
  end.

Definition getScheme (rawURL : string) : option (string * string) :=
  getSchemeAux 0 rawURL rawURL.

Definition validOptionalPort (port : string) : bool :=
  match port with
  | EmptyString => true
  | String c rest => Ascii.eqb c ":" && forallb (inRange 48 57) (list_ascii_of_string rest)
  end.

(** [parseHost]; for a bracketed host only the port after [']'] is
    checked. *)
Definition parseHost (host : string) : option string :=
  if hasPrefix host "[" then
    match lastIndexChar host "]" with
    | None => None
    | Some i => if validOptionalPort (drop (S i) host) then unescape host encodeHost
                else None
    end
  else match lastIndexChar host ":" with
       | Some i => if validOptionalPort (drop i host) then unescape host encodeHost
                   else None
       | None => unescape host encodeHost
       end.

Definition parseAuthority (authority : string) : option (option string * string) :=
  match lastIndexChar authority "@" with
  | None => option_map (fun h => (None, h)) (parseHost authority)
  | Some i => option_map (fun h => (Some (take i authority), h))
                         (parseHost (drop (S i) authority))
  end.

(** [URL.setPath] *)
Definition setPath (u : URL) (p : string) : option URL :=
  match unescape p encodePath with
  | None => None
  | Some path =>
      let rawPath := if String.eqb p (escape path encodePath) then EmptyString else p in
      Some (mkURL (Scheme u) (Opaque u) (User u) (Host u) path rawPath
                  (OmitHost u) (ForceQuery u) (RawQuery u) (Fragment u))
  end.

(** [parse(rawURL, viaRequest=false)] *)
Definition parse (rawURL : string) : option URL :=
  if stringContainsCTLByte rawURL then None
  else if String.eqb rawURL "*" then
    Some (mkURL "" "" None "" "*" "" false false "" "")
  else
  match getScheme rawURL with
  | None => None
  | Some (scheme0, rest0) =>
    let scheme := toLower scheme0 in
    let '(rest, forceQuery, rawQuery) :=
      if hasSuffix rest0 "?" && Nat.eqb (countChar rest0 "?") 1
      then (take (String.length rest0 - 1) rest0, true, EmptyString)
      else let '(r, q, _) := cut rest0 "?" in (r, false, q) in
    let base := mkURL scheme "" None "" "" "" false forceQuery rawQuery "" in
    if negb (hasPrefix rest "/") && negb (String.eqb scheme "") then
      Some (mkURL scheme rest None "" "" "" false forceQuery rawQuery "")
    else if negb (hasPrefix rest "/")
            && (let '(segment, _, _) := cut rest "/" in contains segment ":") then None
    else
    let authorityPart :=
      if (negb (String.eqb scheme "") || negb (hasPrefix rest "///"))
         && hasPrefix rest "//" then
        let a := drop 2 rest in
        let '(authority, rest') :=
          match index a "/" with
          | Some i => (take i a, drop i a)
          | None => (a, EmptyString)
          end in
        match parseAuthority authority with
        | None => None
        | Some (user, host) =>
            Some (mkURL scheme "" user host "" "" false forceQuery rawQuery "", rest')
        end
      else if negb (String.eqb scheme "") && hasPrefix rest "/" then
        Some (mkURL scheme "" None "" "" "" true forceQuery rawQuery "", rest)
      else Some (base, rest) in
    match authorityPart with
    | None => None
    | Some (u, rest') => setPath u rest'
    end
  end.

(** [url.Parse] *)
Definition Parse (rawURL : string) : option URL :=
  let '(u, frag, _) := cut rawURL "#" in
  match parse u with
  | None => None
  | Some url =>
      if String.eqb frag "" then Some url
      else match unescape frag encodeFragment with
           | None => None
           | Some f => Some (mkURL (Scheme url) (Opaque url) (User url) (Host url)
                                   (Path url) (RawPath url) (OmitHost url)
                                   (ForceQuery url) (RawQuery url) f)
           end
  end.

(** [URL.EscapedPath] *)
Definition EscapedPath (u : URL) : string :=
  if negb (String.eqb (RawPath u) "") && validEncoded (RawPath u) encodePath
     && (match unescape (RawPath u) encodePath with
         | Some p => String.eqb p (Path u) | None => false end)
  then RawPath u
  else if String.eqb (Path u) "*" then "*"
  else escape (Path u) encodePath.

(** [URL.String] *)
Definition toString (u : URL) : string :=
  let s1 := if String.eqb (Scheme u) "" then "" else Scheme u ++ ":" in
  let body :=
    if negb (String.eqb (Opaque u) "") then Opaque u
    else
      let auth :=
        if negb (String.eqb (Scheme u) "") || negb (String.eqb (Host u) "")
           || (match User u with Some _ => true | None => false end) then
          if OmitHost u && String.eqb (Host u) ""
             && (match User u with None => true | Some _ => false end) then ""
          else
            (if negb (String.eqb (Host u) "") || negb (String.eqb (Path u) "")
                || (match User u with Some _ => true | None => false end)
             then "//" else "")
            ++ (match User u with Some ui => ui ++ "@" | None => "" end)
            ++ (if String.eqb (Host u) "" then "" else escape (Host u) encodeHost)
        else "" in
      let path := EscapedPath u in
      let slash :=
        if negb (String.eqb path "") && negb (hasPrefix path "/")
           && negb (String.eqb (Host u) "") then "/" else "" in
      let dot :=
        if String.eqb (s1 ++ auth ++ slash) ""
           && (let '(segment, _, _) := cut path "/" in contains segment ":")
        then "./" else "" in
      auth ++ slash ++ dot ++ path in
  let q := if ForceQuery u || negb (String.eqb (RawQuery u) "")
           then "?" ++ RawQuery u else "" in
  let f := if String.eqb (Fragment u) "" then ""
           else "#" ++ escape (Fragment u) encodeFragment in
  s1 ++ body ++ q ++ f.

(** [url.Values], an association list in first-insertion order *)
Definition Values := list (string * list string).

Fixpoint valuesAdd (m : Values) (k v : string) : Values :=
  match m with
  | [] => [(k, [v])]
  | (k', vs) :: m' =>
      if String.eqb k k' then (k', (vs ++ [v])%list) :: m' else (k', vs) :: valuesAdd m' k v
  end.

Fixpoint valuesLookup (m : Values) (k : string) : option (list string) :=
  match m with
  | [] => None
  | (k', vs) :: m' => if String.eqb k k' then Some vs else valuesLookup m' k
  end.

(** [Values.Get] *)
Definition Get (m : Values) (k : string) : string :=
  match valuesLookup m k with
  | Some (v :: _) => v
  | _ => ""
  end.

(** [Values.Set] *)
Fixpoint SetV (m : Values) (k v : string) : Values :=
  match m with
  | [] => [(k, [v])]
  | (k', vs) :: m' =>
      if String.eqb k k' then (k', [v]) :: m' else (k', vs) :: SetV m' k v
  end.

(** [parseQuery] on the [&]-separated pieces *)
Fixpoint parseQueryPieces (m : Values) (pieces : list string) : Values :=
  match pieces with
  | [] => m
  | key0 :: rest =>
      if contains key0 ";" || String.eqb key0 "" then parseQueryPieces m rest
      else
        let '(k, v, _) := cut key0 "=" in
        match QueryUnescape k, QueryUnescape v with
        | Some k', Some v' => parseQueryPieces (valuesAdd m k' v') rest
        | _, _ => parseQueryPieces m rest
        end
  end.

Definition ParseQuery (query : string) : Values :=
  if String.eqb query "" then [] else parseQueryPieces [] (splitChar "&" query).

(** [URL.Query] *)
Definition Query (u : URL) : Values := ParseQuery (RawQuery u).

Definition strLt (a b : string) : bool :=
  match String.compare a b with Lt => true | _ => false end.

Fixpoint insertSorted (k : string * list string) (m : Values) : Values :=
  match m with
  | [] => [k]
  | k' :: m' => if strLt (fst k) (fst k') then k :: m else k' :: insertSorted k m'
  end.

Definition sortKeys (m : Values) : Values := fold_right insertSorted [] m.

Fixpoint joinAmp (xs : list string) : string :=
  match xs with
  | [] => ""
  | [x] => x
  | x :: xs' => x ++ "&" ++ joinAmp xs'
  end.

(** [Values.Encode] *)
Definition Encode (m : Values) : string :=
  joinAmp (concat (map (fun '(k, vs) =>
                          map (fun v => QueryEscape k ++ "=" ++ QueryEscape v) vs)
                       (sortKeys m))).

Definition withRawQuery (u : URL) (q : string) : URL :=
  mkURL (Scheme u) (Opaque u) (User u) (Host u) (Path u) (RawPath u)
        (OmitHost u) (ForceQuery u) q (Fragment u).

End Url.

(** ** Locale resolver ([locale.go]) *)
Module Locale.
Import Url.

Record LocaleConfig := mkLocaleConfig {
  Priority : list string;
  ParamName : string
}.

Definition DefaultLocalePriority : list string := ["en"; "ja"].

Definition KnownLocales : list string :=
  ["en"; "en-us"; "en-gb"; "ja"; "ja-jp";
   "zh"; "zh-cn"; "zh-tw"; "zh-hk"; "ko"; "ko-kr";
   "de"; "de-de"; "fr"; "fr-fr"; "es"; "es-es"; "it"; "it-it";
   "pt"; "pt-br"; "ru"; "ru-ru";
   "ar"; "nl"; "pl"; "tr"; "vi"; "th"; "id"; "ms"].

Definition isKnownLocale (s : string) : bool := existsb (String.eqb s) KnownLocales.

Definition isLetter (c : ascii) : bool := inRange 97 122 c || inRange 65 90 c.

(** [-[a-zA-Z]{k}] followed by [/], for the region part of the pattern *)
Definition regionTry (r : string) (k : nat) : option string :=
  let t := take k r in
  if forallb isLetter (list_ascii_of_string t) && Nat.eqb (String.length t) k
     && hasPrefix (drop k r) "/"
  then Some t else None.

(** [localePathPattern.FindStringSubmatch(path)][1] for the pattern
    [^/([a-z]{2}(?:-[a-zA-Z]{2,4})?)/]: leftmost-first, the optional group
    and the repetition are greedy, so a region of 4, then 3, then 2 letters
    is tried before the bare two-letter code. *)
Definition localePathMatch (path : string) : option string :=
  match path with
  | String s (String a (String b rest)) =>
      if Ascii.eqb s "/" && inRange 97 122 a && inRange 97 122 b then
        let two := String a (String b EmptyString) in
        let withRegion :=
          match rest with
          | String d r =>
              if Ascii.eqb d "-" then
                match regionTry r 4 with
                | Some t => Some t
                | None => match regionTry r 3 with
                          | Some t => Some t
                          | None => regionTry r 2
                          end
                end
              else None
          | EmptyString => None
          end in
        match withRegion with
        | Some t => Some (two ++ "-" ++ t)
        | None => if hasPrefix rest "/" then Some two else None
        end
      else None
  | _ => None
  end.

(** [ExtractLocale(u, cfg)]; [None] stands for a nil pointer. *)
Definition ExtractLocale (u : option URL) (cfg : option LocaleConfig) : string * string :=
  match u with
  | None => ("", "")
  | Some u =>
      let queryMode :=
        match cfg with
        | Some c => negb (String.eqb (ParamName c) "")
        | None => false
        end in
      if queryMode then
        (match cfg with Some c => Get (Query u) (ParamName c) | None => "" end, Path u)
      else
        let path := Path u in
        match localePathMatch path with
        | Some m =>
            let potentialLocale := toLower m in
            if isKnownLocale potentialLocale then
              let canonical := trimPrefix path ("/" ++ m) in
              (potentialLocale, if String.eqb canonical "" then "/" else canonical)
            else ("", path)
        | None => ("", path)
        end
  end.

(** [BuildLocaleURL(baseURL, locale, canonical, cfg)] *)
Definition BuildLocaleURL (baseURL locale canonical : string) (cfg : option LocaleConfig)
    : string :=
  if String.eqb locale "" then baseURL ++ canonical
  else
    match cfg with
    | Some c =>
        if negb (String.eqb (ParamName c) "") then
          match Parse (baseURL ++ canonical) with
          | None => baseURL ++ canonical
          | Some u =>
              let q := SetV (Query u) (ParamName c) locale in
              toString (withRawQuery u (Encode q))
          end
        else baseURL ++ "/" ++ locale ++ canonical
    | None => baseURL ++ "/" ++ locale ++ canonical
    end.

End Locale.

(** ** The part of Go's [path/filepath] the fetcher relies on (Unix)

    [Clean] is written over the slash-separated elements: empty and [.]
    elements are dropped, [..] removes the previous element, is dropped at
    the root, and is kept at the front of a relative path; [Join] cleans the
    elements from the first non-empty one joined with [/]. *)
Module FilePath.
Import Url.

Fixpoint joinWith (sep : string) (xs : list string) : string :=
  match xs with
  | [] => ""
  | [x] => x
  | x :: xs' => x ++ sep ++ joinWith sep xs'
  end.

(** the kept elements, most recent first *)
Fixpoint cleanElems (rooted : bool) (stack : list string) (elems : list string)
    : list string :=
  match elems with
  | [] => stack
  | e :: es =>
      if String.eqb e "" || String.eqb e "." then cleanElems rooted stack es
      else if String.eqb e ".." then
        match stack with
        | top :: rest =>
            if String.eqb top ".." then cleanElems rooted (".." :: stack) es
            else cleanElems rooted rest es
        | [] => if rooted then cleanElems rooted [] es else cleanElems rooted [".."] es
        end
      else cleanElems rooted (e :: stack) es
  end.

(** [filepath.Clean] *)
Definition Clean (path : string) : string :=
  if String.eqb path "" then "."
  else
    let rooted := hasPrefix path "/" in
    let body := joinWith "/" (rev (cleanElems rooted [] (splitChar "/" path))) in
    let out := if rooted then "/" ++ body else body in
    if String.eqb out "" then "." else out.

(** [filepath.Join] *)
Fixpoint Join (elem : list string) : string :=
  match elem with
  | [] => ""
  | e :: rest => if String.eqb e "" then Join rest else Clean (joinWith "/" elem)
  end.

Fixpoint extRev (rl : list ascii) (acc : string) : string :=
  match rl with
  | [] => ""
  | c :: rl' =>
      if Ascii.eqb c "/" then ""
      else if Ascii.eqb c "." then String c acc
      else extRev rl' (String c acc)
  end.

(** [filepath.Ext]: the suffix from the last [.] of the last element *)
Definition Ext (path : string) : string := extRev (rev (list_ascii_of_string path)) "".

(** [filepath.Dir] *)
Definition Dir (path : string) : string :=
  match lastIndexChar path "/" with
  | Some i => Clean (take (S i) path)
  | None => Clean ""
  end.

End FilePath.

(** ** File naming ([getFilePath] and [isNonHTMLResource]) *)
Module Naming.
Import Url FilePath.

(** [getFilePath(crawlDir, parsedURL)] *)
Definition getFilePath (crawlDir : string) (parsedURL : URL) : string :=
  let path := Path parsedURL in
  let path := if String.eqb path "" || String.eqb path "/" then "/index" else path in
  let path := trimSuffix path "/" in
  let query := Query parsedURL in
  let path :=
    if Nat.ltb 0 (List.length query) then
      let encodedQuery := Encode query in
      let safeQuery := replaceAll encodedQuery "&" "_" in
      let safeQuery := replaceAll safeQuery "=" "_" in
      let safeQuery := replaceAll safeQuery "%" "" in
      path ++ "_q_" ++ safeQuery
    else path in
  let path := if String.eqb (Ext path) "" then path ++ ".html" else path in
  Join [crawlDir; Host parsedURL; path].

Definition nonHTMLExtensions : list string :=
  [".css"; ".js"; ".png"; ".jpg"; ".jpeg"; ".gif"; ".svg"; ".ico";
   ".woff"; ".woff2"; ".ttf"; ".eot"; ".zip"; ".tar"; ".gz"; ".pdf";
   ".xml"; ".json"; ".txt"].

(** [isNonHTMLResource(urlStr)] *)
Definition isNonHTMLResource (urlStr : string) : bool :=
  let lower := toLower urlStr in
  existsb (hasSuffix lower) nonHTMLExtensions.

End Naming.

(** ** Crawler ([Fetcher.Fetch], [crawl], [crawlWithLocalePriority],
    [checkURLExists])

    The outside world of a session is a record [env]: the robots.txt
    verdict of [RobotsChecker.IsAllowed] (with the base path [Fetch]
    configures), the answers of the HEAD, ranged GET and GET requests
    ([None] is a transport error), the links [decodeHTML], [html.Parse] and
    [extractLinks] find in a page ([None] is a parse error) and the results
    of the file-system calls. The Fetcher's mutable fields are a state
    record; [trace] is a ghost log of the calls, probes and page requests,
    most recent first. The sleeps and the progress output are left out. *)
Module Fetcher.
Import Url Locale FilePath Naming.

Record response := mkResponse {
  StatusCode : nat;
  ContentType : string;
  Body : option string
}.

Inductive ioError := ErrNotExist | ErrOtherIO.

Record env := mkEnv {
  robotsAllowed : string -> bool;
  headStatus : string -> option nat;
  rangeStatus : string -> option nat;
  getResponse : string -> option response;
  pageLinks : response -> string -> option (list string);
  mkdirAllOk : string -> bool;
  writeFileOk : string -> bool;
  removeAllResult : option ioError
}.

Inductive event :=
| ECall (url : string) (depth : nat)
| EProbe (url : string)
| EGet (url key : string) (depth : nat).

Record crawlState := mkState {
  visited : list string;
  visitedCanonical : list string;
  downloadCount : nat;
  trace : list event
}.

Definition initState : crawlState := mkState [] [] 0 [].

Definition record (e : event) (st : crawlState) : crawlState :=
  mkState (visited st) (visitedCanonical st) (downloadCount st) (e :: trace st).

Definition markVisited (u : string) (st : crawlState) : crawlState :=
  mkState (u :: visited st) (visitedCanonical st) (downloadCount st) (trace st).

Definition markCanonical (c : string) (st : crawlState) : crawlState :=
  mkState (visited st) (c :: visitedCanonical st) (downloadCount st) (trace st).

Definition bumpCount (st : crawlState) : crawlState :=
  mkState (visited st) (visitedCanonical st) (S (downloadCount st)) (trace st).

Inductive probeOutcome := Found (url locale : string) | Abort | Exhausted.

(** the status classes that make the resolver give up a canonical path *)
Definition abortStatus (code : nat) : bool :=
  Nat.eqb code 403 || Nat.eqb code 429 || Nat.leb 500 code.

Definition localePriority (cfg : LocaleConfig) : list string :=
  match Priority cfg with
  | [] => DefaultLocalePriority
  | p => p
  end.

Section Crawl.
Variable E : env.
Variable domain : string.
Variable maxDepth : nat.
Variable localeConfig : option LocaleConfig.
Variable crawlDir : string.

(** [checkURLExists] with its fallback [checkURLExistsWithRange];
    [http.NewRequest] fails exactly when the URL does not parse. *)
Definition checkURLExists (targetURL : string) : bool * nat :=
  match Parse targetURL with
  | None => (false, 0)
  | Some _ =>
      match headStatus E targetURL with
      | Some code => (Nat.eqb code 200, code)
      | None =>
          match rangeStatus E targetURL with
          | None => (false, 0)
          | Some code => (Nat.eqb code 200 || Nat.eqb code 206, code)
          end
      end
  end.

(** the recursive [crawl], as passed to its helpers; the error is [None] for nil *)
Definition crawlFn := crawlState -> string -> nat -> crawlState * option string.

(** [for _, link := range links { f.crawl(link, crawlDir, depth+1) }] *)
Definition crawlLinks (rec : crawlFn) (st : crawlState) (links : list string) (depth : nat)
    : crawlState :=
  fold_left (fun st link => fst (rec st link (S depth))) links st.

(** the request, checks, save and link following that [crawl] and
    [crawlWithLocalePriority] share; [key] is the URL or canonical path the
    caller deduplicates on, kept in the log *)
Definition fetchPage (rec : crawlFn) (st : crawlState) (fetchURL key : string)
    (parsedURL : URL) (depth : nat) : crawlState * option string :=
  match Parse fetchURL with
  | None => (st, None)
  | Some _ =>
      let st := record (EGet fetchURL key depth) st in
      match getResponse E fetchURL with
      | None => (st, None)
      | Some resp =>
          if negb (Nat.eqb (StatusCode resp) 200) then (st, None)
          else
          let contentType := ContentType resp in
          if negb (contains contentType "text/html") && negb (String.eqb contentType "")
          then (st, None)
          else
          match Body resp with
          | None => (st, None)
          | Some _ =>
              let filePath := getFilePath crawlDir parsedURL in
              if negb (mkdirAllOk E (Dir filePath)) then (st, None)
              else if negb (writeFileOk E filePath) then (st, None)
              else
              let st := bumpCount st in
              match pageLinks E resp fetchURL with
              | None => (st, None)
              | Some links => (crawlLinks rec st links depth, None)
              end
          end
      end
  end.

(** the loop over the priority list in [crawlWithLocalePriority] *)
Fixpoint probeLocales (cfg : LocaleConfig) (st : crawlState) (baseURL canonical : string)
    (priority : list string) : crawlState * probeOutcome :=
  match priority with
  | [] => (st, Exhausted)
  | locale :: rest =>
      let testURL := BuildLocaleURL baseURL locale canonical (Some cfg) in
      let '(found, statusCode) := checkURLExists testURL in
      let st := record (EProbe testURL) st in
      if found then (st, Found testURL locale)
      else if negb (Nat.eqb statusCode 404) && negb (Nat.eqb statusCode 0)
              && abortStatus statusCode
      then (st, Abort)
      else probeLocales cfg st baseURL canonical rest
  end.

(** [crawlWithLocalePriority(originalURL, canonical, crawlDir, depth)] *)
Definition crawlWithLocalePriority (cfg : LocaleConfig) (rec : crawlFn) (st : crawlState)
    (originalURL canonical : string) (depth : nat) : crawlState * option string :=
  match Parse originalURL with
  | None => (st, None)
  | Some parsedURL =>
      if negb (String.eqb (Host parsedURL) domain) then (st, None)
      else if isNonHTMLResource originalURL then (st, None)
      else if negb (robotsAllowed E originalURL) then (st, None)
      else
      let baseURL := Scheme parsedURL ++ "://" ++ Host parsedURL in
      let '(st, outcome) := probeLocales cfg st baseURL canonical (localePriority cfg) in
      match outcome with
      | Abort => (st, None)
      | _ =>
          let fetchURL := match outcome with Found u _ => u | _ => "" end in
          if String.eqb fetchURL "" then
            let '(found, _) := checkURLExists originalURL in
            let st := record (EProbe originalURL) st in
            if found then fetchPage rec st originalURL canonical parsedURL depth
            else (st, None)
          else fetchPage rec st fetchURL canonical parsedURL depth
      end
  end.

(** [crawl(targetURL, crawlDir, depth)]. The recursion is bounded by the
    depth check; [fuel] only makes it structural ([Fetch] passes
    [maxDepth + 2], enough for every call to run its body). *)
Fixpoint crawl (fuel : nat) (st : crawlState) (targetURL : string) (depth : nat)
    {struct fuel} : crawlState * option string :=
  match fuel with
  | O => (st, None)
  | S fuel' =>
      let st := record (ECall targetURL depth) st in
      if Nat.ltb maxDepth depth then (st, None)
      else if negb (robotsAllowed E targetURL) then (st, None)
      else
      match localeConfig with
      | Some cfg =>
          match Parse targetURL with
          | None => (st, None)
          | Some parsedURL =>
              let canonical := snd (ExtractLocale (Some parsedURL) localeConfig) in
              if existsb (String.eqb canonical) (visitedCanonical st) then (st, None)
              else crawlWithLocalePriority cfg (crawl fuel') (markCanonical canonical st)
                     targetURL canonical depth
          end
      | None =>
          if existsb (String.eqb targetURL) (visited st) then (st, None)
          else
          let st := markVisited targetURL st in
          match Parse targetURL with
          | None => (st, None)
          | Some parsedURL =>
              if negb (String.eqb (Host parsedURL) domain) then (st, None)
              else if isNonHTMLResource targetURL then (st, None)
              else fetchPage (crawl fuel') st targetURL targetURL parsedURL depth
          end
      end
  end.

End Crawl.

Inductive fetchError :=
| ErrInvalidURL | ErrInvalidScheme | ErrMissingDomain
| ErrRemoveCrawlDir | ErrCreateCrawlDir | ErrCrawl (msg : string).

(** the scheme defaulting at the start of [Fetch] *)
Definition defaultScheme (targetURL : string) : string :=
  if negb (hasPrefix targetURL "http://") && negb (hasPrefix targetURL "https://")
  then "https://" ++ targetURL else targetURL.

(** [Fetcher.Fetch(targetURL)] on a fresh [Fetcher] *)
Definition Fetch (E : env) (outputDir : string) (maxDepth : nat)
    (localeConfig : option LocaleConfig) (targetURL : string)
    : option fetchError * crawlState :=
  let targetURL := defaultScheme targetURL in
  match Parse targetURL with
  | None => (Some ErrInvalidURL, initState)
  | Some parsedURL =>
      if negb (String.eqb (Scheme parsedURL) "http")
         && negb (String.eqb (Scheme parsedURL) "https")
      then (Some ErrInvalidScheme, initState)
      else if String.eqb (Host parsedURL) "" then (Some ErrMissingDomain, initState)
      else
      let domain := Host parsedURL in
      let crawlDir := Join [outputDir; "crawl"] in
      match removeAllResult E with
      | Some ErrOtherIO => (Some ErrRemoveCrawlDir, initState)
      | _ =>
          if negb (mkdirAllOk E crawlDir) then (Some ErrCreateCrawlDir, initState)
          else
          let '(st, err) :=
            crawl E domain maxDepth localeConfig crawlDir (S (S maxDepth)) initState
                  targetURL 0 in
          match err with
          | Some msg => (Some (ErrCrawl msg), st)
          | None => (None, st)
          end
      end
  end.

(** Observations on the log: the page requests with their keys, URLs and
    depths, and the log entries below a call at [depth]. *)
Definition fetchKeys (tr : list event) : list string :=
  flat_map (fun e => match e with EGet _ k _ => [k] | _ => [] end) tr.

Definition fetchURLs (tr : list event) : list string :=
  flat_map (fun e => match e with EGet u _ _ => [u] | _ => [] end) tr.

Definition fetchDepths (tr : list event) : list nat :=
  flat_map (fun e => match e with EGet _ _ d => [d] | _ => [] end) tr.

Definition below (maxDepth depth : nat) (e : event) : Prop :=
  match e with
  | ECall _ d => S depth <= d
  | EGet _ _ d => depth <= d <= maxDepth
  | EProbe _ => True
  end.

(** the keys [crawl] deduplicates on: canonical paths in locale mode, URLs otherwise *)
Definition seen (localeConfig : option LocaleConfig) (st : crawlState) : list string :=
  match localeConfig with
  | Some _ => visitedCanonical st
  | None => visited st
  end.

(** the state after probing [urls] in order *)
Definition recordProbes (urls : list string) (st : crawlState) : crawlState :=
  fold_left (fun st u => record (EProbe u) st) urls st.

End Fetcher.

(** ** The robots.txt checker ([RobotsChecker]: [SetBasePath], [IsAllowed],
    [getRules], [fetchRobotsTxt])

    The GET of a robots.txt is a function of the URL: [None] is a transport
    error, otherwise the status code and the lines the scanner reads from
    the body. The cache map is an association list, newest entry first;
    the mutex, the HTTP client settings and the log output are left out.
    Beside its result, [getRules] and [IsAllowed] return the URLs they
    request, in order. *)
Module RobotsChecker.
Import Url Robots.

Definition robotsGet := string -> option (nat * list string).

Record checker := mkChecker {
  cache : list (string * option robotsRules);
  userAgent : string;
  basePath : string
}.

(** [NewRobotsChecker(userAgent)] *)
Definition NewRobotsChecker (userAgent : string) : checker := mkChecker [] userAgent "".

(** [SetBasePath(basePath)] *)
Definition SetBasePath (r : checker) (basePath : string) : checker :=
  let basePath :=
    if negb (String.eqb basePath "") then
      let basePath := if negb (hasPrefix basePath "/") then "/" ++ basePath else basePath in
      trimSuffix basePath "/"
    else basePath in
  mkChecker (cache r) (userAgent r) basePath.

(** [rules, exists := r.cache[cacheKey]] *)
Fixpoint cacheLookup (c : list (string * option robotsRules)) (k : string)
    : option (option robotsRules) :=
  match c with
  | [] => None
  | (k', v) :: c' => if String.eqb k' k then Some v else cacheLookup c' k
  end.

(** [fetchRobotsTxt(robotsURL)]; [None] is a nil rule set. *)
Definition fetchRobotsTxt (get : robotsGet) (r : checker) (robotsURL : string)
    : option robotsRules :=
  match get robotsURL with
  | None => None
  | Some (status, lines) =>
      if negb (Nat.eqb status 200) then None
      else Some (parseRobotsTxt (userAgent r) lines)
  end.

(** [getRules(scheme, host)] *)
Definition getRules (get : robotsGet) (r : checker) (scheme host : string)
    : option robotsRules * checker * list string :=
  let cacheKey := scheme ++ "://" ++ host in
  let cacheKey := if negb (String.eqb (basePath r) "") then cacheKey ++ basePath r
                  else cacheKey in
  match cacheLookup (cache r) cacheKey with
  | Some rules => (rules, r, [])
  | None =>
      let robotsURL := scheme ++ "://" ++ host ++ "/robots.txt" in
      let rules := fetchRobotsTxt get r robotsURL in
      let '(rules, requested) :=
        match rules with
        | None =>
            if negb (String.eqb (basePath r) "") then
              let subDirRobotsURL := scheme ++ "://" ++ host ++ basePath r ++ "/robots.txt" in
              (fetchRobotsTxt get r subDirRobotsURL, [robotsURL; subDirRobotsURL])
            else (rules, [robotsURL])
        | Some _ => (rules, [robotsURL])
        end in
      (rules, mkChecker ((cacheKey, rules) :: cache r) (userAgent r) (basePath r),
       requested)
  end.

(** [IsAllowed(targetURL)]; the rule scan is [isAllowedPath]. *)
Definition IsAllowed (get : robotsGet) (r : checker) (targetURL : string)
    : bool * checker * list string :=
  match Parse targetURL with
  | None => (true, r, [])
  | Some parsedURL =>
      let '(rules, r, requested) := getRules get r (Scheme parsedURL) (Host parsedURL) in
      (isAllowedPath rules (Path parsedURL), r, requested)
  end.

(** [strings.Trim(s, "/")] *)
Fixpoint trimLeadingSlashes (s : string) : string :=
  match s with
  | String c s' => if Ascii.eqb c "/" then trimLeadingSlashes s' else s
  | EmptyString => EmptyString
  end.

Definition trimSlashes (s : string) : string :=
  string_of_list_ascii (rev (list_ascii_of_string
    (trimLeadingSlashes (string_of_list_ascii (rev (list_ascii_of_string
      (trimLeadingSlashes s))))))).

(** the base path [Fetch] hands to [SetBasePath] for the start URL's path;
    [None] when it makes no call *)
Definition fetchBasePath (path : string) : option string :=
  if negb (String.eqb path "") && negb (String.eqb path "/") then
    match splitChar "/" (trimSlashes path) with
    | p0 :: _ => if negb (String.eqb p0 "") then Some ("/" ++ p0) else None
    | [] => None
    end
  else None.

End RobotsChecker.

(** ** hreflang links and locale codes ([ExtractHreflang],
    [SelectPreferredLocaleURL], [NormalizeLocale])

    An [html.Node] is its type, its [Data], its attributes as (key, value)
    pairs (the namespace is never read) and its children in sibling order.
    A Go [map[string]string] is an association list without duplicate keys;
    the order of the list is the order a [range] loop visits the entries,
    which Go leaves unspecified. *)
Module Hreflang.
#[local] Set Warnings "-register-all".

Inductive NodeType :=
| ErrorNode | TextNode | DocumentNode | ElementNode | CommentNode | DoctypeNode | RawNode.

Inductive Node := mkNode {
  Type_ : NodeType;
  Data : string;
  Attr : list (string * string);
  Children : list Node
}.

Definition isElementNode (t : NodeType) : bool :=
  match t with ElementNode => true | _ => false end.

(** [m[k] = v] *)
Fixpoint mapSet (m : list (string * string)) (k v : string) : list (string * string) :=
  match m with
  | [] => [(k, v)]
  | (k', v') :: m' => if String.eqb k' k then (k, v) :: m' else (k', v') :: mapSet m' k v
  end.

(** [v, ok := m[k]] *)
Fixpoint mapLookup (m : list (string * string)) (k : string) : option string :=
  match m with
  | [] => None
  | (k', v) :: m' => if String.eqb k' k then Some v else mapLookup m' k
  end.

(** the [switch attr.Key] loop: the last [rel], [hreflang] and [href] win *)
Definition linkAttrs (attrs : list (string * string)) : string * string * string :=
  fold_left (fun '(rel, hreflang, href) '(key, val) =>
               if String.eqb key "rel" then (val, hreflang, href)
               else if String.eqb key "hreflang" then (rel, val, href)
               else if String.eqb key "href" then (rel, hreflang, val)
               else (rel, hreflang, href))
            attrs ("", "", "").

(** the closure [extract], threading [result] *)
Fixpoint extract (n : Node) (result : list (string * string)) : list (string * string) :=
  let result :=
    if isElementNode (Type_ n) && String.eqb (Data n) "link" then
      let '(rel, hreflang, href) := linkAttrs (Attr n) in
      if String.eqb rel "alternate" && negb (String.eqb hreflang "")
         && negb (String.eqb href "")
      then mapSet result (toLower hreflang) href
      else result
    else result in
  fold_left (fun result c => extract c result) (Children n) result.

(** [ExtractHreflang(doc)]; [None] is a nil document. *)
Definition ExtractHreflang (doc : option Node) : list (string * string) :=
  match doc with
  | None => []
  | Some d => extract d []
  end.

(** [SelectPreferredLocaleURL(hreflangMap, priority)] *)
Definition SelectPreferredLocaleURL (hreflangMap : list (string * string))
    (priority : list string) : string * string :=
  match hreflangMap with
  | [] => ("", "")
  | first :: _ =>
      let fix go (ps : list string) :=
        match ps with
        | [] => first
        | loc :: ps' =>
            match mapLookup hreflangMap loc with
            | Some u => (loc, u)
            | None =>
                match mapLookup hreflangMap (loc ++ "-" ++ loc) with
                | Some u => (loc ++ "-" ++ loc, u)
                | None => go ps'
                end
            end
        end in
      go priority
  end.

(** [NormalizeLocale(locale)] *)
Definition NormalizeLocale (locale : string) : string :=
  let locale := toLower locale in
  if String.eqb locale "ja-jp" then "ja"
  else if String.eqb locale "en-us" || String.eqb locale "en-gb" then "en"
  else if String.eqb locale "zh-hans" || String.eqb locale "zh-cn" then "zh-cn"
  else if String.eqb locale "zh-hant" || String.eqb locale "zh-tw" then "zh-tw"
  else locale.

End Hreflang.

(** ** Links of a page ([extractLinks]) *)
Module Links.
Import Url Hreflang.

Section ExtractLinks.
(** [base.ResolveReference(absoluteURL).String()], for the parsed base URL
    and the parsed link *)
Variable resolve : URL -> URL -> string.

(** the loop over [n.Attr] of an [a] element: an [href] whose value or the
    base URL fails to parse is skipped ([continue]), the first other one
    gives the link ([break]) *)
Fixpoint hrefLink (baseURL : string) (attrs : list (string * string)) : option string :=
  match attrs with
  | [] => None
  | (key, val) :: rest =>
      if String.eqb key "href" then
        match Parse val with
        | None => hrefLink baseURL rest
        | Some absoluteURL =>
            match Parse baseURL with
            | None => hrefLink baseURL rest
            | Some base => Some (resolve base absoluteURL)
            end
        end
      else hrefLink baseURL rest
  end.

(** the closure [extract], threading [links] *)
Fixpoint extract (baseURL : string) (n : Node) (links : list string) : list string :=
  let links :=
    if isElementNode (Type_ n) && String.eqb (Data n) "a" then
      match hrefLink baseURL (Attr n) with
      | Some link => (links ++ [link])%list
      | None => links
      end
    else links in
  fold_left (fun links c => extract baseURL c links) (Children n) links.

(** [f.extractLinks(n, baseURL)]; a nil slice is [[]]. *)
Definition extractLinks (n : Node) (baseURL : string) : list string :=
  extract baseURL n [].

End ExtractLinks.

End Links.

(** ** The [--locale-priority] flag of the server ([parseLocales],
    [splitByComma], [trimSpace] of [site/server.go]) *)
Module ServerFlags.

(** the index loop of [splitByComma]: [seg] is [s[start:i]] *)
Fixpoint splitLoop (s seg : string) : list string :=
  match s with
  | EmptyString => [seg]
  | String c s' =>
      if Ascii.eqb c "," then seg :: splitLoop s' ""
      else splitLoop s' (seg ++ String c "")
  end.

Definition splitByComma (s : string) : list string := splitLoop s "".

(** the server's own [trimSpace]: blanks and tabs only *)
Definition isBlank (c : ascii) : bool := Ascii.eqb c " " || Ascii.eqb c "009".

Fixpoint dropBlanks (l : list ascii) : list ascii :=
  match l with
  | c :: l' => if isBlank c then dropBlanks l' else l
  | [] => []
  end.

Definition trimSpace (s : string) : string :=
  string_of_list_ascii (rev (dropBlanks (rev (dropBlanks (list_ascii_of_string s))))).

(** [parseLocales(s)]; a nil slice is [[]]. *)
Definition parseLocales (s : string) : list string :=
  if String.eqb s "" then []
  else filter (fun t => negb (String.eqb t "")) (map trimSpace (splitByComma s)).

End ServerFlags.

(** ** Markdown sources in the server ([reconstructURL], [sanitizeFilename]) *)
Module ServerFiles.

(** [reconstructURL(baseURL, relPath)] *)
Definition reconstructURL (baseURL relPath : string) : string :=
  let relPath :=
    if Nat.ltb 5 (String.length relPath)
       && String.eqb (drop (String.length relPath - 5) relPath) ".html"
    then take (String.length relPath - 5) relPath else relPath in
  let scheme :=
    if Nat.ltb 7 (String.length baseURL) && String.eqb (take 7 baseURL) "http://"
    then "http" else "https" in
  scheme ++ "://" ++ relPath.

(** the runes [sanitizeFilename] keeps: [a-z], [A-Z], [0-9], [.], [_] and [-] *)
Definition keptRune (ch : N) : bool :=
  (N.leb 97 ch && N.leb ch 122) || (N.leb 65 ch && N.leb ch 90)
  || (N.leb 48 ch && N.leb ch 57) || N.eqb ch 46 || N.eqb ch 95 || N.eqb ch 45.

(** [sanitizeFilename(name)], on the runes [range] decodes from [name];
    [string(ch)] of a kept rune is its one byte. *)
Definition sanitizeFilename (name : list N) : string :=
  fold_left (fun result ch =>
               if keptRune ch then result ++ String (ascii_of_N ch) ""
               else result ++ "_") name "".

End ServerFiles.

(** ** Inputs of the locale round trip

    A host made of letters, digits, [-] and [.]; a path whose bytes
    [url.PathEscape]-style escaping leaves alone; [lacks c s] says that the
    byte [c] does not occur in [s]. *)
Module RoundTrip.
Import Url.

Definition hostByte (c : ascii) : bool := isAlnum c || charIn c "-.".

Definition pathByte (c : ascii) : bool := negb (shouldEscape c encodePath).

Definition lacks (c : ascii) (s : string) : bool :=
  forallb (fun d => negb (Ascii.eqb d c)) (list_ascii_of_string s).

Definition validScheme (s : string) : bool := String.eqb s "http" || String.eqb s "https".

Definition validHost (h : string) : bool :=
  negb (String.eqb h "") && forallb hostByte (list_ascii_of_string h).

Definition validCanonical (p : string) : bool :=
  hasPrefix p "/" && forallb pathByte (list_ascii_of_string p).

(** a byte of a host name that [parseHost] accepts and [URL.String]
    writes back (escaped when it is not ASCII), other than [:], [[] and
    []] *)
Definition hostNameByte (c : ascii) : bool :=
  Nat.leb 128 (nat_of_ascii c)
  || (negb (shouldEscape c encodeHost) && negb (charIn c ":[]")).

(** a byte that [url.Parse] keeps as it is in a path: no [?], [#], [%]
    and no control byte *)
Definition canonicalByte (c : ascii) : bool :=
  negb (charIn c "?#%") && negb (Nat.ltb (nat_of_ascii c) 32 || Nat.eqb (nat_of_ascii c) 127).

(** [cfg != nil && cfg.ParamName != ""] *)
Definition queryForm (cfg : option Locale.LocaleConfig) : bool :=
  match cfg with
  | Some c => negb (String.eqb (Locale.ParamName c) "")
  | None => false
  end.

End RoundTrip.

(** A small site used to run the crawler on concrete inputs: every page links
    back to the root and to the same docs page in two spellings, so the link
    graph is cyclic. *)
Module Examples.
Import Url Locale Fetcher.

Definition exHead (u : string) : option nat :=
  if String.eqb u "https://ex.com/en/docs" then Some 503
  else if String.eqb u "https://ex.com/en/guide" then Some 404
  else if String.eqb u "https://ex.com/ja/guide" then Some 404
  else Some 200.

Definition exEnv : env := {|
  robotsAllowed := fun _ => true;
  headStatus := exHead;
  rangeStatus := fun _ => None;
  getResponse := fun _ => Some (mkResponse 200 "text/html" (Some "<html></html>"));
  pageLinks := fun _ _ => Some ["https://ex.com/"; "https://ex.com/docs";
                                "https://ex.com/ja/docs"];
  mkdirAllOk := fun _ => true;
  writeFileOk := fun _ => true;
  removeAllResult := None
|}.

Definition exLocale : LocaleConfig := mkLocaleConfig ["en"; "ja"] "".

End Examples.

(** ** Observations used to state properties of the code above *)
Module Observations.
Import Url Robots Locale Naming Fetcher RobotsChecker Hreflang.

(** the nodes of a tree, in document order *)
Fixpoint nodesOf (n : Node) : list Node :=
  n :: flat_map nodesOf (Children n).

(** a robots.txt line that sets nothing: no key-value pair, a key other
    than [user-agent], [disallow] and [allow], or an empty [Disallow] *)
Definition inertLine (raw : string) : bool :=
  match lineKeyValue raw with
  | None => true
  | Some (key, value) =>
      negb (String.eqb key "user-agent" || String.eqb key "disallow"
            || String.eqb key "allow")
      || (String.eqb key "disallow" && String.eqb value "")
  end.

(** the cache key [getRules] computes for [scheme] and [host] *)
Definition cacheKeyOf (r : checker) (scheme host : string) : string :=
  if negb (String.eqb (basePath r) "") then (scheme ++ "://" ++ host) ++ basePath r
  else scheme ++ "://" ++ host.

(** the same checker with an empty cache *)
Definition freshChecker (r : checker) : checker := mkChecker [] (userAgent r) (basePath r).

(** every cached entry is what the checker would compute with an empty cache *)
Definition coherent (get : robotsGet) (r : checker) : Prop :=
  forall scheme host v, cacheLookup (cache r) (cacheKeyOf r scheme host) = Some v ->
    v = fst (fst (getRules get (freshChecker r) scheme host)).

(** the (locale, href) pair a node adds to the hreflang map, if any *)
Definition linkEntry (n : Node) : option (string * string) :=
  if isElementNode (Type_ n) && String.eqb (Data n) "link" then
    let '(rel, hreflang, href) := linkAttrs (Attr n) in
    if String.eqb rel "alternate" && negb (String.eqb hreflang "")
       && negb (String.eqb href "")
    then Some (toLower hreflang, href) else None
  else None.

(** the pairs of all qualifying [link] elements, in document order *)
Fixpoint hreflangLinks (n : Node) : list (string * string) :=
  match n with
  | mkNode t d a cs =>
      match linkEntry (mkNode t d a cs) with Some e => [e] | None => [] end
      ++ flat_map hreflangLinks cs
  end.

(** the value of the last pair with key [k] *)
Definition lastValue (k : string) (l : list (string * string)) : option string :=
  fold_left (fun acc '(k', v) => if String.eqb k' k then Some v else acc) l None.

(** a URL that passed the host, resource-type and robots.txt checks *)
Definition fetchable (E : env) (domain u : string) : Prop :=
  exists pu, Parse u = Some pu /\ Host pu = domain /\ isNonHTMLResource u = false
             /\ robotsAllowed E u = true.

(** the URL [crawlWithLocalePriority] builds for a priority locale from such a URL *)
Definition localeVariant (E : env) (domain : string) (cfg : LocaleConfig) (x : string)
    : Prop :=
  exists u pu l, fetchable E domain u /\ Parse u = Some pu /\ In l (localePriority cfg)
    /\ x = BuildLocaleURL (Scheme pu ++ "://" ++ domain) l
                          (snd (ExtractLocale (Some pu) (Some cfg))) (Some cfg).

(** a URL with another path *)
Definition withPath (u : URL) (p : string) : URL :=
  mkURL (Scheme u) (Opaque u) (User u) (Host u) p (RawPath u) (OmitHost u)
        (ForceQuery u) (RawQuery u) (Fragment u).

End Observations.

(** * Facts *)

Module StringFacts.
Lemma hasPrefix_app (s p : string) : hasPrefix (p ++ s) p = true.
Proof.
  induction p as [|c p IH]; simpl; [reflexivity|].
  rewrite Ascii.eqb_refl, IH; reflexivity.
Qed.

Lemma hasPrefix_spec (s p : string) :
  hasPrefix s p = true <-> exists r, s = p ++ r.
Proof.
  revert s; induction p as [|c p IH]; intros s; simpl.
  - split; [exists s; reflexivity|reflexivity].
  - destruct s as [|d s]; split.
    + discriminate.
    + intros [r Hr]; discriminate.
    + intros H; apply andb_prop in H as [H1 H2].
      apply Ascii.eqb_eq in H1; subst d.
      apply IH in H2 as [r ->]; exists r; reflexivity.
    + intros [r Hr]; injection Hr as -> Hs.
      rewrite Ascii.eqb_refl; simpl; apply IH; exists r; exact Hs.
Qed.

Lemma drop_app (p r : string) : drop (String.length p) (p ++ r) = r.
Proof. induction p; simpl; auto. Qed.


Lemma take_drop (n : nat) (s : string) : take n s ++ drop n s = s.
Proof. revert s; induction n; intros [|c s]; simpl; f_equal; auto. Qed.

Lemma drop_drop (a b : nat) (s : string) : drop a (drop b s) = drop (b + a) s.
Proof.
  revert s; induction b; intros [|c s]; simpl; auto.
  destruct a; reflexivity.
Qed.

Lemma length_app (a b : string) :
  String.length (a ++ b) = String.length a + String.length b.
Proof. induction a; simpl; auto. Qed.


Lemma take_app_exact (a b : string) : take (String.length a) (a ++ b) = a.
Proof. induction a; simpl; f_equal; auto. Qed.




Lemma app_assoc_str (a b c : string) : (a ++ b) ++ c = a ++ b ++ c.
Proof. induction a; simpl; f_equal; auto. Qed.

Lemma app_empty_str (a : string) : a ++ "" = a.
Proof. induction a; simpl; f_equal; auto. Qed.





End StringFacts.

Module RobotsFacts.
Import StringFacts Robots.

Lemma scanRules_spec (path : string) (verdict : bool) (rs : list string)
    (v : bool) (m : nat) :
  scanRules path verdict rs (v, m) =
  (if existsb (fun r => pathMatches path r && Nat.ltb m (String.length r)) rs
   then verdict else v,
   maxMatchLen path rs m).
Proof.
  unfold scanRules, maxMatchLen.
  revert v m; induction rs as [|r rs IH]; intros v m; simpl; [reflexivity|].
  destruct (pathMatches path r) eqn:Hp; simpl.
  - destruct (Nat.ltb m (String.length r)) eqn:Hl; simpl.
    + apply Nat.ltb_lt in Hl. rewrite IH.
      replace (Nat.max m (String.length r)) with (String.length r) by lia.
      destruct (existsb _ rs); reflexivity.
    + apply Nat.ltb_ge in Hl. rewrite IH.
      replace (Nat.max m (String.length r)) with m by lia; reflexivity.
  - apply IH.
Qed.

Lemma maxMatchLen_ge (path : string) (rs : list string) (m : nat) :
  m <= maxMatchLen path rs m.
Proof.
  unfold maxMatchLen; revert m; induction rs as [|r rs IH]; intros m; simpl; [lia|].
  destruct (pathMatches path r); [|apply IH].
  specialize (IH (Nat.max m (String.length r))); lia.
Qed.

Lemma maxMatchLen_in (path : string) (rs : list string) (m : nat) (r : string) :
  In r rs -> pathMatches path r = true ->
  String.length r <= maxMatchLen path rs m.
Proof.
  unfold maxMatchLen; revert m; induction rs as [|r' rs IH]; intros m Hin Hp;
    simpl in *; [contradiction|].
  destruct Hin as [->|Hin].
  - rewrite Hp. pose proof (maxMatchLen_ge path rs (Nat.max m (String.length r))).
    unfold maxMatchLen in H; lia.
  - destruct (pathMatches path r'); apply IH; assumption.
Qed.

Lemma maxMatchLen_le (path : string) (rs : list string) (m L : nat) :
  m <= L ->
  (forall r, In r rs -> pathMatches path r = true -> String.length r <= L) ->
  maxMatchLen path rs m <= L.
Proof.
  unfold maxMatchLen; revert m; induction rs as [|r rs IH]; intros m Hm H;
    simpl; [assumption|].
  destruct (pathMatches path r) eqn:Hp.
  - apply IH; [|auto with datatypes].
    specialize (H r (or_introl eq_refl) Hp); lia.
  - apply IH; auto with datatypes.
Qed.

Lemma maxMatchLen_perm (path : string) (rs rs' : list string) (m : nat) :
  Permutation rs rs' -> maxMatchLen path rs m = maxMatchLen path rs' m.
Proof.
  unfold maxMatchLen; intros HP; revert m.
  induction HP as [|x l l' _ IH|x y l|l l' l'' _ IH1 _ IH2]; intros m; simpl.
  - reflexivity.
  - apply IH.
  - f_equal. destruct (pathMatches path x), (pathMatches path y); lia.
  - rewrite IH1; apply IH2.
Qed.

(** [IsAllowed] disallows exactly when some matching disallow rule is
    strictly longer than every matching allow rule. *)
Lemma isAllowedPath_char (r : robotsRules) (urlPath : string) :
  isAllowedPath (Some r) urlPath =
  negb (existsb (fun d => pathMatches (effectivePath urlPath) d
         && Nat.ltb (maxMatchLen (effectivePath urlPath) (allowRules r) 0)
                    (String.length d))
        (disallowRules r)).
Proof.
  unfold isAllowedPath. rewrite !scanRules_spec. simpl.
  destruct (existsb _ (allowRules r)), (existsb _ (disallowRules r)); reflexivity.
Qed.

Lemma pathMatches_nonempty (path pattern : string) :
  pathMatches path pattern = true -> 0 < String.length pattern.
Proof. destruct pattern; simpl; [discriminate|lia]. Qed.

Lemma NoDup_map_app_disjoint {A B : Type} (f : A -> B) (l1 l2 : list A) (x y : A) :
  NoDup (map f (l1 ++ l2)) -> In x l1 -> In y l2 -> f x <> f y.
Proof.
  induction l1 as [|a l1 IH]; simpl; intros Hnd Hx Hy; [contradiction|].
  apply NoDup_cons_iff in Hnd as [Hnin Hnd].
  destruct Hx as [<-|Hx]; [|apply IH; assumption].
  intros E; apply Hnin; rewrite map_app; apply in_or_app; right.
  rewrite E; apply in_map; exact Hy.
Qed.

Lemma matching_In (path : string) (rs : list string) (r : string) :
  In r (matching path rs) <-> In r rs /\ pathMatches path r = true.
Proof. apply filter_In. Qed.

Lemma robots_docs_scenario :
  let rs := parseRobotsTxt UserAgent
              ["User-agent: *"; "Disallow: /docs/"; "Allow: /docs/public/"] in
  isAllowedPath (Some rs) "/docs/public/page.html" = true /\
  isAllowedPath (Some rs) "/docs/private/page.html" = false.
Proof. split; vm_compute; reflexivity. Qed.

End RobotsFacts.

Module RobotsSpec.
Import StringFacts Robots RobotsFacts.

(** C1: when the matching allow and disallow rules have pairwise different
    lengths, [IsAllowed] returns the verdict of the longest matching rule
    (allowed when nothing matches), the order of the rules is irrelevant,
    and the documented [/docs/] vs [/docs/public/] scenario holds. *)
Theorem IsAllowed_longest_match_wins (r : robotsRules) (urlPath : string)
  (Hdistinct : NoDup (map String.length
     (matching (effectivePath urlPath) (allowRules r ++ disallowRules r)))) :
  let p := effectivePath urlPath in
  (matching p (allowRules r ++ disallowRules r) = [] ->
     isAllowedPath (Some r) urlPath = true) /\
  (forall w, In w (matching p (allowRules r)) ->
     (forall w', In w' (matching p (allowRules r ++ disallowRules r)) ->
        String.length w' <= String.length w) ->
     isAllowedPath (Some r) urlPath = true) /\
  (forall w, In w (matching p (disallowRules r)) ->
     (forall w', In w' (matching p (allowRules r ++ disallowRules r)) ->
        String.length w' <= String.length w) ->
     isAllowedPath (Some r) urlPath = false) /\
  (forall allow' disallow',
     Permutation (allowRules r) allow' -> Permutation (disallowRules r) disallow' ->
     isAllowedPath (Some (mkRules disallow' allow')) urlPath
     = isAllowedPath (Some r) urlPath) /\
  (let rs := parseRobotsTxt UserAgent
               ["User-agent: *"; "Disallow: /docs/"; "Allow: /docs/public/"] in
   isAllowedPath (Some rs) "/docs/public/page.html" = true /\
   isAllowedPath (Some rs) "/docs/private/page.html" = false).
Proof.
  intros p; subst p; set (p := effectivePath urlPath) in *.
  unfold matching in Hdistinct; rewrite filter_app in Hdistinct.
  split; [|split; [|split; [|split]]].
  - intros Hnone. rewrite isAllowedPath_char; fold p.
    destruct (existsb _ (disallowRules r)) eqn:E; [|reflexivity].
    apply existsb_exists in E as [d [Hd Hm]].
    apply andb_prop in Hm as [Hm _].
    assert (Hin : In d (matching p (allowRules r ++ disallowRules r))).
    { apply matching_In; split; [apply in_or_app; right|]; assumption. }
    rewrite Hnone in Hin; contradiction.
  - intros w Hw Hmax. rewrite isAllowedPath_char; fold p.
    destruct (existsb _ (disallowRules r)) eqn:E; [|reflexivity].
    apply existsb_exists in E as [d [Hd Hm]].
    apply andb_prop in Hm as [Hm Hlt]; apply Nat.ltb_lt in Hlt.
    apply matching_In in Hw as Hw'; destruct Hw' as [Hwin Hwm].
    assert (Hdm : In d (matching p (disallowRules r))) by (apply matching_In; auto).
    assert (Hle : String.length d <= String.length w).
    { apply Hmax; unfold matching; rewrite filter_app; apply in_or_app; right; exact Hdm. }
    assert (Hne := NoDup_map_app_disjoint String.length _ _ w d Hdistinct Hw Hdm).
    pose proof (maxMatchLen_in p (allowRules r) 0 w Hwin Hwm).
    fold p in Hlt. lia.
  - intros w Hw Hmax. rewrite isAllowedPath_char; fold p.
    apply matching_In in Hw as Hw'; destruct Hw' as [Hwin Hwm].
    apply negb_false_iff, existsb_exists. exists w; split; [exact Hwin|].
    rewrite Hwm; simpl; apply Nat.ltb_lt.
    pose proof (pathMatches_nonempty _ _ Hwm).
    enough (maxMatchLen p (allowRules r) 0 <= String.length w - 1) by (fold p; lia).
    apply maxMatchLen_le; [lia|].
    intros a Ha Ham.
    assert (Hama : In a (matching p (allowRules r))) by (apply matching_In; auto).
    assert (Hle : String.length a <= String.length w).
    { apply Hmax; unfold matching; rewrite filter_app; apply in_or_app; left; exact Hama. }
    assert (Hne := NoDup_map_app_disjoint String.length _ _ a w Hdistinct Hama Hw).
    lia.
  - intros allow' disallow' Ha Hd. rewrite !isAllowedPath_char; simpl; fold p.
    rewrite <- (maxMatchLen_perm _ _ _ 0 Ha). f_equal.
    set (g := fun d => _).
    destruct (existsb g (disallowRules r)) eqn:E1, (existsb g disallow') eqn:E2;
      try reflexivity.
    + apply existsb_exists in E1 as [x [Hx Hgx]].
      assert (existsb g disallow' = true)
        by (apply existsb_exists; exists x; split; [apply (Permutation_in _ Hd)|]; auto).
      congruence.
    + apply existsb_exists in E2 as [x [Hx Hgx]].
      assert (existsb g (disallowRules r) = true)
        by (apply existsb_exists; exists x; split;
            [apply (Permutation_in _ (Permutation_sym Hd))|]; auto).
      congruence.
  - exact robots_docs_scenario.
Qed.

(** C4 (counterexample): with [Allow: /docs/] and [Disallow: /docs/],
    both of length 6 and both matching [/docs/x], the verdict is allowed,
    not disallowed. *)
Lemma IsAllowed_equal_length_tie_counterexample :
  let rs := parseRobotsTxt UserAgent
              ["User-agent: *"; "Allow: /docs/"; "Disallow: /docs/"] in
  In "/docs/" (matching "/docs/x" (allowRules rs)) /\
  In "/docs/" (matching "/docs/x" (disallowRules rs)) /\
  isAllowedPath (Some rs) "/docs/x" = true.
Proof. vm_compute. split; [left; reflexivity|split; [left; reflexivity|reflexivity]]. Qed.

(** C4 (amended): when an allow rule and a disallow rule of equal length
    both match and no longer rule matches, the allow list, scanned first,
    keeps the verdict: the disallow rule is not strictly longer than the
    recorded [matchedLen], so the path is allowed. *)
Theorem IsAllowed_equal_length_tie_allows (r : robotsRules) (urlPath : string)
    (a d : string) :
  let p := effectivePath urlPath in
  In a (matching p (allowRules r)) ->
  In d (matching p (disallowRules r)) ->
  String.length a = String.length d ->
  (forall w, In w (matching p (allowRules r ++ disallowRules r)) ->
     String.length w <= String.length d) ->
  isAllowedPath (Some r) urlPath = true.
Proof.
  intros p Ha Hd Hlen Hmax; subst p; set (p := effectivePath urlPath) in *.
  rewrite isAllowedPath_char; fold p.
  destruct (existsb _ (disallowRules r)) eqn:E; [|reflexivity].
  apply existsb_exists in E as [d' [Hd' Hm]].
  apply andb_prop in Hm as [Hm Hlt]; apply Nat.ltb_lt in Hlt.
  apply matching_In in Ha as [Hain Ham].
  assert (Hle : String.length d' <= String.length d).
  { apply Hmax; unfold matching; rewrite filter_app; apply in_or_app; right.
    apply matching_In; auto. }
  pose proof (maxMatchLen_in p (allowRules r) 0 a Hain Ham). lia.
Qed.

(** C10: [Disallow] and [Allow] lines (indeed all lines) before the first
    [User-agent] line leave the parse result unchanged. *)
Theorem parseRobotsTxt_ignores_rules_before_user_agent
    (userAgent : string) (pre rest : list string) :
  Forall (fun l => isUserAgentLine l = false) pre ->
  parseRobotsTxt userAgent (pre ++ rest) = parseRobotsTxt userAgent rest.
Proof.
  intros Hpre. unfold parseRobotsTxt. rewrite fold_left_app.
  enough (E : fold_left (parseLine userAgent) pre initState = initState)
    by (rewrite E; reflexivity).
  induction Hpre as [|l pre Hl _ IH]; [reflexivity|].
  simpl. enough (E : parseLine userAgent initState l = initState) by (rewrite E; exact IH).
  unfold isUserAgentLine in Hl; unfold parseLine.
  destruct (lineKeyValue l) as [[key value]|]; [|reflexivity].
  rewrite Hl.
  destruct (String.eqb key "disallow"); [destruct (String.eqb value ""); reflexivity|].
  destruct (String.eqb key "allow"); reflexivity.
Qed.

End RobotsSpec.

Module PathMatchFacts.
Import StringFacts Robots.





Lemma contains_nonempty (s sub : string) : sub <> "" -> contains s sub = true -> s <> "".
Proof.
  intros Hsub H ->. unfold contains in H; simpl in H.
  destruct sub; [contradiction|discriminate].
Qed.







End PathMatchFacts.

Module PathMatchSpec.
Import StringFacts Robots PathMatchFacts.






End PathMatchSpec.

Module UrlFacts.
Import Url RoundTrip StringFacts.

Lemma chars_app (a b : string) :
  list_ascii_of_string (a ++ b) = (list_ascii_of_string a ++ list_ascii_of_string b)%list.
Proof. induction a as [|c a IH]; simpl; [reflexivity|now rewrite IH]. Qed.

Lemma lacks_app (c : ascii) (a b : string) : lacks c (a ++ b) = lacks c a && lacks c b.
Proof. unfold lacks; rewrite chars_app, forallb_app; reflexivity. Qed.

Lemma ctl_app (a b : string) :
  stringContainsCTLByte (a ++ b) = stringContainsCTLByte a || stringContainsCTLByte b.
Proof. unfold stringContainsCTLByte; rewrite chars_app, existsb_app; reflexivity. Qed.

Lemma forallb_app_str (p : ascii -> bool) (a b : string) :
  forallb p (list_ascii_of_string (a ++ b))
  = forallb p (list_ascii_of_string a) && forallb p (list_ascii_of_string b).
Proof. rewrite chars_app, forallb_app; reflexivity. Qed.

Lemma forallb_impl_str (p q : ascii -> bool) (s : string) :
  (forall c, p c = true -> q c = true) ->
  forallb p (list_ascii_of_string s) = true -> forallb q (list_ascii_of_string s) = true.
Proof.
  intros Hpq; induction s as [|c s IH]; simpl; [reflexivity|].
  rewrite !Bool.andb_true_iff; intros [H1 H2]; split; auto.
Qed.

Ltac bytes c := destruct c as [[] [] [] [] [] [] [] []]; reflexivity.

Lemma hostByte_facts (c : ascii) :
  implb (hostByte c)
    (negb (shouldEscape c encodeHost) && negb (shouldEscape c encodePath)
     && negb (Ascii.eqb c "%") && negb (Ascii.eqb c "+")
     && negb (Ascii.eqb c "#") && negb (Ascii.eqb c "?") && negb (Ascii.eqb c "/")
     && negb (Ascii.eqb c "@") && negb (Ascii.eqb c ":") && negb (Ascii.eqb c "[")
     && negb (Ascii.eqb c "*")
     && negb (Nat.ltb (nat_of_ascii c) 32 || Nat.eqb (nat_of_ascii c) 127)) = true.
Proof. bytes c. Qed.

Lemma pathByte_facts (c : ascii) :
  implb (pathByte c)
    (negb (Ascii.eqb c "%") && negb (Ascii.eqb c "#") && negb (Ascii.eqb c "?")
     && negb (Ascii.eqb c "*")
     && negb (Nat.ltb (nat_of_ascii c) 32 || Nat.eqb (nat_of_ascii c) 127)) = true.
Proof. bytes c. Qed.

Lemma unescape_hostByte (c : ascii) (r : string) :
  hostByte c = true ->
  unescape (String c r) encodeHost = option_map (String c) (unescape r encodeHost).
Proof. destruct c as [[] [] [] [] [] [] [] []]; try discriminate; reflexivity. Qed.

Lemma unescape_pathByte (c : ascii) (r : string) :
  pathByte c = true ->
  unescape (String c r) encodePath = option_map (String c) (unescape r encodePath).
Proof. destruct c as [[] [] [] [] [] [] [] []]; try discriminate; reflexivity. Qed.

Lemma unescape_queryEscape_char (c : ascii) (t : string) :
  unescape (escape (String c "") encodeQueryComponent ++ t) encodeQueryComponent
  = option_map (String c) (unescape t encodeQueryComponent).
Proof. destruct c as [[] [] [] [] [] [] [] []]; reflexivity. Qed.

Lemma queryEscape_char_facts (c : ascii) :
  let e := escape (String c "") encodeQueryComponent in
  lacks "&" e && lacks ";" e && lacks "=" e && lacks "?" e && lacks "#" e
  && negb (stringContainsCTLByte e) = true.
Proof. destruct c as [[] [] [] [] [] [] [] []]; reflexivity. Qed.

Lemma eqb_ascii_sym (a b : ascii) : Ascii.eqb a b = Ascii.eqb b a.
Proof. destruct (Ascii.eqb_spec a b), (Ascii.eqb_spec b a); congruence. Qed.

Lemma lacks_cons (c d : ascii) (s : string) :
  lacks c (String d s) = negb (Ascii.eqb c d) && lacks c s.
Proof. unfold lacks; simpl; rewrite eqb_ascii_sym; reflexivity. Qed.

Lemma index_lacks (c : ascii) (s : string) :
  lacks c s = true -> index s (String c "") = None.
Proof.
  induction s as [|d s IH]; [reflexivity|].
  rewrite lacks_cons, Bool.andb_true_iff, Bool.negb_true_iff; intros [Hd Hs].
  simpl; rewrite Hd; simpl; rewrite (IH Hs); reflexivity.
Qed.

Lemma index_first (c : ascii) (a b : string) :
  lacks c a = true -> index (a ++ String c b) (String c "") = Some (String.length a).
Proof.
  induction a as [|d a IH].
  - intros _; simpl; rewrite Ascii.eqb_refl; reflexivity.
  - rewrite lacks_cons, Bool.andb_true_iff, Bool.negb_true_iff; intros [Hd Hs].
    simpl; rewrite Hd; simpl; rewrite (IH Hs); reflexivity.
Qed.

Lemma cut_lacks (c : ascii) (s : string) :
  lacks c s = true -> cut s (String c "") = (s, "", false).
Proof. intros H; unfold cut; rewrite (index_lacks c s H); reflexivity. Qed.

Lemma cut_first (c : ascii) (a b : string) :
  lacks c a = true -> cut (a ++ String c b) (String c "") = (a, b, true).
Proof.
  intros H; unfold cut; rewrite (index_first c a b H).
  rewrite take_app_exact, <- drop_drop, drop_app; reflexivity.
Qed.

Lemma lastIndexChar_lacks (c : ascii) (s : string) :
  lacks c s = true -> lastIndexChar s c = None.
Proof.
  induction s as [|d s IH]; [reflexivity|].
  rewrite lacks_cons, Bool.andb_true_iff, Bool.negb_true_iff; intros [Hd Hs].
  simpl; rewrite (IH Hs), Hd; reflexivity.
Qed.

Lemma contains_lacks (c : ascii) (s : string) :
  lacks c s = true -> contains s (String c "") = false.
Proof. intros H; unfold contains; rewrite (index_lacks c s H); reflexivity. Qed.

Lemma splitChar_lacks (c : ascii) (s : string) :
  lacks c s = true -> splitChar c s = [s].
Proof.
  induction s as [|d s IH]; [reflexivity|].
  rewrite lacks_cons, Bool.andb_true_iff, Bool.negb_true_iff; intros [Hd Hs].
  simpl; rewrite (IH Hs), Hd; reflexivity.
Qed.

Lemma hasPrefix_single (c : ascii) (s : string) :
  hasPrefix s (String c "") = true -> lacks c s = false.
Proof.
  destruct s as [|d s]; simpl; [discriminate|].
  rewrite Bool.andb_true_r; intros H; apply Ascii.eqb_eq in H; subst d.
  rewrite lacks_cons, Ascii.eqb_refl; reflexivity.
Qed.

Lemma hasSuffix_single (c : ascii) (s : string) :
  hasSuffix s (String c "") = true -> lacks c s = false.
Proof.
  unfold hasSuffix; rewrite Bool.andb_true_iff; intros [_ H].
  apply String.eqb_eq in H.
  rewrite <- (take_drop (String.length s - String.length (String c "")) s), H.
  rewrite lacks_app, lacks_cons, Ascii.eqb_refl, Bool.andb_false_r; reflexivity.
Qed.

Lemma hasSuffix_app_ne (c : ascii) (a b : string) :
  b <> "" -> hasSuffix (a ++ b) (String c "") = hasSuffix b (String c "").
Proof.
  intros Hb; destruct b as [|d b]; [congruence|].
  unfold hasSuffix; rewrite length_app; cbn [String.length].
  replace (String.length a + S (String.length b) - 1)
    with (String.length a + (S (String.length b) - 1)) by lia.
  rewrite <- drop_drop, drop_app.
  replace (Nat.leb 1 (String.length a + S (String.length b))) with true
    by (symmetry; apply Nat.leb_le; lia).
  replace (Nat.leb 1 (S (String.length b))) with true
    by (symmetry; apply Nat.leb_le; lia).
  reflexivity.
Qed.

Lemma unescape_host (h : string) :
  forallb hostByte (list_ascii_of_string h) = true -> unescape h encodeHost = Some h.
Proof.
  induction h as [|c h IH]; [reflexivity|].
  intros H; simpl in H; apply andb_prop in H as [Hc Hh].
  rewrite (unescape_hostByte c h Hc), (IH Hh); reflexivity.
Qed.

Lemma unescape_path (p : string) :
  forallb pathByte (list_ascii_of_string p) = true -> unescape p encodePath = Some p.
Proof.
  induction p as [|c p IH]; [reflexivity|].
  intros H; simpl in H; apply andb_prop in H as [Hc Hp].
  rewrite (unescape_pathByte c p Hc), (IH Hp); reflexivity.
Qed.

Lemma escape_host (h : string) :
  forallb hostByte (list_ascii_of_string h) = true -> escape h encodeHost = h.
Proof.
  induction h as [|c h IH]; [reflexivity|].
  simpl; rewrite Bool.andb_true_iff; intros [Hc Hh].
  pose proof (hostByte_facts c) as F; rewrite Hc in F; simpl in F.
  destruct (shouldEscape c encodeHost); [discriminate|]; rewrite (IH Hh); reflexivity.
Qed.

Lemma escape_path (p : string) :
  forallb pathByte (list_ascii_of_string p) = true -> escape p encodePath = p.
Proof.
  induction p as [|c p IH]; [reflexivity|].
  simpl; rewrite Bool.andb_true_iff; intros [Hc Hp].
  unfold pathByte in Hc; apply Bool.negb_true_iff in Hc; rewrite Hc, (IH Hp); reflexivity.
Qed.

Lemma escape_cons (c : ascii) (s : string) (m : encoding) :
  escape (String c s) m = escape (String c "") m ++ escape s m.
Proof. simpl; destruct (shouldEscape c m); [destruct (Ascii.eqb c " " && enc_eqb m encodeQueryComponent)|]; reflexivity. Qed.

Lemma QueryUnescape_QueryEscape (s : string) : QueryUnescape (QueryEscape s) = Some s.
Proof.
  unfold QueryUnescape, QueryEscape; induction s as [|c s IH]; [reflexivity|].
  rewrite escape_cons, unescape_queryEscape_char, IH; reflexivity.
Qed.

Lemma queryEscape_facts (s : string) :
  lacks "&" (QueryEscape s) = true /\ lacks ";" (QueryEscape s) = true
  /\ lacks "=" (QueryEscape s) = true /\ lacks "?" (QueryEscape s) = true
  /\ lacks "#" (QueryEscape s) = true /\ stringContainsCTLByte (QueryEscape s) = false.
Proof.
  unfold QueryEscape; induction s as [|c s IH]; [repeat split|].
  pose proof (queryEscape_char_facts c) as F; cbv zeta in F.
  repeat rewrite Bool.andb_true_iff in F.
  destruct F as [[[[[F1 F2] F3] F4] F5] F6]; apply Bool.negb_true_iff in F6.
  destruct IH as (H1 & H2 & H3 & H4 & H5 & H6).
  rewrite escape_cons, !lacks_app, ctl_app, F1, F2, F3, F4, F5, F6, H1, H2, H3, H4, H5, H6.
  repeat split.
Qed.

Lemma ctl_free (s : string) :
  forallb (fun c => negb (Nat.ltb (nat_of_ascii c) 32 || Nat.eqb (nat_of_ascii c) 127))
          (list_ascii_of_string s) = true ->
  stringContainsCTLByte s = false.
Proof.
  unfold stringContainsCTLByte; induction s as [|c s IH]; [reflexivity|].
  simpl; rewrite Bool.andb_true_iff, Bool.negb_true_iff; intros [H1 H2].
  rewrite H1, (IH H2); reflexivity.
Qed.

Ltac from_facts F :=
  cbn [implb] in F; repeat rewrite Bool.andb_true_iff in F; tauto.

Lemma host_facts (h : string) :
  forallb hostByte (list_ascii_of_string h) = true ->
  lacks "#" h = true /\ lacks "?" h = true /\ lacks "/" h = true /\ lacks "@" h = true
  /\ lacks ":" h = true /\ lacks "[" h = true /\ stringContainsCTLByte h = false.
Proof.
  intros H; unfold lacks; repeat split;
    [..|apply ctl_free]; revert H; apply forallb_impl_str; intros c Hc;
    pose proof (hostByte_facts c) as F; rewrite Hc in F; from_facts F.
Qed.

Lemma path_facts (p : string) :
  forallb pathByte (list_ascii_of_string p) = true ->
  lacks "#" p = true /\ lacks "?" p = true /\ lacks "*" p = true
  /\ stringContainsCTLByte p = false.
Proof.
  intros H; unfold lacks; repeat split;
    [..|apply ctl_free]; revert H; apply forallb_impl_str; intros c Hc;
    pose proof (pathByte_facts c) as F; rewrite Hc in F; from_facts F.
Qed.

Lemma scheme_facts (scheme X : string) :
  validScheme scheme = true ->
  getScheme (scheme ++ "://" ++ X) = Some (scheme, "//" ++ X)
  /\ String.eqb (scheme ++ "://" ++ X) "*" = false
  /\ toLower scheme = scheme /\ String.eqb scheme "" = false
  /\ lacks "#" scheme = true /\ stringContainsCTLByte scheme = false.
Proof.
  unfold validScheme; rewrite Bool.orb_true_iff, !String.eqb_eq.
  intros [-> | ->]; repeat split.
Qed.

Lemma parse_simple (scheme host path E : string) :
  validScheme scheme = true -> validHost host = true ->
  forallb pathByte (list_ascii_of_string path) = true ->
  (path = "" \/ hasPrefix path "/" = true) ->
  lacks "?" E = true -> stringContainsCTLByte E = false ->
  parse (scheme ++ "://" ++ host ++ path ++ (if String.eqb E "" then "" else "?" ++ E))
  = Some (mkURL scheme "" None host path "" false false E "").
Proof.
  intros Hs Hh HpB Hp HE HEc.
  unfold validHost in Hh; apply andb_prop in Hh as [Hh0 HhB].
  apply Bool.negb_true_iff in Hh0.
  destruct (host_facts host HhB) as (Hh1 & Hh2 & Hh3 & Hh4 & Hh5 & Hh6 & Hh7).
  destruct (path_facts path HpB) as (Hp1 & Hp2 & Hp3 & Hp4).
  set (Q := if String.eqb E "" then "" else "?" ++ E).
  destruct (scheme_facts scheme (host ++ path ++ Q) Hs) as (Hs1 & Hs2 & Hs3 & Hs4 & Hs5 & Hs6).
  assert (HQc : stringContainsCTLByte Q = false)
    by (unfold Q; destruct (String.eqb E ""); [reflexivity|exact HEc]).
  unfold parse.
  rewrite !ctl_app, Hs6, Hh7, Hp4, HQc, Hs2, Hs1.
  replace (stringContainsCTLByte "://") with false by reflexivity.
  cbn [orb]; rewrite Hs3.
  assert (Hcut : hasSuffix ("//" ++ host ++ path ++ Q) "?" = false
                 /\ cut ("//" ++ host ++ path ++ Q) "?"
                    = ("//" ++ host ++ path, E, negb (String.eqb E ""))).
  { assert (Hpre : lacks "?" ("//" ++ host ++ path) = true)
      by (rewrite !lacks_app, Hh2, Hp2; reflexivity).
    unfold Q; destruct (String.eqb_spec E "") as [-> | HE0].
    - rewrite app_empty_str; split.
      + destruct (hasSuffix _ "?") eqn:Hx; [|reflexivity].
        apply hasSuffix_single in Hx; rewrite Hx in Hpre; discriminate.
      + exact (cut_lacks "?" _ Hpre).
    - split.
      + replace ("//" ++ host ++ path ++ "?" ++ E)
          with (("//" ++ host ++ path ++ "?") ++ E) by (rewrite !app_assoc_str; reflexivity).
        rewrite hasSuffix_app_ne by exact HE0.
        destruct (hasSuffix E "?") eqn:Hx; [|reflexivity].
        apply hasSuffix_single in Hx; rewrite Hx in HE; discriminate.
      + replace ("//" ++ host ++ path ++ "?" ++ E)
          with (("//" ++ host ++ path) ++ String "?" E) by (rewrite !app_assoc_str; reflexivity).
        exact (cut_first "?" _ E Hpre). }
  destruct Hcut as [Hc1 Hc2]; rewrite Hc1, Hc2; cbn [andb]; cbv beta iota zeta.
  replace (hasPrefix ("//" ++ host ++ path) "/") with true by reflexivity.
  replace (hasPrefix ("//" ++ host ++ path) "//") with true by reflexivity.
  replace (drop 2 ("//" ++ host ++ path)) with (host ++ path) by reflexivity.
  rewrite Hs4; cbn [negb andb orb]; cbv beta iota zeta.
  assert (Hidx : match index (host ++ path) "/" with
                 | Some i => (take i (host ++ path), drop i (host ++ path))
                 | None => (host ++ path, "") end = (host, path)).
  { destruct Hp as [-> | Hp].
    - rewrite app_empty_str, (index_lacks "/" host Hh3); reflexivity.
    - apply hasPrefix_spec in Hp as [r ->]; change ("/" ++ r) with (String "/" r).
      rewrite (index_first "/" host r Hh3), take_app_exact, drop_app; reflexivity. }
  rewrite Hidx; cbv beta iota zeta.
  assert (Hauth : parseAuthority host = Some (None, host)).
  { unfold parseAuthority, parseHost.
    rewrite (lastIndexChar_lacks "@" host Hh4).
    destruct (hasPrefix host "[") eqn:Hb.
    - apply hasPrefix_single in Hb; congruence.
    - rewrite (lastIndexChar_lacks ":" host Hh5), (unescape_host host HhB); reflexivity. }
  rewrite Hauth; cbv beta iota zeta.
  unfold setPath; rewrite (unescape_path path HpB), (escape_path path HpB), String.eqb_refl.
  reflexivity.
Qed.

Lemma Parse_simple (scheme host path E : string) :
  validScheme scheme = true -> validHost host = true ->
  forallb pathByte (list_ascii_of_string path) = true ->
  (path = "" \/ hasPrefix path "/" = true) ->
  lacks "?" E = true -> lacks "#" E = true -> stringContainsCTLByte E = false ->
  Parse (scheme ++ "://" ++ host ++ path ++ (if String.eqb E "" then "" else "?" ++ E))
  = Some (mkURL scheme "" None host path "" false false E "").
Proof.
  intros Hs Hh HpB Hp HE HE' HEc.
  assert (Hlack : lacks "#" (scheme ++ "://" ++ host ++ path
                             ++ (if String.eqb E "" then "" else "?" ++ E)) = true).
  { pose proof Hh as Hh'; unfold validHost in Hh'; apply andb_prop in Hh' as [_ HhB].
    destruct (host_facts host HhB) as (Hh1 & _).
    destruct (path_facts path HpB) as (Hp1 & _).
    destruct (scheme_facts scheme "" Hs) as (_ & _ & _ & _ & Hs5 & _).
    rewrite !lacks_app, Hs5, Hh1, Hp1.
    destruct (String.eqb E ""); [reflexivity|]; exact HE'. }
  unfold Parse; rewrite (cut_lacks "#" _ Hlack); cbv beta iota zeta.
  rewrite (parse_simple scheme host path E Hs Hh HpB Hp HE HEc); reflexivity.
Qed.

Lemma toString_simple (scheme host path E : string) :
  validScheme scheme = true -> validHost host = true ->
  forallb pathByte (list_ascii_of_string path) = true ->
  (path = "" \/ hasPrefix path "/" = true) ->
  toString (mkURL scheme "" None host path "" false false E "")
  = scheme ++ "://" ++ host ++ path ++ (if String.eqb E "" then "" else "?" ++ E).
Proof.
  intros Hs Hh HpB Hp.
  unfold validHost in Hh; apply andb_prop in Hh as [Hh0 HhB].
  apply Bool.negb_true_iff in Hh0.
  destruct (path_facts path HpB) as (_ & _ & Hp3 & _).
  assert (Hstar : String.eqb path "*" = false).
  { destruct (String.eqb_spec path "*") as [-> | ]; [discriminate|reflexivity]. }
  assert (Hslash : (if negb (String.eqb path "") && negb (hasPrefix path "/")
                      && true then "/" else "") = "").
  { destruct Hp as [-> | ->]; [reflexivity|].
    destruct (negb (String.eqb path "")); reflexivity. }
  unfold toString, EscapedPath; cbn [Scheme Opaque User Host Path RawPath OmitHost
                                     ForceQuery RawQuery Fragment].
  rewrite Hh0, Hstar, (escape_host host HhB), (escape_path path HpB).
  cbv zeta; cbn [String.eqb negb andb].
  rewrite Hslash.
  unfold validScheme in Hs; rewrite Bool.orb_true_iff, !String.eqb_eq in Hs.
  destruct Hs as [-> | ->]; destruct (String.eqb E "");
    cbn [String.eqb negb orb andb append]; rewrite ?app_assoc_str, ?app_empty_str;
    reflexivity.
Qed.

Lemma ParseQuery_single (k v : string) :
  Get (ParseQuery (QueryEscape k ++ "=" ++ QueryEscape v)) k = v.
Proof.
  destruct (queryEscape_facts k) as (Hk1 & Hk2 & Hk3 & _).
  destruct (queryEscape_facts v) as (Hv1 & Hv2 & _).
  assert (Hne : String.eqb (QueryEscape k ++ "=" ++ QueryEscape v) "" = false).
  { destruct (QueryEscape k); reflexivity. }
  assert (Hamp : lacks "&" (QueryEscape k ++ "=" ++ QueryEscape v) = true)
    by (rewrite !lacks_app, Hk1, Hv1; reflexivity).
  assert (Hsemi : lacks ";" (QueryEscape k ++ "=" ++ QueryEscape v) = true)
    by (rewrite !lacks_app, Hk2, Hv2; reflexivity).
  unfold ParseQuery; rewrite Hne, (splitChar_lacks "&" _ Hamp); cbn [parseQueryPieces].
  rewrite (contains_lacks ";" _ Hsemi), Hne; cbn [orb].
  change ("=" ++ QueryEscape v) with (String "=" (QueryEscape v)).
  rewrite (cut_first "=" _ _ Hk3); cbv beta iota zeta.
  rewrite !QueryUnescape_QueryEscape; cbn [parseQueryPieces valuesAdd].
  unfold Get; cbn [valuesLookup]; rewrite String.eqb_refl; reflexivity.
Qed.

Lemma Encode_single (k v : string) :
  Encode (SetV [] k v) = QueryEscape k ++ "=" ++ QueryEscape v.
Proof. reflexivity. Qed.

End UrlFacts.

Module UrlPortFacts.
Import Url RoundTrip StringFacts UrlFacts.

Ltac bytes c := destruct c as [[] [] [] [] [] [] [] []]; reflexivity.
Ltac bytes_h c := destruct c as [[] [] [] [] [] [] [] []]; try discriminate; reflexivity.

Definition ctlByte (c : ascii) : bool :=
  Nat.ltb (nat_of_ascii c) 32 || Nat.eqb (nat_of_ascii c) 127.

Lemma hostNameByte_facts (c : ascii) :
  implb (hostNameByte c)
    (negb (Ascii.eqb c "/") && negb (Ascii.eqb c "?") && negb (Ascii.eqb c "#")
     && negb (Ascii.eqb c "@") && negb (Ascii.eqb c ":") && negb (Ascii.eqb c "[")
     && negb (ctlByte c)) = true.
Proof. bytes c. Qed.

Lemma escHost_facts (c : ascii) :
  implb (hostNameByte c)
    (let e := escape (String c "") encodeHost in
     lacks "/" e && lacks "?" e && lacks "#" e && lacks "@" e && lacks ":" e
     && lacks "[" e && negb (stringContainsCTLByte e)) = true.
Proof. bytes c. Qed.

Lemma unescape_hostName (c : ascii) (t : string) :
  hostNameByte c = true ->
  unescape (String c t) encodeHost = option_map (String c) (unescape t encodeHost).
Proof. bytes_h c. Qed.

Lemma unescape_escHost (c : ascii) (t : string) :
  hostNameByte c = true ->
  unescape (escape (String c "") encodeHost ++ t) encodeHost
  = option_map (String c) (unescape t encodeHost).
Proof. bytes_h c. Qed.

Definition portByte (c : ascii) : bool := Ascii.eqb c ":" || inRange 48 57 c.

Lemma portByte_facts (c : ascii) :
  implb (portByte c)
    (negb (Ascii.eqb c "/") && negb (Ascii.eqb c "?") && negb (Ascii.eqb c "#")
     && negb (Ascii.eqb c "@") && negb (Ascii.eqb c "[") && negb (ctlByte c)
     && negb (shouldEscape c encodeHost)) = true.
Proof. bytes c. Qed.

Lemma unescape_port (c : ascii) (t : string) :
  portByte c = true ->
  unescape (String c t) encodeHost = option_map (String c) (unescape t encodeHost).
Proof. bytes_h c. Qed.

Lemma digit_not_colon (c : ascii) : implb (inRange 48 57 c) (negb (Ascii.eqb c ":")) = true.
Proof. bytes c. Qed.

Lemma canonicalByte_facts (c : ascii) :
  implb (canonicalByte c)
    (negb (Ascii.eqb c "?") && negb (Ascii.eqb c "#") && negb (ctlByte c)) = true.
Proof. bytes c. Qed.

Lemma unescape_canonical (c : ascii) (t : string) :
  canonicalByte c = true ->
  unescape (String c t) encodePath = option_map (String c) (unescape t encodePath).
Proof. bytes_h c. Qed.

Lemma pathByte_canonical (c : ascii) : implb (pathByte c) (canonicalByte c) = true.
Proof. bytes c. Qed.

Lemma unescape_escPath (c : ascii) (t : string) :
  unescape (escape (String c "") encodePath ++ t) encodePath
  = option_map (String c) (unescape t encodePath).
Proof. bytes c. Qed.

Lemma escPath_facts (c : ascii) :
  let e := escape (String c "") encodePath in
  lacks "?" e && lacks "#" e && negb (stringContainsCTLByte e) = true.
Proof. bytes c. Qed.

Lemma escPath_slash (s : string) :
  escape (String "/" s) encodePath = String "/" (escape s encodePath).
Proof. reflexivity. Qed.

(** lifting per-byte facts to strings *)
Lemma forallb_cons_str (p : ascii -> bool) (c : ascii) (s : string) :
  forallb p (list_ascii_of_string (String c s)) = p c && forallb p (list_ascii_of_string s).
Proof. reflexivity. Qed.

Lemma ctl_cons (c : ascii) (s : string) :
  stringContainsCTLByte (String c s) = ctlByte c || stringContainsCTLByte s.
Proof. reflexivity. Qed.

Lemma lacks_of (p : ascii -> bool) (d : ascii) (s : string) :
  (forall c, p c = true -> Ascii.eqb c d = false) ->
  forallb p (list_ascii_of_string s) = true -> lacks d s = true.
Proof.
  intros H; induction s as [|c s IH]; [reflexivity|].
  rewrite forallb_cons_str, lacks_cons, Bool.andb_true_iff; intros [Hc Hs].
  rewrite eqb_ascii_sym, (H c Hc), (IH Hs); reflexivity.
Qed.

Lemma ctl_of (p : ascii -> bool) (s : string) :
  (forall c, p c = true -> ctlByte c = false) ->
  forallb p (list_ascii_of_string s) = true -> stringContainsCTLByte s = false.
Proof.
  intros H; induction s as [|c s IH]; [reflexivity|].
  rewrite forallb_cons_str, ctl_cons, Bool.andb_true_iff; intros [Hc Hs].
  rewrite (H c Hc), (IH Hs); reflexivity.
Qed.

Ltac byte_fact L c Hc :=
  pose proof (L c) as F; rewrite Hc in F; cbn [implb] in F;
  repeat rewrite Bool.andb_true_iff in F; repeat rewrite Bool.negb_true_iff in F; tauto.

Lemma host_name_facts (h : string) :
  forallb hostNameByte (list_ascii_of_string h) = true ->
  lacks "/" h = true /\ lacks "?" h = true /\ lacks "#" h = true /\ lacks "@" h = true
  /\ lacks ":" h = true /\ lacks "[" h = true /\ stringContainsCTLByte h = false.
Proof.
  intros H; repeat split; [..|revert H; apply ctl_of]; try (revert H; apply lacks_of);
    intros c Hc; byte_fact hostNameByte_facts c Hc.
Qed.

Lemma validOptionalPort_bytes (port : string) :
  validOptionalPort port = true -> forallb portByte (list_ascii_of_string port) = true.
Proof.
  destruct port as [|c rest]; [reflexivity|].
  cbn [validOptionalPort]; rewrite Bool.andb_true_iff; intros [Hc Hr].
  rewrite forallb_cons_str; unfold portByte at 1; rewrite Hc; cbn [orb andb].
  revert Hr; apply forallb_impl_str; intros d Hd; unfold portByte; rewrite Hd, orb_true_r;
    reflexivity.
Qed.

Lemma port_facts (port : string) :
  validOptionalPort port = true ->
  lacks "/" port = true /\ lacks "?" port = true /\ lacks "#" port = true
  /\ lacks "@" port = true /\ lacks "[" port = true /\ stringContainsCTLByte port = false
  /\ unescape port encodeHost = Some port /\ escape port encodeHost = port.
Proof.
  intros Hv; pose proof (validOptionalPort_bytes port Hv) as H.
  repeat split; [..|revert H; apply ctl_of| |];
    try (revert H; apply lacks_of; intros c Hc; byte_fact portByte_facts c Hc).
  - intros c Hc; byte_fact portByte_facts c Hc.
  - clear Hv; induction port as [|c p IH]; [reflexivity|].
    rewrite forallb_cons_str, Bool.andb_true_iff in H; destruct H as [Hc Hp].
    rewrite (unescape_port c p Hc), (IH Hp); reflexivity.
  - clear Hv; induction port as [|c p IH]; [reflexivity|].
    rewrite forallb_cons_str, Bool.andb_true_iff in H; destruct H as [Hc Hp].
    pose proof (portByte_facts c) as F; rewrite Hc in F; cbn [implb] in F.
    repeat rewrite Bool.andb_true_iff in F; destruct F as [_ F].
    apply Bool.negb_true_iff in F.
    simpl; rewrite F, (IH Hp); reflexivity.
Qed.

Lemma lastIndexChar_last (c : ascii) (a b : string) :
  lacks c b = true -> lastIndexChar (a ++ String c b) c = Some (String.length a).
Proof.
  intros Hb; induction a as [|d a IH].
  - simpl; rewrite (lastIndexChar_lacks c b Hb), Ascii.eqb_refl; reflexivity.
  - simpl; rewrite IH; reflexivity.
Qed.

Lemma parseHost_port (a port h : string) :
  lacks ":" a = true -> lacks "[" a = true -> lacks "[" port = true ->
  validOptionalPort port = true -> unescape (a ++ port) encodeHost = Some h ->
  parseHost (a ++ port) = Some h.
Proof.
  intros Ha1 Ha2 Hp1 Hv Hu. unfold parseHost.
  destruct (hasPrefix (a ++ port) "[") eqn:Hb.
  { apply hasPrefix_single in Hb; rewrite lacks_app, Ha2, Hp1 in Hb; discriminate. }
  destruct port as [|c rest].
  - rewrite app_empty_str in Hu |- *; rewrite (lastIndexChar_lacks ":" a Ha1); exact Hu.
  - cbn [validOptionalPort] in Hv; apply andb_prop in Hv as [Hc Hr].
    apply Ascii.eqb_eq in Hc; subst c.
    assert (Hrest : lacks ":" rest = true).
    { revert Hr; apply lacks_of; intros d Hd.
      pose proof (digit_not_colon d) as F; rewrite Hd in F; cbn [implb] in F.
      apply Bool.negb_true_iff in F; exact F. }
    rewrite (lastIndexChar_last ":" a rest Hrest), drop_app.
    cbn [validOptionalPort]; rewrite Ascii.eqb_refl, Hr; exact Hu.
Qed.

(** the host of the base, [name ++ port], read by [parseHost] as it is and
    after [URL.String] has escaped it *)
Lemma host_parse (name port : string) :
  forallb hostNameByte (list_ascii_of_string name) = true ->
  validOptionalPort port = true ->
  parseHost (name ++ port) = Some (name ++ port)
  /\ parseHost (escape (name ++ port) encodeHost) = Some (name ++ port)
  /\ escape (name ++ port) encodeHost = escape name encodeHost ++ port.
Proof.
  intros Hn Hv.
  destruct (host_name_facts name Hn) as (_ & _ & _ & _ & Hn5 & Hn6 & _).
  destruct (port_facts port Hv) as (_ & _ & _ & _ & Hp5 & _ & Hpu & Hpe).
  assert (Hesc : escape (name ++ port) encodeHost = escape name encodeHost ++ port).
  { clear Hn5 Hn6; induction name as [|c n IH]; [exact Hpe|].
    rewrite forallb_cons_str, Bool.andb_true_iff in Hn; destruct Hn as [_ Hn].
    cbn [append]; rewrite escape_cons, (escape_cons c n), IH by exact Hn.
    rewrite app_assoc_str; reflexivity. }
  assert (He : lacks ":" (escape name encodeHost) = true
               /\ lacks "[" (escape name encodeHost) = true
               /\ unescape (escape name encodeHost ++ port) encodeHost = Some (name ++ port)).
  { clear Hn5 Hn6 Hesc; induction name as [|c n IH]; [repeat split; exact Hpu|].
    rewrite forallb_cons_str, Bool.andb_true_iff in Hn; destruct Hn as [Hc Hn].
    destruct (IH Hn) as (I1 & I2 & I3).
    pose proof (escHost_facts c) as F; rewrite Hc in F; cbv zeta in F; cbn [implb] in F.
    repeat rewrite Bool.andb_true_iff in F.
    destruct F as [[[[[[F1 F2] F3] F4] F5] F6] F7].
    rewrite escape_cons, !lacks_app, F5, F6, I1, I2; repeat split.
    rewrite app_assoc_str, unescape_escHost, I3 by exact Hc; reflexivity. }
  destruct He as (He1 & He2 & He3).
  assert (Hu : unescape (name ++ port) encodeHost = Some (name ++ port)).
  { clear Hn5 Hn6 Hesc He1 He2 He3; induction name as [|c n IH]; [exact Hpu|].
    rewrite forallb_cons_str, Bool.andb_true_iff in Hn; destruct Hn as [Hc Hn].
    cbn [append]; rewrite unescape_hostName, IH by assumption; reflexivity. }
  split; [apply parseHost_port; assumption|]. split; [|exact Hesc].
  rewrite Hesc; apply parseHost_port; assumption.
Qed.

Lemma escape_name_facts (name : string) :
  forallb hostNameByte (list_ascii_of_string name) = true ->
  let e := escape name encodeHost in
  lacks "/" e = true /\ lacks "?" e = true /\ lacks "#" e = true /\ lacks "@" e = true
  /\ stringContainsCTLByte e = false.
Proof.
  cbv zeta; induction name as [|c n IH]; intros Hn; [repeat split|].
  rewrite forallb_cons_str, Bool.andb_true_iff in Hn; destruct Hn as [Hc Hn].
  destruct (IH Hn) as (I1 & I2 & I3 & I4 & I5).
  pose proof (escHost_facts c) as F; rewrite Hc in F; cbv zeta in F; cbn [implb] in F.
  repeat rewrite Bool.andb_true_iff in F.
  destruct F as [[[[[[F1 F2] F3] F4] F5] F6] F7]; apply Bool.negb_true_iff in F7.
  rewrite escape_cons, !lacks_app, ctl_app, F1, F2, F3, F4, F7, I1, I2, I3, I4, I5.
  repeat split.
Qed.

Lemma escape_host_facts (name port : string) :
  forallb hostNameByte (list_ascii_of_string name) = true ->
  validOptionalPort port = true ->
  let e := escape (name ++ port) encodeHost in
  lacks "/" e = true /\ lacks "?" e = true /\ lacks "#" e = true /\ lacks "@" e = true
  /\ stringContainsCTLByte e = false.
Proof.
  intros Hn Hv; cbv zeta.
  destruct (host_parse name port Hn Hv) as (_ & _ & ->).
  destruct (port_facts port Hv) as (P1 & P2 & P3 & P4 & _ & P6 & _).
  destruct (escape_name_facts name Hn) as (I1 & I2 & I3 & I4 & I5).
  rewrite !lacks_app, ctl_app, P1, P2, P3, P4, P6, I1, I2, I3, I4, I5; repeat split.
Qed.

Definition queryPart (E : string) : string := if String.eqb E "" then "" else "?" ++ E.

(** [parse] of [scheme://auth path?E] with a plain authority *)
Lemma parse_general (scheme auth host path E : string) :
  validScheme scheme = true ->
  lacks "?" auth = true -> lacks "/" auth = true -> lacks "@" auth = true ->
  stringContainsCTLByte auth = false -> parseHost auth = Some host ->
  lacks "?" path = true -> stringContainsCTLByte path = false ->
  (path = "" \/ hasPrefix path "/" = true) ->
  lacks "?" E = true -> stringContainsCTLByte E = false ->
  parse (scheme ++ "://" ++ auth ++ path ++ queryPart E)
  = setPath (mkURL scheme "" None host "" "" false false E "") path.
Proof.
  intros Hs Ha2 Ha3 Ha4 Ha7 Hph Hp2 Hp4 Hp HE HEc.
  set (Q := queryPart E).
  destruct (scheme_facts scheme (auth ++ path ++ Q) Hs) as (Hs1 & Hs2 & Hs3 & Hs4 & Hs5 & Hs6).
  assert (HQc : stringContainsCTLByte Q = false)
    by (unfold Q, queryPart; destruct (String.eqb E ""); [reflexivity|exact HEc]).
  unfold parse.
  rewrite !ctl_app, Hs6, Ha7, Hp4, HQc, Hs2, Hs1.
  replace (stringContainsCTLByte "://") with false by reflexivity.
  cbn [orb]; rewrite Hs3.
  assert (Hcut : hasSuffix ("//" ++ auth ++ path ++ Q) "?" = false
                 /\ cut ("//" ++ auth ++ path ++ Q) "?"
                    = ("//" ++ auth ++ path, E, negb (String.eqb E ""))).
  { assert (Hpre : lacks "?" ("//" ++ auth ++ path) = true)
      by (rewrite !lacks_app, Ha2, Hp2; reflexivity).
    unfold Q, queryPart; destruct (String.eqb_spec E "") as [-> | HE0].
    - rewrite app_empty_str; split.
      + destruct (hasSuffix _ "?") eqn:Hx; [|reflexivity].
        apply hasSuffix_single in Hx; rewrite Hx in Hpre; discriminate.
      + exact (cut_lacks "?" _ Hpre).
    - split.
      + replace ("//" ++ auth ++ path ++ "?" ++ E)
          with (("//" ++ auth ++ path ++ "?") ++ E) by (rewrite !app_assoc_str; reflexivity).
        rewrite hasSuffix_app_ne by exact HE0.
        destruct (hasSuffix E "?") eqn:Hx; [|reflexivity].
        apply hasSuffix_single in Hx; rewrite Hx in HE; discriminate.
      + replace ("//" ++ auth ++ path ++ "?" ++ E)
          with (("//" ++ auth ++ path) ++ String "?" E) by (rewrite !app_assoc_str; reflexivity).
        exact (cut_first "?" _ E Hpre). }
  destruct Hcut as [Hc1 Hc2]; rewrite Hc1, Hc2; cbn [andb]; cbv beta iota zeta.
  replace (hasPrefix ("//" ++ auth ++ path) "/") with true by reflexivity.
  replace (hasPrefix ("//" ++ auth ++ path) "//") with true by reflexivity.
  replace (drop 2 ("//" ++ auth ++ path)) with (auth ++ path) by reflexivity.
  rewrite Hs4; cbn [negb andb orb]; cbv beta iota zeta.
  assert (Hidx : match index (auth ++ path) "/" with
                 | Some i => (take i (auth ++ path), drop i (auth ++ path))
                 | None => (auth ++ path, "") end = (auth, path)).
  { destruct Hp as [-> | Hp].
    - rewrite app_empty_str, (index_lacks "/" auth Ha3); reflexivity.
    - apply hasPrefix_spec in Hp as [r ->]; change ("/" ++ r) with (String "/" r).
      rewrite (index_first "/" auth r Ha3), take_app_exact, drop_app; reflexivity. }
  rewrite Hidx; cbv beta iota zeta.
  assert (Hauth : parseAuthority auth = Some (None, host)).
  { unfold parseAuthority; rewrite (lastIndexChar_lacks "@" auth Ha4), Hph; reflexivity. }
  rewrite Hauth; reflexivity.
Qed.

Lemma Parse_general (scheme auth host path E : string) :
  validScheme scheme = true ->
  lacks "#" auth = true -> lacks "?" auth = true -> lacks "/" auth = true ->
  lacks "@" auth = true -> stringContainsCTLByte auth = false ->
  parseHost auth = Some host ->
  lacks "#" path = true -> lacks "?" path = true -> stringContainsCTLByte path = false ->
  (path = "" \/ hasPrefix path "/" = true) ->
  lacks "#" E = true -> lacks "?" E = true -> stringContainsCTLByte E = false ->
  Parse (scheme ++ "://" ++ auth ++ path ++ queryPart E)
  = setPath (mkURL scheme "" None host "" "" false false E "") path.
Proof.
  intros Hs Ha1 Ha2 Ha3 Ha4 Ha7 Hph Hp1 Hp2 Hp4 Hp HE1 HE HEc.
  assert (Hlack : lacks "#" (scheme ++ "://" ++ auth ++ path ++ queryPart E) = true).
  { destruct (scheme_facts scheme "" Hs) as (_ & _ & _ & _ & Hs5 & _).
    rewrite !lacks_app, Hs5, Ha1, Hp1; unfold queryPart.
    destruct (String.eqb E ""); [reflexivity|exact HE1]. }
  unfold Parse; rewrite (cut_lacks "#" _ Hlack); cbv beta iota zeta.
  rewrite (parse_general scheme auth host path E); try assumption.
  destruct (setPath _ path); reflexivity.
Qed.

Lemma canonical_facts (p : string) :
  forallb canonicalByte (list_ascii_of_string p) = true ->
  lacks "?" p = true /\ lacks "#" p = true /\ stringContainsCTLByte p = false
  /\ unescape p encodePath = Some p.
Proof.
  intros H; repeat split; [..|revert H; apply ctl_of|];
    try (revert H; apply lacks_of; intros c Hc; byte_fact canonicalByte_facts c Hc).
  - intros c Hc; byte_fact canonicalByte_facts c Hc.
  - induction p as [|c p IH]; [reflexivity|].
    rewrite forallb_cons_str, Bool.andb_true_iff in H; destruct H as [Hc Hp].
    rewrite (unescape_canonical c p Hc), (IH Hp); reflexivity.
Qed.

Lemma escape_path_facts (p : string) :
  lacks "?" (escape p encodePath) = true /\ lacks "#" (escape p encodePath) = true
  /\ stringContainsCTLByte (escape p encodePath) = false
  /\ unescape (escape p encodePath) encodePath = Some p.
Proof.
  induction p as [|c p IH]; [repeat split|].
  destruct IH as (I1 & I2 & I3 & I4).
  pose proof (escPath_facts c) as F; cbv zeta in F; repeat rewrite Bool.andb_true_iff in F.
  destruct F as [[F1 F2] F3]; apply Bool.negb_true_iff in F3.
  rewrite escape_cons, !lacks_app, ctl_app, F1, F2, F3, I1, I2, I3, unescape_escPath, I4.
  repeat split.
Qed.

(** the path written by [URL.String] for a path set by [setPath] *)
Lemma EscapedPath_canonical (scheme host p E : string) :
  forallb canonicalByte (list_ascii_of_string p) = true ->
  (p = "" \/ hasPrefix p "/" = true) ->
  let e := EscapedPath (mkURL scheme "" None host p
                          (if String.eqb p (escape p encodePath) then "" else p)
                          false false E "") in
  lacks "?" e = true /\ lacks "#" e = true /\ stringContainsCTLByte e = false
  /\ unescape e encodePath = Some p /\ (e = "" \/ hasPrefix e "/" = true).
Proof.
  intros Hc Hp; cbv zeta.
  destruct (canonical_facts p Hc) as (C1 & C2 & C3 & C4).
  destruct (escape_path_facts p) as (E1 & E2 & E3 & E4).
  unfold EscapedPath; cbn [RawPath Path].
  assert (Hstar : String.eqb p "*" = false).
  { destruct Hp as [-> | Hp]; [reflexivity|].
    destruct (String.eqb_spec p "*") as [-> | ]; [discriminate|reflexivity]. }
  assert (Hesc : escape p encodePath = "" \/ hasPrefix (escape p encodePath) "/" = true).
  { destruct Hp as [-> | Hp]; [left; reflexivity|right].
    apply hasPrefix_spec in Hp as [r ->]; reflexivity. }
  destruct (String.eqb p (escape p encodePath)); cbn [String.eqb negb andb].
  - rewrite Hstar; repeat split; assumption.
  - destruct (String.eqb p "") eqn:Hp0.
    + apply String.eqb_eq in Hp0; subst p; repeat split; auto.
    + cbn [negb andb].
      destruct (validEncoded p encodePath); cbn [andb];
        [rewrite C4, String.eqb_refl; repeat split; assumption|].
      rewrite Hstar; repeat split; assumption.
Qed.

Lemma setPath_canonical (u : URL) (p : string) :
  forallb canonicalByte (list_ascii_of_string p) = true ->
  setPath u p = Some (mkURL (Scheme u) (Opaque u) (User u) (Host u) p
                        (if String.eqb p (escape p encodePath) then "" else p)
                        (OmitHost u) (ForceQuery u) (RawQuery u) (Fragment u)).
Proof.
  intros Hc; destruct (canonical_facts p Hc) as (_ & _ & _ & C4).
  unfold setPath; rewrite C4; reflexivity.
Qed.

Lemma toString_general (scheme host p raw E e : string) :
  validScheme scheme = true -> String.eqb host "" = false ->
  EscapedPath (mkURL scheme "" None host p raw false false E "") = e ->
  (e = "" \/ hasPrefix e "/" = true) ->
  toString (mkURL scheme "" None host p raw false false E "")
  = scheme ++ "://" ++ escape host encodeHost ++ e ++ queryPart E.
Proof.
  intros Hs Hh He Hp.
  unfold toString; rewrite He; cbn [Scheme Opaque User Host Path RawPath OmitHost
                                     ForceQuery RawQuery Fragment].
  rewrite Hh.
  assert (Hslash : (if negb (String.eqb e "") && negb (hasPrefix e "/")
                      && true then "/" else "") = "").
  { destruct Hp as [-> | ->]; [reflexivity|].
    destruct (negb (String.eqb e "")); reflexivity. }
  cbv zeta; cbn [String.eqb negb andb orb].
  rewrite Hslash; unfold queryPart.
  unfold validScheme in Hs; rewrite Bool.orb_true_iff, !String.eqb_eq in Hs.
  destruct Hs as [-> | ->]; destruct (String.eqb E "");
    cbn [String.eqb negb orb andb append]; rewrite ?app_assoc_str, ?app_empty_str;
    reflexivity.
Qed.
Lemma setPath_unescaped (u : URL) (p d : string) :
  unescape p encodePath = Some d ->
  setPath u p = Some (mkURL (Scheme u) (Opaque u) (User u) (Host u) d
                        (if String.eqb p (escape d encodePath) then "" else p)
                        (OmitHost u) (ForceQuery u) (RawQuery u) (Fragment u)).
Proof. intros H; unfold setPath; rewrite H; reflexivity. Qed.

End UrlPortFacts.

Module LocaleFacts.
Import Url Locale RoundTrip StringFacts UrlFacts.

Lemma known_locale_facts (loc : string) :
  In loc KnownLocales ->
  (forall rest, localePathMatch ("/" ++ loc ++ "/" ++ rest) = Some loc)
  /\ toLower loc = loc /\ isKnownLocale loc = true
  /\ forallb pathByte (list_ascii_of_string loc) = true /\ String.eqb loc "" = false.
Proof.
  intros Hin.
  repeat (destruct Hin as [<- | Hin]; [repeat split; intros; reflexivity|]).
  destruct Hin.
Qed.

Lemma trimPrefix_app (p s : string) : trimPrefix (p ++ s) p = s.
Proof. unfold trimPrefix; rewrite hasPrefix_app, drop_app; reflexivity. Qed.

End LocaleFacts.

Module LocaleSpec.
Import Url Locale RoundTrip StringFacts UrlFacts UrlPortFacts LocaleFacts.

(** C6, counterexample. The round trip fails for the empty canonical path
    in path mode: [https://example.com/en] has no slash after the locale,
    so the locale pattern does not match and the whole path comes back as
    the canonical path. It also fails in query mode for a canonical path
    carrying a [?]: the part after it is parsed as the query. *)
Lemma ExtractLocale_BuildLocaleURL_roundtrip_counterexample :
  ExtractLocale (Parse (BuildLocaleURL "https://example.com" "en" "" None)) None
  = ("", "/en")
  /\ ExtractLocale (Parse (BuildLocaleURL "https://example.com" "ja" "/a?b"
                            (Some (mkLocaleConfig ["ja"] "hl"))))
                   (Some (mkLocaleConfig ["ja"] "hl"))
     = ("ja", "/a").
Proof. split; vm_compute; reflexivity. Qed.

(** C6, amended. For a base [scheme://name port] with scheme [http] or
    [https], a non-empty host name of bytes that [url.Parse] accepts in a
    host and [URL.String] writes back (letters, digits,
    [-._~!$&'()*+,;=<>], the double quote and non-ASCII bytes; no [:],
    [[], []]) and an
    optional port ([:] and digits), every known locale code and every
    canonical path without [?], [#], [%] and control bytes that starts
    with [/] (or, in query form, is empty),
    [ExtractLocale(Parse(BuildLocaleURL(base, locale, canonical, cfg)), cfg)]
    is [(locale, canonical)], for a nil [cfg], for a [cfg] with an empty
    [ParamName] (path form) and for a [cfg] with any non-empty
    [ParamName] (query form). *)
Theorem ExtractLocale_BuildLocaleURL_roundtrip
    (scheme name port loc canonical : string) (cfg : option LocaleConfig) :
  validScheme scheme = true -> name <> "" ->
  forallb hostNameByte (list_ascii_of_string name) = true ->
  validOptionalPort port = true ->
  In loc KnownLocales ->
  forallb canonicalByte (list_ascii_of_string canonical) = true ->
  (hasPrefix canonical "/" = true \/ (canonical = "" /\ queryForm cfg = true)) ->
  ExtractLocale (Parse (BuildLocaleURL (scheme ++ "://" ++ name ++ port) loc canonical cfg)) cfg
  = (loc, canonical).
Proof.
  intros Hs Hn0 Hn Hv Hloc Hc Hpre.
  destruct (known_locale_facts loc Hloc) as (Hm & Hlow & Hknown & HlB & Hl0).
  destruct (host_parse name port Hn Hv) as (Hph & Hpe & _).
  destruct (host_name_facts name Hn) as (N1 & N2 & N3 & N4 & _ & _ & N7).
  destruct (port_facts port Hv) as (P1 & P2 & P3 & P4 & _ & P6 & _).
  assert (Hh0 : String.eqb (name ++ port) "" = false).
  { destruct name; [congruence|reflexivity]. }
  destruct (escape_host_facts name port Hn Hv) as (X1 & X2 & X3 & X4 & X5).
  assert (H1 : lacks "/" (name ++ port) = true) by (rewrite lacks_app, N1, P1; reflexivity).
  assert (H2 : lacks "?" (name ++ port) = true) by (rewrite lacks_app, N2, P2; reflexivity).
  assert (H3 : lacks "#" (name ++ port) = true) by (rewrite lacks_app, N3, P3; reflexivity).
  assert (H4 : lacks "@" (name ++ port) = true) by (rewrite lacks_app, N4, P4; reflexivity).
  assert (H7 : stringContainsCTLByte (name ++ port) = false)
    by (rewrite ctl_app, N7, P6; reflexivity).
  set (host := name ++ port) in *.
  unfold BuildLocaleURL; rewrite Hl0.
  destruct (queryForm cfg) eqn:Hq.
  - (* query form *)
    destruct cfg as [c|]; [|discriminate]. cbn [queryForm] in Hq.
    rewrite Hq.
    assert (Hcp : canonical = "" \/ hasPrefix canonical "/" = true)
      by (destruct Hpre as [H | [H _]]; [right|left]; exact H).
    destruct (canonical_facts canonical Hc) as (C1 & C2 & C3 & C4).
    replace ((scheme ++ "://" ++ host) ++ canonical)
      with (scheme ++ "://" ++ host ++ canonical ++ queryPart "")
      by (unfold queryPart; cbn [String.eqb]; rewrite app_empty_str, !app_assoc_str;
          reflexivity).
    rewrite (Parse_general scheme host host canonical ""); try assumption; try reflexivity.
    rewrite (setPath_canonical _ canonical Hc); cbn [Scheme Opaque User Host RawQuery
      OmitHost ForceQuery Fragment].
    set (raw := if String.eqb canonical (escape canonical encodePath) then "" else canonical).
    set (E := Encode (SetV (Query (mkURL scheme "" None host canonical raw false false "" ""))
                           (ParamName c) loc)).
    assert (HE : E = QueryEscape (ParamName c) ++ "=" ++ QueryEscape loc) by reflexivity.
    destruct (queryEscape_facts (ParamName c)) as (_ & _ & _ & Hk4 & Hk5 & Hk6).
    destruct (queryEscape_facts loc) as (_ & _ & _ & Hv4 & Hv5 & Hv6).
    assert (E1 : lacks "?" E = true) by (rewrite HE, !lacks_app, Hk4, Hv4; reflexivity).
    assert (E2 : lacks "#" E = true) by (rewrite HE, !lacks_app, Hk5, Hv5; reflexivity).
    assert (E3 : stringContainsCTLByte E = false)
      by (rewrite HE, !ctl_app, Hk6, Hv6; reflexivity).
    destruct (EscapedPath_canonical scheme host canonical E Hc Hcp)
      as (Q1 & Q2 & Q3 & Q4 & Q5); fold raw in Q1, Q2, Q3, Q4, Q5.
    unfold withRawQuery; cbn [Scheme Opaque User Host Path RawPath OmitHost ForceQuery
                              RawQuery Fragment].
    rewrite (toString_general scheme host canonical raw E _ Hs Hh0 eq_refl Q5).
    rewrite (Parse_general scheme (escape host encodeHost) host); try assumption.
    rewrite (setPath_unescaped _ _ _ Q4).
    unfold ExtractLocale; cbv zeta; rewrite Hq; cbn [negb Path]; unfold Query; cbn [RawQuery].
    rewrite HE, ParseQuery_single; reflexivity.
  - (* path form *)
    destruct Hpre as [Hc0 | [_ Hq']]; [|congruence].
    assert (HP : forallb canonicalByte (list_ascii_of_string ("/" ++ loc ++ canonical)) = true).
    { rewrite !forallb_app_str, Hc, Bool.andb_true_r.
      replace (forallb canonicalByte (list_ascii_of_string loc)) with true; [reflexivity|].
      symmetry; revert HlB; apply forallb_impl_str; intros d Hd.
      pose proof (pathByte_canonical d) as F; rewrite Hd in F; exact F. }
    destruct (canonical_facts _ HP) as (C1 & C2 & C3 & C4).
    assert (Hpath : forall m, queryForm m = false ->
      ExtractLocale (Parse ((scheme ++ "://" ++ host) ++ "/" ++ loc ++ canonical)) m
      = (loc, canonical)).
    { intros m Hm0.
      replace ((scheme ++ "://" ++ host) ++ "/" ++ loc ++ canonical)
        with (scheme ++ "://" ++ host ++ ("/" ++ loc ++ canonical) ++ queryPart "")
        by (unfold queryPart; cbn [String.eqb]; rewrite app_empty_str, !app_assoc_str;
            reflexivity).
      rewrite (Parse_general scheme host host); try assumption; try reflexivity;
        [|right; reflexivity].
      rewrite (setPath_canonical _ _ HP).
      unfold ExtractLocale; cbv zeta; unfold queryForm in Hm0; rewrite Hm0; cbn [Path].
      apply hasPrefix_spec in Hc0 as [r Hr]; rewrite Hr at 1.
      rewrite (Hm r), Hlow, Hknown, <- app_assoc_str, trimPrefix_app.
      destruct (String.eqb_spec canonical "") as [-> | ]; [discriminate|reflexivity]. }
    destruct cfg as [c|]; [|apply Hpath; reflexivity].
    cbn [queryForm] in Hq; rewrite Hq; apply Hpath; exact Hq.
Qed.
End LocaleSpec.

Module CrawlFacts.
Import Url Locale FilePath Naming Fetcher.
Local Open Scope list_scope.

Lemma recordProbes_cons (u : string) (ps : list string) (st : crawlState) :
  recordProbes (u :: ps) st = recordProbes ps (record (EProbe u) st).
Proof. reflexivity. Qed.

Lemma recordProbes_fields (ps : list string) (st : crawlState) :
  visited (recordProbes ps st) = visited st
  /\ visitedCanonical (recordProbes ps st) = visitedCanonical st
  /\ downloadCount (recordProbes ps st) = downloadCount st
  /\ trace (recordProbes ps st) = rev (map EProbe ps) ++ trace st.
Proof.
  revert st; induction ps as [|u ps IH]; intros st; [repeat split|].
  rewrite recordProbes_cons; destruct (IH (record (EProbe u) st)) as (H1 & H2 & H3 & H4).
  rewrite H1, H2, H3, H4; cbn [rev map trace record visited visitedCanonical downloadCount].
  rewrite <- app_assoc; repeat split.
Qed.

Lemma probeLocales_shape (E : env) (cfg : LocaleConfig) (st : crawlState)
    (base canonical : string) (prio : list string) :
  exists ps, fst (probeLocales E cfg st base canonical prio) = recordProbes ps st.
Proof.
  revert st; induction prio as [|l prio IH]; intros st; cbn [probeLocales].
  - exists []; reflexivity.
  - destruct (checkURLExists E _) as [found code].
    destruct found; [eexists [_]; reflexivity|].
    destruct (_ && _); [eexists [_]; reflexivity|].
    destruct (IH (record (EProbe (BuildLocaleURL base l canonical (Some cfg))) st))
      as [ps Hps].
    exists (BuildLocaleURL base l canonical (Some cfg) :: ps); exact Hps.
Qed.

Ltac split_matches :=
  repeat match goal with
         | |- context [match ?x with _ => _ end] => destruct x eqn:?
         end.

Lemma fetchPage_nil (E : env) (crawlDir : string) (rec : crawlFn) (st : crawlState)
    (u k : string) (pu : URL) (d : nat) :
  snd (fetchPage E crawlDir rec st u k pu d) = None.
Proof. unfold fetchPage; split_matches; reflexivity. Qed.

Lemma crawlWithLocalePriority_nil (E : env) (domain crawlDir : string) (cfg : LocaleConfig)
    (rec : crawlFn) (st : crawlState) (orig canonical : string) (d : nat) :
  snd (crawlWithLocalePriority E domain crawlDir cfg rec st orig canonical d) = None.
Proof.
  unfold crawlWithLocalePriority; split_matches; try reflexivity; apply fetchPage_nil.
Qed.

Lemma crawl_nil (E : env) (domain : string) (maxDepth : nat) (cfg : option LocaleConfig)
    (crawlDir : string) (fuel : nat) (st : crawlState) (u : string) (d : nat) :
  snd (crawl E domain maxDepth cfg crawlDir fuel st u d) = None.
Proof.
  destruct fuel as [|fuel]; [reflexivity|]; cbn [crawl].
  split_matches; try reflexivity;
    first [apply crawlWithLocalePriority_nil | apply fetchPage_nil].
Qed.

Lemma crawlLinks_ext (Q : event -> Prop) (rec : crawlFn) (st : crawlState)
    (links : list string) (d : nat) :
  (forall st l, exists new, trace (fst (rec st l (S d))) = new ++ trace st /\ Forall Q new) ->
  exists new, trace (crawlLinks rec st links d) = new ++ trace st /\ Forall Q new.
Proof.
  intros Hrec; unfold crawlLinks; revert st; induction links as [|l ls IH]; intros st.
  - exists []; split; [reflexivity | constructor].
  - cbn [fold_left]; destruct (Hrec st l) as [n1 [H1 F1]].
    destruct (IH (fst (rec st l (S d)))) as [n2 [H2 F2]].
    exists (n2 ++ n1); rewrite H2, H1, app_assoc; split; [reflexivity|].
    apply Forall_app; split; assumption.
Qed.

Lemma fetchPage_ext (Q : event -> Prop) (E : env) (crawlDir : string) (rec : crawlFn)
    (st : crawlState) (u k : string) (pu : URL) (d : nat) :
  (forall st l, exists new, trace (fst (rec st l (S d))) = new ++ trace st /\ Forall Q new) ->
  Q (EGet u k d) ->
  exists new, trace (fst (fetchPage E crawlDir rec st u k pu d)) = new ++ trace st
              /\ Forall Q new.
Proof.
  intros Hrec HQ; unfold fetchPage; split_matches; cbn [fst];
    try (exists []; split; [reflexivity | constructor]);
    try (exists [EGet u k d]; split; [reflexivity | repeat constructor; assumption]).
  destruct (crawlLinks_ext Q rec (bumpCount (record (EGet u k d) st)) l d Hrec)
    as [n [Hn Fn]].
  exists (n ++ [EGet u k d]); rewrite Hn, <- app_assoc; split; [reflexivity|].
  apply Forall_app; split; [assumption | repeat constructor; assumption].
Qed.


Lemma cwlp_ext (Q : event -> Prop) (E : env) (domain crawlDir : string) (cfg : LocaleConfig)
    (rec : crawlFn) (st : crawlState) (orig canonical : string) (d : nat) :
  (forall st l, exists new, trace (fst (rec st l (S d))) = new ++ trace st /\ Forall Q new) ->
  (forall u, Q (EProbe u)) -> (forall u, Q (EGet u canonical d)) ->
  exists new,
    trace (fst (crawlWithLocalePriority E domain crawlDir cfg rec st orig canonical d))
      = new ++ trace st /\ Forall Q new.
Proof.
  intros Hrec HP HG; unfold crawlWithLocalePriority.
  destruct (Parse orig) as [pu|]; [|exists []; split; [reflexivity | constructor]].
  destruct (negb _); [exists []; split; [reflexivity | constructor]|].
  destruct (isNonHTMLResource orig); [exists []; split; [reflexivity | constructor]|].
  destruct (negb _); [exists []; split; [reflexivity | constructor]|].
  destruct (probeLocales_shape E cfg st (Scheme pu ++ "://" ++ Host pu)%string canonical
              (localePriority cfg)) as [ps Hps].
  destruct (probeLocales E cfg st _ canonical (localePriority cfg)) as [st1 outcome].
  cbn [fst] in Hps; subst st1.
  destruct (recordProbes_fields ps st) as (_ & _ & _ & Htr).
  assert (Fps : Forall Q (rev (map EProbe ps))).
  { apply Forall_rev, Forall_map, Forall_forall; intros; apply HP. }
  assert (Hfin : forall st', (exists new, trace st' = new ++ trace (recordProbes ps st)
                                      /\ Forall Q new) ->
            exists new, trace st' = new ++ trace st /\ Forall Q new).
  { intros st' [n [Hn Fn]]; exists (n ++ rev (map EProbe ps)); rewrite Hn, Htr, app_assoc.
    split; [reflexivity | apply Forall_app; split; assumption]. }
  destruct outcome as [u l| |]; cbn iota beta.
  - destruct (String.eqb u ""); cbn iota.
    + destruct (checkURLExists E orig) as [[] c]; apply Hfin.
      * destruct (fetchPage_ext Q E crawlDir rec (record (EProbe orig) (recordProbes ps st))
                    orig canonical pu d Hrec (HG orig)) as [n [Hn Fn]].
        exists (n ++ [EProbe orig]); rewrite Hn, <- app_assoc; split; [reflexivity|].
        apply Forall_app; split; [assumption | repeat constructor; apply HP].
      * exists [EProbe orig]; split; [reflexivity | repeat constructor; apply HP].
    + apply Hfin, fetchPage_ext; [exact Hrec | apply HG].
  - apply Hfin; exists []; split; [reflexivity | constructor].
  - cbn [String.eqb]; destruct (checkURLExists E orig) as [[] c]; apply Hfin.
    + destruct (fetchPage_ext Q E crawlDir rec (record (EProbe orig) (recordProbes ps st))
                  orig canonical pu d Hrec (HG orig)) as [n [Hn Fn]].
      exists (n ++ [EProbe orig]); rewrite Hn, <- app_assoc; split; [reflexivity|].
      apply Forall_app; split; [assumption | repeat constructor; apply HP].
    + exists [EProbe orig]; split; [reflexivity | repeat constructor; apply HP].
Qed.

Section Traversal.
Variable E : env.
Variable domain : string.
Variable maxDepth : nat.
Variable localeConfig : option LocaleConfig.
Variable crawlDir : string.

Local Abbreviation crawlF := (crawl E domain maxDepth localeConfig crawlDir).

Lemma below_weaken (d : nat) (e : event) : below maxDepth (S d) e -> below maxDepth d e.
Proof. destruct e; cbn; lia. Qed.

(** a call at [depth] logs itself, then only calls at larger depths and page
    requests at depths between [depth] and [maxDepth]; nothing when [depth > maxDepth] *)
Lemma crawl_shape (fuel : nat) :
  forall st u d, exists rest,
    trace (fst (crawlF (S fuel) st u d)) = rest ++ ECall u d :: trace st
    /\ Forall (below maxDepth d) rest /\ (maxDepth < d -> rest = []).
Proof.
  induction fuel as [|fuel IH]; intros st u d.
  - cbn [crawl]; destruct (Nat.ltb maxDepth d) eqn:Hd.
    { exists []; repeat split; constructor. }
    destruct (negb (robotsAllowed E u)).
    { exists []; repeat split; constructor. }
    assert (Hz : forall st l, exists new,
               trace (fst (crawlF 0 st l (S d))) = new ++ trace st
               /\ Forall (below maxDepth d) new)
      by (intros; exists []; split; [reflexivity | constructor]).
    apply Nat.ltb_ge in Hd.
    destruct localeConfig as [cfg|].
    + destruct (Parse u) as [pu|]; [|exists []; repeat split; constructor].
      destruct (existsb _ _); [exists []; repeat split; constructor|].
      edestruct (cwlp_ext (below maxDepth d)) as [n [Hn Fn]];
        [exact Hz | intros; exact I | intros; cbn; lia|].
      exists n; rewrite Hn; repeat split; [assumption | lia].
    + destruct (existsb _ _); [exists []; repeat split; constructor|].
      destruct (Parse u) as [pu|]; [|exists []; repeat split; constructor].
      destruct (negb _); [exists []; repeat split; constructor|].
      destruct (isNonHTMLResource u); [exists []; repeat split; constructor|].
      edestruct (fetchPage_ext (below maxDepth d)) as [n [Hn Fn]];
        [exact Hz | cbn; lia|].
      exists n; rewrite Hn; repeat split; [assumption | lia].
  - assert (Hc : forall st l, exists new,
               trace (fst (crawlF (S fuel) st l (S d))) = new ++ trace st
               /\ Forall (below maxDepth d) new).
    { intros st' l; destruct (IH st' l (S d)) as [r [Hr [Fr _]]].
      exists (r ++ [ECall l (S d)]); rewrite Hr, <- app_assoc; split; [reflexivity|].
      apply Forall_app; split.
      - eapply Forall_impl; [apply below_weaken | exact Fr].
      - repeat constructor; cbn; lia. }
    remember (S fuel) as f eqn:Hf; cbn [crawl]; subst f.
    destruct (Nat.ltb maxDepth d) eqn:Hd.
    { exists []; repeat split; constructor. }
    destruct (negb (robotsAllowed E u)).
    { exists []; repeat split; constructor. }
    apply Nat.ltb_ge in Hd.
    destruct localeConfig as [cfg|].
    + destruct (Parse u) as [pu|]; [|exists []; repeat split; constructor].
      destruct (existsb _ _); [exists []; repeat split; constructor|].
      edestruct (cwlp_ext (below maxDepth d)) as [n [Hn Fn]];
        [exact Hc | intros; exact I | intros; cbn; lia|].
      exists n; rewrite Hn; repeat split; [assumption | lia].
    + destruct (existsb _ _); [exists []; repeat split; constructor|].
      destruct (Parse u) as [pu|]; [|exists []; repeat split; constructor].
      destruct (negb _); [exists []; repeat split; constructor|].
      destruct (isNonHTMLResource u); [exists []; repeat split; constructor|].
      edestruct (fetchPage_ext (below maxDepth d)) as [n [Hn Fn]];
        [exact Hc | cbn; lia|].
      exists n; rewrite Hn; repeat split; [assumption | lia].
Qed.


Lemma crawlLinks_congr (rec1 rec2 : crawlFn) (st : crawlState) (links : list string) (d : nat) :
  (forall st l, rec1 st l (S d) = rec2 st l (S d)) ->
  crawlLinks rec1 st links d = crawlLinks rec2 st links d.
Proof.
  intros H; unfold crawlLinks; revert st; induction links as [|l ls IH]; intros st;
    [reflexivity|]; cbn [fold_left]; rewrite H; apply IH.
Qed.

Lemma fetchPage_congr (rec1 rec2 : crawlFn) (st : crawlState) (u k : string) (pu : URL)
    (d : nat) :
  (forall st l, rec1 st l (S d) = rec2 st l (S d)) ->
  fetchPage E crawlDir rec1 st u k pu d = fetchPage E crawlDir rec2 st u k pu d.
Proof.
  intros H; unfold fetchPage; split_matches; try reflexivity.
  f_equal; apply crawlLinks_congr, H.
Qed.

Lemma cwlp_congr (cfg : LocaleConfig) (rec1 rec2 : crawlFn) (st : crawlState)
    (orig canonical : string) (d : nat) :
  (forall st l, rec1 st l (S d) = rec2 st l (S d)) ->
  crawlWithLocalePriority E domain crawlDir cfg rec1 st orig canonical d
  = crawlWithLocalePriority E domain crawlDir cfg rec2 st orig canonical d.
Proof.
  intros H; unfold crawlWithLocalePriority; split_matches; try reflexivity;
    apply fetchPage_congr, H.
Qed.

(** once the fuel covers the remaining depth budget, more fuel changes nothing:
    the depth check, not the fuel, ends the recursion *)
Lemma crawl_fuel (f1 : nat) :
  forall f2 st u d, 1 <= f1 -> maxDepth + 2 <= d + f1 -> f1 <= f2 ->
    crawlF f1 st u d = crawlF f2 st u d.
Proof.
  induction f1 as [|f1 IH]; intros f2 st u d H1 H2 H3; [lia|].
  destruct f2 as [|f2]; [lia|]; cbn [crawl].
  destruct (Nat.ltb maxDepth d) eqn:Hd; [reflexivity|]; apply Nat.ltb_ge in Hd.
  assert (Hrec : forall st l, crawlF f1 st l (S d) = crawlF f2 st l (S d))
    by (intros; apply IH; lia).
  destruct localeConfig as [cfg|]; split_matches; try reflexivity;
    first [apply cwlp_congr, Hrec | apply fetchPage_congr, Hrec].
Qed.

(** the log grows by events satisfying [Q] when [Q] holds for every event a
    call can log *)
Lemma crawl_ext (Q : event -> Prop) :
  (forall u d, Q (ECall u d)) -> (forall u, Q (EProbe u)) ->
  (localeConfig = None -> forall u d, Q (EGet u u d)) ->
  (forall cfg, localeConfig = Some cfg -> forall x u pu d, Parse u = Some pu ->
     Q (EGet x (snd (ExtractLocale (Some pu) localeConfig)) d)) ->
  forall fuel st u d, exists new, trace (fst (crawlF fuel st u d)) = new ++ trace st
                                  /\ Forall Q new.
Proof.
  intros HC HP HS HL fuel; induction fuel as [|fuel IH]; intros st u d.
  - exists []; split; [reflexivity | constructor].
  - assert (Hfin : forall st', (exists new, trace st' = new ++ ECall u d :: trace st
                                            /\ Forall Q new) ->
              exists new, trace st' = new ++ trace st /\ Forall Q new).
    { intros st' [n [Hn Fn]]; exists (n ++ [ECall u d]); rewrite Hn, <- app_assoc.
      split; [reflexivity | apply Forall_app; split; [assumption | repeat constructor; apply HC]]. }
    cbn [crawl]; apply Hfin.
    destruct (Nat.ltb maxDepth d); [exists []; split; [reflexivity | constructor]|].
    destruct (negb (robotsAllowed E u)); [exists []; split; [reflexivity | constructor]|].
    destruct localeConfig as [cfg|] eqn:Hl.
    + destruct (Parse u) as [pu|] eqn:Hp; [|exists []; split; [reflexivity | constructor]].
      destruct (existsb _ _); [exists []; split; [reflexivity | constructor]|].
      apply cwlp_ext; [intros; apply IH | exact HP | intros x; eapply HL; eauto].
    + destruct (existsb _ _); [exists []; split; [reflexivity | constructor]|].
      destruct (Parse u) as [pu|]; [|exists []; split; [reflexivity | constructor]].
      destruct (negb _); [exists []; split; [reflexivity | constructor]|].
      destruct (isNonHTMLResource u); [exists []; split; [reflexivity | constructor]|].
      apply fetchPage_ext; [intros; apply IH | apply HS; reflexivity].
Qed.

Lemma crawl_suffix (fuel : nat) (st : crawlState) (u : string) (d : nat) :
  exists new, trace (fst (crawlF fuel st u d)) = new ++ trace st.
Proof.
  destruct (crawl_ext (fun _ => True)) with (fuel := fuel) (st := st) (u := u) (d := d)
    as [n [Hn _]]; try (intros; exact I); exists n; exact Hn.
Qed.

(** each link of a page gets its own call, whatever happened to the others *)
Lemma crawlLinks_calls (fuel : nat) (st : crawlState) (links : list string) (d : nat)
    (l : string) :
  In l links -> In (ECall l (S d)) (trace (crawlLinks (crawlF (S fuel)) st links d)).
Proof.
  unfold crawlLinks; revert st; induction links as [|l' ls IH]; intros st Hin;
    [destruct Hin|]; cbn [fold_left].
  destruct Hin as [-> | Hin]; [|apply IH, Hin].
  destruct (crawlLinks_ext (fun _ => True) (crawlF (S fuel))
              (fst (crawlF (S fuel) st l (S d))) ls d) as [n [Hn _]].
  { intros st' l'; destruct (crawl_suffix (S fuel) st' l' (S d)) as [m Hm].
    exists m; split; [exact Hm | apply Forall_forall; intros; exact I]. }
  unfold crawlLinks in Hn; rewrite Hn.
  destruct (crawl_shape fuel st l (S d)) as [r' [Hr' _]].
  rewrite Hr'; apply in_or_app; right; apply in_or_app; right; left; reflexivity.
Qed.


(** the dedup invariant: no key was requested twice, and every requested key is
    in the set [crawl] consults *)

Local Abbreviation Inv st :=
  (NoDup (fetchKeys (trace st)) /\ incl (fetchKeys (trace st)) (seen localeConfig st)).

Lemma Inv_record_probe (u : string) (st : crawlState) : Inv st -> Inv (record (EProbe u) st).
Proof. destruct localeConfig; exact (fun H => H). Qed.

Lemma Inv_record_call (u : string) (d : nat) (st : crawlState) :
  Inv st -> Inv (record (ECall u d) st).
Proof. destruct localeConfig; exact (fun H => H). Qed.

Lemma recordProbes_keys (ps : list string) (st : crawlState) :
  fetchKeys (trace (recordProbes ps st)) = fetchKeys (trace st)
  /\ seen localeConfig (recordProbes ps st) = seen localeConfig st.
Proof.
  revert st; induction ps as [|p ps IH]; intros st; [split; reflexivity|].
  rewrite recordProbes_cons; destruct (IH (record (EProbe p) st)) as [H1 H2].
  rewrite H1, H2; unfold seen; destruct localeConfig; split; reflexivity.
Qed.

Lemma crawlLinks_inv (rec : crawlFn) (st : crawlState) (links : list string) (d : nat) :
  (forall st l, Inv st -> Inv (fst (rec st l (S d)))) ->
  Inv st -> Inv (crawlLinks rec st links d).
Proof.
  intros H; unfold crawlLinks; revert st; induction links as [|l ls IH]; intros st Hst;
    [exact Hst|]; cbn [fold_left]; apply IH, H, Hst.
Qed.

Lemma fetchPage_inv (rec : crawlFn) (st : crawlState) (u k : string) (pu : URL) (d : nat) :
  (forall st l, Inv st -> Inv (fst (rec st l (S d)))) ->
  Inv st -> ~ In k (fetchKeys (trace st)) -> In k (seen localeConfig st) ->
  Inv (fst (fetchPage E crawlDir rec st u k pu d)).
Proof.
  intros Hrec [Hnd Hincl] Hk Hs.
  assert (H1 : Inv (record (EGet u k d) st)).
  { split; cbn.
    - constructor; assumption.
    - unfold seen in *; destruct localeConfig; cbn; intros x [<- | Hx]; auto. }
  assert (H2 : Inv (bumpCount (record (EGet u k d) st)))
    by (unfold seen in *; destruct localeConfig; exact H1).
  unfold fetchPage; split_matches; cbn [fst]; try exact H1; try exact H2;
    try (split; assumption).
  apply crawlLinks_inv; assumption.
Qed.

Lemma cwlp_inv (cfg : LocaleConfig) (rec : crawlFn) (st : crawlState)
    (orig canonical : string) (d : nat) :
  (forall st l, Inv st -> Inv (fst (rec st l (S d)))) ->
  Inv st -> ~ In canonical (fetchKeys (trace st)) -> In canonical (seen localeConfig st) ->
  Inv (fst (crawlWithLocalePriority E domain crawlDir cfg rec st orig canonical d)).
Proof.
  intros Hrec Hst Hk Hs; unfold crawlWithLocalePriority.
  destruct (Parse orig) as [pu|]; [|exact Hst].
  destruct (negb _); [exact Hst|].
  destruct (isNonHTMLResource orig); [exact Hst|].
  destruct (negb _); [exact Hst|].
  destruct (probeLocales_shape E cfg st (Scheme pu ++ "://" ++ Host pu)%string canonical
              (localePriority cfg)) as [ps Hps].
  destruct (probeLocales E cfg st _ canonical (localePriority cfg)) as [st1 outcome].
  cbn [fst] in Hps; subst st1.
  destruct (recordProbes_keys ps st) as [K1 K2].
  assert (Hst1 : Inv (recordProbes ps st)) by (rewrite K1, K2; exact Hst).
  assert (Hk1 : ~ In canonical (fetchKeys (trace (recordProbes ps st)))) by (rewrite K1; exact Hk).
  assert (Hs1 : In canonical (seen localeConfig (recordProbes ps st))) by (rewrite K2; exact Hs).
  assert (Horig : Inv (fst (let '(found, _) := checkURLExists E orig in
                             let st := record (EProbe orig) (recordProbes ps st) in
                             if found then fetchPage E crawlDir rec st orig canonical pu d
                             else (st, None)))).
  { destruct (checkURLExists E orig) as [[] c].
    - apply fetchPage_inv; [exact Hrec | apply Inv_record_probe, Hst1 | exact Hk1 |].
      unfold seen in *; destruct localeConfig; exact Hs1.
    - apply Inv_record_probe, Hst1. }
  destruct outcome as [u l| |]; cbn iota beta.
  - destruct (String.eqb u ""); [exact Horig|]; apply fetchPage_inv; assumption.
  - exact Hst1.
  - exact Horig.
Qed.

Lemma crawl_inv (fuel : nat) : forall st u d, Inv st -> Inv (fst (crawlF fuel st u d)).
Proof.
  induction fuel as [|fuel IH]; intros st u d Hst; [exact Hst|]; cbn [crawl].
  pose proof (Inv_record_call u d st Hst) as H1.
  destruct (Nat.ltb maxDepth d); [exact H1|].
  destruct (negb (robotsAllowed E u)); [exact H1|].
  destruct H1 as [Hnd Hincl].
  destruct localeConfig as [cfg|] eqn:Hl.
  - destruct (Parse u) as [pu|]; [|split; assumption].
    destruct (existsb _ _) eqn:He; [split; assumption|].
    rewrite <- Hl in IH, Hincl, He |- *.
    set (c := snd (ExtractLocale (Some pu) localeConfig)) in *.
    apply cwlp_inv.
    + intros; apply IH; assumption.
    + split; [exact Hnd|]; unfold seen in *; rewrite Hl in *.
      intros x Hx; right; apply Hincl, Hx.
    + intros Hin; apply Hincl in Hin; unfold seen in Hin; rewrite Hl in Hin.
      apply Bool.not_true_iff_false in He; apply He, existsb_exists.
      eexists; split; [exact Hin | apply String.eqb_refl].
    + unfold seen; rewrite Hl; left; reflexivity.
  - destruct (existsb _ _) eqn:He; [split; assumption|].
    rewrite <- Hl in IH, Hincl |- *.
    assert (Hm : Inv (markVisited u (record (ECall u d) st))).
    { split; [exact Hnd|]; unfold seen in *; rewrite Hl in *.
      intros x Hx; right; apply Hincl, Hx. }
    destruct (Parse u) as [pu|]; [|exact Hm].
    destruct (negb _); [exact Hm|].
    destruct (isNonHTMLResource u); [exact Hm|].
    apply fetchPage_inv.
    + intros; apply IH; assumption.
    + exact Hm.
    + intros Hin; apply Hincl in Hin; unfold seen in Hin; rewrite Hl in Hin.
      apply Bool.not_true_iff_false in He; apply He, existsb_exists.
      exists u; split; [exact Hin | apply String.eqb_refl].
    + unfold seen; rewrite Hl; left; reflexivity.
Qed.

End Traversal.

Lemma probeLocales_abort (E : env) (cfg : LocaleConfig) (base canonical : string)
    (pre : list string) (l : string) (post : list string) (code : nat) :
  let cand := fun l' => BuildLocaleURL base l' canonical (Some cfg) in
  (forall l', In l' pre -> exists c, checkURLExists E (cand l') = (false, c)
                                     /\ (c = 404 \/ c = 0 \/ abortStatus c = false)) ->
  checkURLExists E (cand l) = (false, code) -> (code = 403 \/ code = 429 \/ 500 <= code) ->
  forall st, probeLocales E cfg st base canonical (pre ++ l :: post)
             = (recordProbes (map cand (pre ++ [l])) st, Abort).
Proof.
  intros cand Hpre Hl Hcode; induction pre as [|l' pre IH]; intros st; cbn [app probeLocales].
  - fold (cand l); rewrite Hl; cbn [negb].
    replace (negb (Nat.eqb code 404) && negb (Nat.eqb code 0) && abortStatus code) with true;
      [reflexivity|].
    unfold abortStatus; destruct Hcode as [-> | [-> | Hc]]; [reflexivity | reflexivity|].
    destruct (Nat.eqb_spec code 404); [lia|]; destruct (Nat.eqb_spec code 0); [lia|].
    apply Nat.leb_le in Hc; rewrite Hc, !orb_true_r; reflexivity.
  - fold (cand l'); destruct (Hpre l' (or_introl eq_refl)) as [c [Hc Hna]]; rewrite Hc.
    replace (negb (Nat.eqb c 404) && negb (Nat.eqb c 0) && abortStatus c) with false.
    + rewrite IH; [reflexivity|]; intros l'' Hin; apply Hpre; right; exact Hin.
    + destruct Hna as [-> | [-> | Hna]]; [reflexivity | reflexivity|].
      rewrite Hna, andb_false_r; reflexivity.
Qed.

Lemma probeLocales_exhausted (E : env) (cfg : LocaleConfig) (base canonical : string)
    (prio : list string) :
  let cand := fun l' => BuildLocaleURL base l' canonical (Some cfg) in
  (forall l', In l' prio -> exists c, checkURLExists E (cand l') = (false, c)
                                      /\ (c = 404 \/ c = 0 \/ abortStatus c = false)) ->
  forall st, probeLocales E cfg st base canonical prio = (recordProbes (map cand prio) st, Exhausted).
Proof.
  intros cand Hprio; induction prio as [|l prio IH]; intros st; [reflexivity|].
  cbn [probeLocales]; fold (cand l).
  destruct (Hprio l (or_introl eq_refl)) as [c [Hc Hna]]; rewrite Hc.
  replace (negb (Nat.eqb c 404) && negb (Nat.eqb c 0) && abortStatus c) with false.
  - rewrite IH; [reflexivity|]; intros l' Hin; apply Hprio; right; exact Hin.
  - destruct Hna as [-> | [-> | Hna]]; [reflexivity | reflexivity|].
    rewrite Hna, andb_false_r; reflexivity.
Qed.

(** [Fetch] either stops in its setup, with the initial state, or returns what
    the crawl from depth 0 returns *)
Lemma Fetch_cases (E : env) (outputDir : string) (maxDepth : nat)
    (localeConfig : option LocaleConfig) (targetURL : string) :
  (fst (Fetch E outputDir maxDepth localeConfig targetURL) <> None
   /\ snd (Fetch E outputDir maxDepth localeConfig targetURL) = initState)
  \/ exists pu,
       Parse (defaultScheme targetURL) = Some pu
       /\ (Scheme pu = "http" \/ Scheme pu = "https") /\ Host pu <> ""
       /\ removeAllResult E <> Some ErrOtherIO
       /\ mkdirAllOk E (Join [outputDir; "crawl"]) = true
       /\ Fetch E outputDir maxDepth localeConfig targetURL
          = (None, fst (crawl E (Host pu) maxDepth localeConfig (Join [outputDir; "crawl"])
                          (S (S maxDepth)) initState (defaultScheme targetURL) 0)).
Proof.
  unfold Fetch; cbv zeta.
  destruct (Parse (defaultScheme targetURL)) as [pu|] eqn:Hp;
    [|left; split; [discriminate | reflexivity]].
  destruct (String.eqb_spec (Scheme pu) "http") as [Hh|Hh];
  destruct (String.eqb_spec (Scheme pu) "https") as [Hs|Hs]; cbn [negb andb];
    try (left; split; [discriminate | reflexivity]).
  all: destruct (String.eqb_spec (Host pu) "") as [He|He];
    [left; split; [discriminate | reflexivity]|].
  all: destruct (removeAllResult E) as [[]|] eqn:Hr;
    try (left; split; [discriminate | reflexivity]).
  all: destruct (mkdirAllOk E (Join [outputDir; "crawl"])) eqn:Hm; cbn [negb];
    try (left; split; [discriminate | reflexivity]).
  all: right; exists pu; refine (conj eq_refl (conj _ (conj He (conj _ (conj eq_refl _)))));
    [first [left; assumption | right; assumption] | discriminate |].
  all: pose proof (crawl_nil E (Host pu) maxDepth localeConfig (Join [outputDir; "crawl"])
                     (S (S maxDepth)) initState (defaultScheme targetURL) 0) as Hn.
  all: destruct (crawl _ _ _ _ _ _ _ _ _) as [st err]; cbn in Hn; subst err; reflexivity.
Qed.

Lemma Forall_fetchKeys (P : string -> Prop) (tr : list event) :
  Forall (fun e => match e with EGet _ k _ => P k | _ => True end) tr ->
  Forall P (fetchKeys tr).
Proof.
  induction 1 as [|e tr He _ IH]; [constructor|].
  destruct e; cbn; [exact IH | exact IH | constructor; assumption].
Qed.

Lemma fetchURLs_fetchKeys (tr : list event) :
  Forall (fun e => match e with EGet u k _ => u = k | _ => True end) tr ->
  fetchURLs tr = fetchKeys tr.
Proof.
  induction 1 as [|e tr He _ IH]; [reflexivity|].
  unfold fetchURLs, fetchKeys in *; destruct e; cbn [flat_map app];
    [exact IH | exact IH | rewrite He, IH; reflexivity].
Qed.

Lemma Forall_fetchDepths (maxDepth d : nat) (tr : list event) :
  Forall (below maxDepth d) tr -> Forall (fun x => x <= maxDepth) (fetchDepths tr).
Proof.
  induction 1 as [|e tr He _ IH]; [constructor|].
  destruct e; cbn in *; [exact IH | exact IH | constructor; [lia | exact IH]].
Qed.

End CrawlFacts.

Module CrawlSpec.
Import Url Locale FilePath Naming Fetcher CrawlFacts.
Local Open Scope list_scope.

(** C2: in one [Fetch], no key is requested twice, the log being the list of
    page requests issued: in standard mode the keys are the requested URLs, so
    no URL is requested twice; in locale mode each key is the canonical path
    that [ExtractLocale] gives for a parsed URL, so no canonical path is
    requested twice. This holds for every site, cyclic link graphs included. *)
Theorem Fetch_fetches_each_key_at_most_once (E : env) (outputDir : string) (maxDepth : nat)
    (localeConfig : option LocaleConfig) (targetURL : string) :
  let tr := trace (snd (Fetch E outputDir maxDepth localeConfig targetURL)) in
  NoDup (fetchKeys tr)
  /\ (localeConfig = None -> NoDup (fetchURLs tr) /\ fetchURLs tr = fetchKeys tr)
  /\ (forall cfg, localeConfig = Some cfg ->
        Forall (fun k => exists u pu, Parse u = Some pu
                                    /\ k = snd (ExtractLocale (Some pu) localeConfig))
               (fetchKeys tr)).
Proof.
  intros tr.
  set (Q := fun e => match e with
                     | EGet u k _ =>
                         (localeConfig = None -> u = k)
                         /\ (forall cfg, localeConfig = Some cfg ->
                               exists u0 pu, Parse u0 = Some pu
                                             /\ k = snd (ExtractLocale (Some pu) localeConfig))
                     | _ => True
                     end).
  assert (HQ : Forall Q tr /\ NoDup (fetchKeys tr)).
  { subst tr; destruct (Fetch_cases E outputDir maxDepth localeConfig targetURL)
      as [[_ ->] | [pu (_ & _ & _ & _ & _ & ->)]]; [split; constructor|]; cbn [snd].
    split.
    - destruct (crawl_ext E (Host pu) maxDepth localeConfig (Join [outputDir; "crawl"]) Q)
        with (fuel := S (S maxDepth)) (st := initState) (u := defaultScheme targetURL) (d := 0)
        as [n [Hn Fn]]; try (intros; exact I).
      + intros Hl u d; split; [reflexivity | intros cfg Hc; rewrite Hl in Hc; discriminate].
      + intros cfg Hl x u pu' d Hp; split; [rewrite Hl; discriminate|].
        intros; exists u, pu'; split; [exact Hp | reflexivity].
      + rewrite Hn, app_nil_r; exact Fn.
    - apply (crawl_inv E (Host pu) maxDepth localeConfig (Join [outputDir; "crawl"])).
      split; [constructor | intros x []]. }
  destruct HQ as [HQ Hnd]; split; [exact Hnd|]; split.
  - intros Hl.
    assert (Heq : fetchURLs tr = fetchKeys tr).
    { apply fetchURLs_fetchKeys; eapply Forall_impl; [|exact HQ].
      intros [] H; [exact I | exact I | apply (proj1 H Hl)]. }
    rewrite Heq; split; [exact Hnd | reflexivity].
  - intros cfg Hl; apply Forall_fetchKeys; eapply Forall_impl; [|exact HQ].
    intros [] H; [exact I | exact I | apply (proj2 H cfg Hl)].
Qed.

(** C3: a call at [depth] logs itself first; every call it makes, directly or
    not, is at a depth of at least [depth + 1], every page it requests is at a
    depth between [depth] and [maxDepth], and a call with [depth > maxDepth]
    does nothing else. Hence no page of a [Fetch] is requested at a depth above
    [maxDepth]. The fuel bounds nothing: with fuel covering the remaining
    depth budget, more fuel gives the same result. *)
Theorem crawl_depth_bound :
  (forall E domain maxDepth localeConfig crawlDir fuel st u d,
     exists rest,
       trace (fst (crawl E domain maxDepth localeConfig crawlDir (S fuel) st u d))
         = rest ++ ECall u d :: trace st
       /\ Forall (below maxDepth d) rest /\ (maxDepth < d -> rest = []))
  /\ (forall E outputDir maxDepth localeConfig targetURL,
        Forall (fun d => d <= maxDepth)
          (fetchDepths (trace (snd (Fetch E outputDir maxDepth localeConfig targetURL)))))
  /\ (forall E domain maxDepth localeConfig crawlDir f1 f2 st u d,
        1 <= f1 -> maxDepth + 2 <= d + f1 -> f1 <= f2 ->
        crawl E domain maxDepth localeConfig crawlDir f1 st u d
        = crawl E domain maxDepth localeConfig crawlDir f2 st u d).
Proof.
  split; [|split].
  - intros; apply crawl_shape.
  - intros E outputDir maxDepth localeConfig targetURL.
    destruct (Fetch_cases E outputDir maxDepth localeConfig targetURL)
      as [[_ ->] | [pu (_ & _ & _ & _ & _ & ->)]]; [constructor|]; cbn [snd].
    destruct (crawl_shape E (Host pu) maxDepth localeConfig (Join [outputDir; "crawl"])
                (S maxDepth) initState (defaultScheme targetURL) 0) as [r [Hr [Fr _]]].
    rewrite Hr; unfold fetchDepths; rewrite flat_map_app; cbn [flat_map trace initState app].
    rewrite app_nil_r; exact (Forall_fetchDepths maxDepth 0 r Fr).
  - intros; apply crawl_fuel; assumption.
Qed.

(** C7: [Fetch] reports an error exactly when a setup step fails: the start
    URL (after the https:// default) does not parse, its scheme is not http or
    https, its host is empty, removing the crawl directory fails with an error
    other than not-exist, or creating it fails. The crawl never reports one:
    [crawl] returns nil on every input, whatever the server, the file system or
    the links do, and a page's links are each crawled in turn, whatever
    happened to the ones before them. *)
Theorem Fetch_errors_only_from_setup :
  (forall E outputDir maxDepth localeConfig targetURL,
     fst (Fetch E outputDir maxDepth localeConfig targetURL) = None
     <-> exists pu, Parse (defaultScheme targetURL) = Some pu
                    /\ (Scheme pu = "http" \/ Scheme pu = "https") /\ Host pu <> ""
                    /\ removeAllResult E <> Some ErrOtherIO
                    /\ mkdirAllOk E (Join [outputDir; "crawl"]) = true)
  /\ (forall E outputDir maxDepth localeConfig targetURL msg,
        fst (Fetch E outputDir maxDepth localeConfig targetURL) <> Some (ErrCrawl msg))
  /\ (forall E domain maxDepth localeConfig crawlDir fuel st u d,
        snd (crawl E domain maxDepth localeConfig crawlDir fuel st u d) = None)
  /\ (forall E domain maxDepth localeConfig crawlDir fuel st links d l,
        In l links ->
        In (ECall l (S d))
           (trace (crawlLinks (crawl E domain maxDepth localeConfig crawlDir (S fuel))
                     st links d))).
Proof.
  split; [|split; [|split]].
  - intros E outputDir maxDepth localeConfig targetURL; split.
    + intros H0; destruct (Fetch_cases E outputDir maxDepth localeConfig targetURL)
        as [[Hne _] | [pu (Hp & Hs & Hh & Hr & Hm & _)]]; [contradiction|].
      exists pu; repeat split; assumption.
    + intros [pu (Hp & Hs & Hh & Hr & Hm)]; unfold Fetch; cbv zeta; rewrite Hp.
      replace (negb (String.eqb (Scheme pu) "http") && negb (String.eqb (Scheme pu) "https"))
        with false by (destruct Hs as [-> | ->]; reflexivity).
      destruct (String.eqb_spec (Host pu) "") as [He|_]; [contradiction|].
      destruct (removeAllResult E) as [[]|]; [| |]; try (exfalso; apply Hr; reflexivity);
        rewrite Hm; cbn [negb];
        pose proof (crawl_nil E (Host pu) maxDepth localeConfig (Join [outputDir; "crawl"])
                      (S (S maxDepth)) initState (defaultScheme targetURL) 0) as Hn;
        destruct (crawl _ _ _ _ _ _ _ _ _) as [st err]; cbn in Hn; subst err; reflexivity.
  - intros E outputDir maxDepth localeConfig targetURL msg.
    destruct (Fetch_cases E outputDir maxDepth localeConfig targetURL)
      as [_ | [pu (_ & _ & _ & _ & _ & ->)]]; [|discriminate].
    unfold Fetch; cbv zeta.
    destruct (Parse _) as [pu|]; [|discriminate].
    destruct (_ && _); [discriminate|].
    destruct (String.eqb _ _); [discriminate|].
    destruct (removeAllResult E) as [[]|]; try discriminate;
      destruct (negb _); try discriminate;
      match goal with
      | |- context [crawl ?a ?b ?c ?d ?e ?f ?g ?h ?i] =>
          pose proof (crawl_nil a b c d e f g h i) as Hn; destruct (crawl a b c d e f g h i)
      end; cbn in Hn; subst; discriminate.
  - intros; apply crawl_nil.
  - intros; apply crawlLinks_calls; assumption.
Qed.

(** C8: in locale mode, when the candidates before locale [l] in the priority
    list were neither found nor answered with an abort status, and the
    candidate for [l] answers 403, 429 or a 5xx status, the canonical path is
    given up: no later locale is probed, the original URL is not probed and no
    page is requested. When no candidate is found and none answers with an
    abort status (all answer 404, say, or cannot be reached), the original URL
    is probed last, and requested only if that probe finds it. *)
Theorem crawlWithLocalePriority_abort_or_fallback :
  (forall E domain crawlDir cfg rec st originalURL canonical depth pu pre l post code,
     let cand := fun l' => BuildLocaleURL (Scheme pu ++ "://" ++ Host pu)%string l'
                             canonical (Some cfg) in
     Parse originalURL = Some pu -> Host pu = domain ->
     isNonHTMLResource originalURL = false -> robotsAllowed E originalURL = true ->
     localePriority cfg = pre ++ l :: post ->
     (forall l', In l' pre -> exists c, checkURLExists E (cand l') = (false, c)
                                        /\ (c = 404 \/ c = 0 \/ abortStatus c = false)) ->
     checkURLExists E (cand l) = (false, code) -> (code = 403 \/ code = 429 \/ 500 <= code) ->
     crawlWithLocalePriority E domain crawlDir cfg rec st originalURL canonical depth
     = (recordProbes (map cand (pre ++ [l])) st, None))
  /\ (forall E domain crawlDir cfg rec st originalURL canonical depth pu,
     let cand := fun l' => BuildLocaleURL (Scheme pu ++ "://" ++ Host pu)%string l'
                             canonical (Some cfg) in
     Parse originalURL = Some pu -> Host pu = domain ->
     isNonHTMLResource originalURL = false -> robotsAllowed E originalURL = true ->
     (forall l', In l' (localePriority cfg) ->
        exists c, checkURLExists E (cand l') = (false, c)
                  /\ (c = 404 \/ c = 0 \/ abortStatus c = false)) ->
     crawlWithLocalePriority E domain crawlDir cfg rec st originalURL canonical depth
     = let st1 := record (EProbe originalURL) (recordProbes (map cand (localePriority cfg)) st) in
       if fst (checkURLExists E originalURL)
       then fetchPage E crawlDir rec st1 originalURL canonical pu depth
       else (st1, None)).
Proof.
  split.
  - intros E domain crawlDir cfg rec st originalURL canonical depth pu pre l post code cand
      Hp Hh Hn Hr Hprio Hpre Hl Hcode.
    unfold crawlWithLocalePriority; rewrite Hp.
    replace (String.eqb (Host pu) domain) with true by (symmetry; apply String.eqb_eq, Hh).
    rewrite Hn, Hr; cbn [negb]; cbv zeta.
    rewrite Hprio, (probeLocales_abort E cfg _ canonical pre l post code Hpre Hl Hcode st).
    reflexivity.
  - intros E domain crawlDir cfg rec st originalURL canonical depth pu cand Hp Hh Hn Hr Hprio.
    unfold crawlWithLocalePriority; rewrite Hp.
    replace (String.eqb (Host pu) domain) with true by (symmetry; apply String.eqb_eq, Hh).
    rewrite Hn, Hr; cbn [negb]; cbv zeta.
    rewrite (probeLocales_exhausted E cfg _ canonical (localePriority cfg) Hprio st).
    cbn iota beta; cbn [String.eqb].
    destruct (checkURLExists E originalURL) as [[] c]; reflexivity.
Qed.

End CrawlSpec.

Module NamingSpec.
Import Url FilePath Naming.

(** C9: the file path of a fetched page does not always lie under
    <output>/crawl/<host>/, nor always end in .html. With output directory
    "out", the start URL https://example.com/a/../../../x is saved to
    out/x.html, since url.Parse keeps the dot segments and filepath.Join
    cleans them away above the host directory; so is
    https://example.com/%2e%2e/%2e%2e/x, whose escaped dots survive link
    resolution. https://example.com/docs?v=1.2 is saved to
    out/crawl/example.com/docs_q_v_1.2, with no .html: filepath.Ext takes ".2"
    from the query value for an extension. *)
Theorem getFilePath_outside_crawl_dir :
  option_map (getFilePath (Join ["out"; "crawl"])) (Parse "https://example.com/a/../../../x")
    = Some "out/x.html"
  /\ option_map (getFilePath (Join ["out"; "crawl"]))
       (Parse "https://example.com/%2e%2e/%2e%2e/x") = Some "out/x.html"
  /\ option_map (getFilePath (Join ["out"; "crawl"])) (Parse "https://example.com/docs?v=1.2")
       = Some "out/crawl/example.com/docs_q_v_1.2".
Proof. vm_compute; repeat split. Qed.

End NamingSpec.

Module ServerFacts.
Import ServerFlags StringFacts RoundTrip UrlFacts.

Lemma dropBlanks_idem (l : list ascii) : dropBlanks (dropBlanks l) = dropBlanks l.
Proof.
  induction l as [|c l IH]; [reflexivity|]; cbn [dropBlanks].
  destruct (isBlank c) eqn:Hc; [exact IH|]; cbn [dropBlanks]; rewrite Hc; reflexivity.
Qed.

Lemma dropBlanks_app (x y : list ascii) :
  dropBlanks (x ++ y)%list
  = match dropBlanks x with [] => dropBlanks y | _ => (dropBlanks x ++ y)%list end.
Proof.
  induction x as [|c x IH]; [reflexivity|]; cbn [dropBlanks app].
  destruct (isBlank c); [exact IH | reflexivity].
Qed.

Lemma dropBlanks_head (c : ascii) (l : list ascii) :
  isBlank c = false -> dropBlanks (c :: l) = c :: l.
Proof. intros H; cbn; rewrite H; reflexivity. Qed.

Lemma dropBlanks_length (l : list ascii) : length (dropBlanks l) <= length l.
Proof. induction l as [|d l IH]; cbn; [lia|]; destruct (isBlank d); cbn; lia. Qed.

(** trimming the end of a list that starts with a non-blank keeps that start *)
Lemma dropBlanks_rev_trim (a : list ascii) :
  dropBlanks a = a -> dropBlanks (rev (dropBlanks (rev a))) = rev (dropBlanks (rev a)).
Proof.
  destruct a as [|c a]; [reflexivity|]; intros Ha.
  assert (Hc : isBlank c = false).
  { cbn in Ha; destruct (isBlank c) eqn:Hc; [|reflexivity].
    exfalso; pose proof (dropBlanks_length a) as Hl.
    rewrite Ha in Hl; cbn in Hl; lia. }
  cbn [rev]; rewrite dropBlanks_app.
  destruct (dropBlanks (rev a)) as [|d r] eqn:Hd.
  - rewrite (dropBlanks_head c []) by exact Hc; cbn [rev app].
    rewrite (dropBlanks_head c []) by exact Hc; reflexivity.
  - rewrite <- Hd, rev_app_distr; cbn [rev app]; rewrite !dropBlanks_head by exact Hc;
      reflexivity.
Qed.

Lemma trimSpace_idem (s : string) : trimSpace (trimSpace s) = trimSpace s.
Proof.
  unfold trimSpace; rewrite list_ascii_of_string_of_list_ascii.
  set (a := dropBlanks (list_ascii_of_string s)).
  assert (Ha : dropBlanks a = a) by apply dropBlanks_idem.
  rewrite (dropBlanks_rev_trim a Ha), rev_involutive, dropBlanks_idem; reflexivity.
Qed.

Lemma In_dropBlanks (c : ascii) (l : list ascii) : In c (dropBlanks l) -> In c l.
Proof.
  induction l as [|d l IH]; cbn [dropBlanks]; [tauto|].
  destruct (isBlank d); [intros H; right; auto | tauto].
Qed.

Lemma lacks_chars (c : ascii) (s : string) :
  lacks c s = true <-> ~ In c (list_ascii_of_string s).
Proof.
  unfold lacks; rewrite forallb_forall; split.
  - intros H Hin; specialize (H c Hin); rewrite Ascii.eqb_refl in H; discriminate.
  - intros H d Hd; destruct (Ascii.eqb d c) eqn:E; [|reflexivity].
    apply Ascii.eqb_eq in E; subst; contradiction.
Qed.

Lemma trimSpace_lacks (c : ascii) (s : string) : lacks c s = true -> lacks c (trimSpace s) = true.
Proof.
  rewrite !lacks_chars; unfold trimSpace; rewrite list_ascii_of_string_of_list_ascii.
  intros H Hin; apply H.
  apply in_rev, In_dropBlanks, in_rev, In_dropBlanks in Hin; exact Hin.
Qed.

Lemma splitLoop_lacks (s seg t : string) :
  lacks "," seg = true -> In t (splitLoop s seg) -> lacks "," t = true.
Proof.
  revert seg; induction s as [|c s IH]; intros seg Hseg Hin; cbn [splitLoop] in Hin.
  - destruct Hin as [<- | []]; exact Hseg.
  - destruct (Ascii.eqb c ",") eqn:Hc.
    + destruct Hin as [<- | Hin]; [exact Hseg | exact (IH "" eq_refl Hin)].
    + refine (IH _ _ Hin); rewrite lacks_app, Hseg; cbn [lacks forallb list_ascii_of_string].
      rewrite Hc; reflexivity.
Qed.

Lemma splitLoop_app (t rest seg : string) :
  lacks "," t = true -> splitLoop (t ++ rest) seg = splitLoop rest (seg ++ t).
Proof.
  revert seg; induction t as [|c t IH]; intros seg Ht.
  - rewrite app_empty_str; reflexivity.
  - rewrite lacks_cons in Ht; apply andb_prop in Ht as [Hc Ht].
    cbn [append splitLoop]; rewrite eqb_ascii_sym; destruct (Ascii.eqb "," c); [discriminate|].
    rewrite IH by exact Ht; rewrite app_assoc_str; reflexivity.
Qed.

Lemma splitByComma_concat (x : string) (xs : list string) :
  Forall (fun t => lacks "," t = true) (x :: xs) ->
  splitByComma (String.concat "," (x :: xs)) = x :: xs.
Proof.
  unfold splitByComma; revert x; induction xs as [|y ys IH]; intros x Hf;
    inversion Hf as [|? ? Hx Hr]; subst.
  - cbn [String.concat]; rewrite <- (app_empty_str x) at 1.
    rewrite splitLoop_app by exact Hx; reflexivity.
  - change (String.concat "," (x :: y :: ys)) with (x ++ "," ++ String.concat "," (y :: ys)).
    rewrite splitLoop_app by exact Hx; cbn [append splitLoop Ascii.eqb].
    rewrite IH by exact Hr; reflexivity.
Qed.

End ServerFacts.

Module ServerSpec.
Import ServerFlags RoundTrip ServerFacts.

(** X11. Every locale [parseLocales] returns is non-empty, contains no comma
    and has no leading or trailing blank or tab ([trimSpace] leaves it as it is). *)
Theorem parseLocales_items_clean (s t : string) :
  In t (parseLocales s) -> t <> "" /\ lacks "," t = true /\ trimSpace t = t.
Proof.
  unfold parseLocales; destruct (String.eqb s "") ; [intros []|].
  rewrite filter_In, in_map_iff; intros [[t0 [<- Hin]] Hne]; split; [|split].
  - intros He; rewrite He in Hne; discriminate.
  - apply trimSpace_lacks, (splitLoop_lacks s ""); [reflexivity | exact Hin].
  - apply trimSpace_idem.
Qed.

(** X12. Joining clean locales with commas and parsing the result gives the
    locales back. *)
Theorem parseLocales_join (xs : list string) :
  Forall (fun t => t <> "" /\ lacks "," t = true /\ trimSpace t = t) xs ->
  parseLocales (String.concat "," xs) = xs.
Proof.
  intros Hf; destruct xs as [|x xs]; [reflexivity|].
  unfold parseLocales.
  assert (Hne : String.eqb (String.concat "," (x :: xs)) "" = false).
  { inversion Hf as [|? ? [Hx _] _]; subst.
    destruct xs as [|y ys]; cbn [String.concat].
    - apply String.eqb_neq; exact Hx.
    - destruct x as [|c x]; [contradiction | reflexivity]. }
  rewrite Hne; cbn [negb].
  rewrite splitByComma_concat
    by (eapply Forall_impl; [|exact Hf]; intros t [_ [H _]]; exact H).
  clear Hne; induction Hf as [|t ts [Ht [_ Htr]] _ IH]; [reflexivity|].
  cbn [map filter]; rewrite Htr; apply String.eqb_neq in Ht; rewrite Ht; cbn [negb].
  f_equal; exact IH.
Qed.

End ServerSpec.
Module HreflangFacts.
Import Hreflang Observations.

Section NodeInd.
Variable P : Node -> Prop.
Hypothesis HN : forall t d a cs, Forall P cs -> P (mkNode t d a cs).

Lemma Node_ind' : forall n, P n.
Proof.
  fix IH 1; intros [t d a cs]; apply HN; revert cs.
  fix IHl 1; intros [|c cs]; constructor; [apply IH | apply IHl].
Qed.
End NodeInd.

Lemma lowerChar_idem (c : ascii) : lowerChar (lowerChar c) = lowerChar c.
Proof. destruct c as [[] [] [] [] [] [] [] []]; reflexivity. Qed.

Lemma toLower_idem (s : string) : toLower (toLower s) = toLower s.
Proof. induction s as [|c s IH]; cbn; [reflexivity|]; rewrite lowerChar_idem, IH; reflexivity. Qed.

Lemma mapLookup_mapSet (m : list (string * string)) (k v k' : string) :
  mapLookup (mapSet m k v) k' = if String.eqb k k' then Some v else mapLookup m k'.
Proof.
  induction m as [|[k0 v0] m IH]; cbn [mapSet mapLookup]; [reflexivity|].
  destruct (String.eqb_spec k0 k) as [-> | Hne]; cbn [mapLookup].
  - destruct (String.eqb k k'); reflexivity.
  - rewrite IH; destruct (String.eqb_spec k k') as [-> | Hk]; [|reflexivity].
    destruct (String.eqb_spec k0 k') as [-> | _]; [contradiction | reflexivity].
Qed.

Lemma keys_mapSet (m : list (string * string)) (k v : string) :
  map fst (mapSet m k v)
  = if existsb (String.eqb k) (map fst m) then map fst m else (map fst m ++ [k])%list.
Proof.
  induction m as [|[k0 v0] m IH]; cbn [mapSet map existsb fst]; [reflexivity|].
  destruct (String.eqb_spec k0 k) as [-> | Hne].
  - rewrite String.eqb_refl; reflexivity.
  - cbn [map fst]; rewrite IH; destruct (String.eqb_spec k k0) as [-> | _]; [contradiction|].
    cbn [orb]; destruct (existsb _ _); reflexivity.
Qed.

Lemma NoDup_mapSet (m : list (string * string)) (k v : string) :
  NoDup (map fst m) -> NoDup (map fst (mapSet m k v)).
Proof.
  intros Hnd; rewrite keys_mapSet; destruct (existsb (String.eqb k) (map fst m)) eqn:He;
    [exact Hnd|].
  apply NoDup_app; [exact Hnd | repeat constructor; intros [] |].
  intros x Hx [Hkx | []]; subst k.
  assert (Hx' : existsb (String.eqb x) (map fst m) = true)
    by (apply existsb_exists; exists x; split; [exact Hx | apply String.eqb_refl]).
  congruence.
Qed.

Lemma extract_step (n : Node) (result : list (string * string)) :
  extract n result
  = fold_left (fun r c => extract c r) (Children n)
      (match linkEntry n with Some (k, v) => mapSet result k v | None => result end).
Proof.
  destruct n as [t d a cs]; unfold linkEntry; cbn [extract Type_ Data Attr Children].
  destruct (isElementNode t && String.eqb d "link"); [|reflexivity].
  destruct (linkAttrs a) as [[rel hl] href]; destruct (_ && _ && _); reflexivity.
Qed.

Lemma extract_lookup (k : string) : forall n result,
  mapLookup (extract n result) k
  = fold_left (fun acc '(k', v) => if String.eqb k' k then Some v else acc)
              (hreflangLinks n) (mapLookup result k).
Proof.
  intros n; induction n as [t d a cs Hcs] using Node_ind'; intros result.
  assert (Hkids : forall r, mapLookup (fold_left (fun r c => extract c r) cs r) k
            = fold_left (fun acc '(k', v) => if String.eqb k' k then Some v else acc)
                        (flat_map hreflangLinks cs) (mapLookup r k)).
  { clear result; induction Hcs as [|c cs Hc _ IH]; intros r; [reflexivity|].
    cbn [fold_left flat_map]; rewrite IH, Hc, fold_left_app; reflexivity. }
  rewrite extract_step; cbn [Children hreflangLinks]; rewrite fold_left_app, Hkids.
  destruct (linkEntry (mkNode t d a cs)) as [[k0 v]|]; [|reflexivity].
  rewrite mapLookup_mapSet; reflexivity.
Qed.

Lemma extract_nodup : forall n result,
  NoDup (map fst result) -> NoDup (map fst (extract n result)).
Proof.
  intros n; induction n as [t d a cs Hcs] using Node_ind'; intros result Hr.
  rewrite extract_step; cbn [Children].
  assert (H0 : NoDup (map fst (match linkEntry (mkNode t d a cs) with
                               | Some (k, v) => mapSet result k v | None => result end)))
    by (destruct (linkEntry _) as [[k v]|]; [apply NoDup_mapSet|]; exact Hr).
  revert H0; generalize (match linkEntry (mkNode t d a cs) with
                         | Some (k, v) => mapSet result k v | None => result end).
  induction Hcs as [|c cs Hc _ IH]; intros r Hr'; [exact Hr'|].
  cbn [fold_left]; apply IH, Hc, Hr'.
Qed.

Lemma fold_step_some (k : string) (l : list (string * string)) (acc : option string) (v : string) :
  fold_left (fun acc '(k', v) => if String.eqb k' k then Some v else acc) l acc = Some v ->
  acc = Some v \/ In (k, v) l.
Proof.
  revert acc; induction l as [|[k' v'] l IH]; intros acc H; [left; exact H|].
  cbn [fold_left] in H; apply IH in H as [H | H]; [|right; right; exact H].
  destruct (String.eqb_spec k' k) as [-> | _]; [injection H as ->; right; left; reflexivity|].
  left; exact H.
Qed.

Lemma hreflangLinks_lower : forall n k v, In (k, v) (hreflangLinks n) -> toLower k = k.
Proof.
  intros n; induction n as [t d a cs Hcs] using Node_ind'; intros k v Hin; cbn [hreflangLinks] in Hin.
  apply in_app_or in Hin as [Hin | Hin].
  - unfold linkEntry in Hin; cbn [Type_ Data Attr] in Hin.
    destruct (isElementNode t && String.eqb d "link"); [|destruct Hin].
    destruct (linkAttrs a) as [[rel hl] href]; destruct (_ && _ && _); [|destruct Hin].
    destruct Hin as [Heq | []]; injection Heq as <- _; apply toLower_idem.
  - apply in_flat_map in Hin as [c [Hc Hin]].
    exact (proj1 (Forall_forall _ _) Hcs c Hc k v Hin).
Qed.

Lemma mapLookup_In (m : list (string * string)) (k v : string) :
  mapLookup m k = Some v -> In (k, v) m.
Proof.
  induction m as [|[k0 v0] m IH]; cbn [mapLookup]; [discriminate|].
  destruct (String.eqb_spec k0 k) as [-> | _]; [intros [=->]; left; reflexivity|].
  intros H; right; exact (IH H).
Qed.

Lemma mapLookup_key (m : list (string * string)) (k : string) :
  In k (map fst m) -> exists v, mapLookup m k = Some v.
Proof.
  induction m as [|[k0 v0] m IH]; cbn [map fst mapLookup]; [intros []|].
  destruct (String.eqb_spec k0 k) as [-> | Hne]; [exists v0; reflexivity|].
  intros [-> | H]; [contradiction | exact (IH H)].
Qed.

End HreflangFacts.

Module HreflangSpec.
Import Hreflang Observations HreflangFacts.

(** X7. [ExtractHreflang] returns a map with distinct keys, all lower case;
    the value at a key is the [href] of the last qualifying [link] element
    (in document order) whose lower-cased [hreflang] is that key. *)
Theorem ExtractHreflang_last_link_wins (doc : option Node) (k : string) :
  let links := match doc with Some d => hreflangLinks d | None => [] end in
  NoDup (map fst (ExtractHreflang doc))
  /\ Forall (fun k => toLower k = k) (map fst (ExtractHreflang doc))
  /\ mapLookup (ExtractHreflang doc) k = lastValue k links.
Proof.
  intros links.
  assert (Hlk : forall k, mapLookup (ExtractHreflang doc) k = lastValue k links).
  { intros k'; subst links; destruct doc as [d|]; [|reflexivity].
    unfold ExtractHreflang, lastValue; rewrite extract_lookup; reflexivity. }
  split; [|split; [|apply Hlk]].
  - destruct doc as [d|]; [apply extract_nodup|]; constructor.
  - apply Forall_forall; intros k' Hk'.
    destruct (mapLookup_key _ _ Hk') as [v Hv]; rewrite Hlk in Hv.
    unfold lastValue in Hv; apply fold_step_some in Hv as [Hv | Hv]; [discriminate|].
    subst links; destruct doc as [d|]; [exact (hreflangLinks_lower d k' v Hv) | destruct Hv].
Qed.

(** X8. [SelectPreferredLocaleURL] returns [("", "")] for an empty map and
    otherwise one of the map's entries, whatever the priority list. *)
Theorem SelectPreferredLocaleURL_entry (m : list (string * string)) (priority : list string) :
  (m = [] -> SelectPreferredLocaleURL m priority = ("", ""))
  /\ (m <> [] -> In (SelectPreferredLocaleURL m priority) m).
Proof.
  split; intros Hm; [subst; reflexivity|].
  destruct m as [|f r]; [contradiction|]; unfold SelectPreferredLocaleURL.
  induction priority as [|l p IH]; cbv beta iota fix; [left; reflexivity|].
  destruct (mapLookup (f :: r) l) as [u|] eqn:H1; [exact (mapLookup_In _ _ _ H1)|].
  destruct (mapLookup (f :: r) (l ++ "-" ++ l)) as [u|] eqn:H2;
    [exact (mapLookup_In _ _ _ H2) | exact IH].
Qed.

(** X9. The first priority locale [l] for which the map has the key [l] or,
    failing that, the key [l ++ "-" ++ l] (e.g. "ja-ja", not "ja-jp") is the
    one selected, with its URL. *)
Theorem SelectPreferredLocaleURL_first_priority (m : list (string * string))
    (pre post : list string) (loc u : string) :
  Forall (fun l => mapLookup m l = None /\ mapLookup m (l ++ "-" ++ l) = None) pre ->
  (mapLookup m loc = Some u ->
     SelectPreferredLocaleURL m (pre ++ loc :: post) = (loc, u))
  /\ (mapLookup m loc = None -> mapLookup m (loc ++ "-" ++ loc) = Some u ->
     SelectPreferredLocaleURL m (pre ++ loc :: post) = (loc ++ "-" ++ loc, u)).
Proof.
  intros Hpre; split; [intros H1 | intros H1 H2];
    (destruct m as [|f r]; [discriminate|]); unfold SelectPreferredLocaleURL;
    (induction Hpre as [|l pre [Hl1 Hl2] _ IH]; cbn [app]; cbv beta iota fix;
     [| rewrite Hl1, Hl2; exact IH]).
  - rewrite H1; reflexivity.
  - rewrite H1, H2; reflexivity.
Qed.

(** X10. [NormalizeLocale] returns lower-case codes, ignores the case of its
    input and maps every code it returns to itself. *)
Theorem NormalizeLocale_canonical (s : string) :
  toLower (NormalizeLocale s) = NormalizeLocale s
  /\ NormalizeLocale (toLower s) = NormalizeLocale s
  /\ NormalizeLocale (NormalizeLocale s) = NormalizeLocale s.
Proof.
  assert (Hcase : NormalizeLocale (toLower s) = NormalizeLocale s)
    by (unfold NormalizeLocale; rewrite toLower_idem; reflexivity).
  assert (Hshape : In (NormalizeLocale s) ["ja"; "en"; "zh-cn"; "zh-tw"]
                   \/ NormalizeLocale s = toLower s).
  { unfold NormalizeLocale.
    destruct (String.eqb (toLower s) "ja-jp"); [left; left; reflexivity|].
    destruct (String.eqb (toLower s) "en-us" || String.eqb (toLower s) "en-gb");
      [left; right; left; reflexivity|].
    destruct (String.eqb (toLower s) "zh-hans" || String.eqb (toLower s) "zh-cn");
      [left; right; right; left; reflexivity|].
    destruct (String.eqb (toLower s) "zh-hant" || String.eqb (toLower s) "zh-tw");
      [left; right; right; right; left; reflexivity | right; reflexivity]. }
  split; [|split; [exact Hcase|]].
  - destruct Hshape as [Hin | ->]; [|apply toLower_idem].
    destruct Hin as [<- | [<- | [<- | [<- | []]]]]; reflexivity.
  - destruct Hshape as [Hin | Heq]; [|rewrite Heq at 1; exact Hcase].
    destruct Hin as [<- | [<- | [<- | [<- | []]]]]; reflexivity.
Qed.

End HreflangSpec.
Module CheckerFacts.
Import Url Robots RobotsChecker Observations StringFacts UrlFacts RoundTrip.

Lemma app_inv_tail_str (a b c : string) : a ++ c = b ++ c -> a = b.
Proof.
  intros H; apply (f_equal list_ascii_of_string) in H; rewrite !chars_app in H.
  apply app_inv_tail in H.
  rewrite <- (string_of_list_ascii_of_string a), <- (string_of_list_ascii_of_string b), H.
  reflexivity.
Qed.

Lemma getRules_base (get : robotsGet) (r : checker) (s1 h1 s2 h2 : string) :
  s1 ++ "://" ++ h1 = s2 ++ "://" ++ h2 -> getRules get r s1 h1 = getRules get r s2 h2.
Proof.
  intros Heq.
  assert (A1 : forall X, s1 ++ "://" ++ h1 ++ X = (s1 ++ "://" ++ h1) ++ X)
    by (intros; rewrite !app_assoc_str; reflexivity).
  assert (A2 : forall X, s2 ++ "://" ++ h2 ++ X = (s2 ++ "://" ++ h2) ++ X)
    by (intros; rewrite !app_assoc_str; reflexivity).
  unfold getRules.
  rewrite (A1 "/robots.txt"), (A1 (basePath r ++ "/robots.txt")),
          (A2 "/robots.txt"), (A2 (basePath r ++ "/robots.txt")), Heq.
  reflexivity.
Qed.

Lemma cacheKeyOf_inj (r : checker) (s1 h1 s2 h2 : string) :
  cacheKeyOf r s1 h1 = cacheKeyOf r s2 h2 -> s1 ++ "://" ++ h1 = s2 ++ "://" ++ h2.
Proof.
  unfold cacheKeyOf; destruct (negb _); [apply app_inv_tail_str | exact id].
Qed.

(** a miss computes what an empty cache computes and caches it *)
Lemma getRules_miss (get : robotsGet) (r : checker) (s h : string) :
  cacheLookup (cache r) (cacheKeyOf r s h) = None ->
  getRules get r s h
  = (fst (fst (getRules get (freshChecker r) s h)),
     mkChecker ((cacheKeyOf r s h, fst (fst (getRules get (freshChecker r) s h))) :: cache r)
               (userAgent r) (basePath r),
     snd (getRules get (freshChecker r) s h)).
Proof.
  intros Hc; unfold getRules; fold (cacheKeyOf r s h); rewrite Hc.
  cbn [cache basePath freshChecker cacheLookup].
  unfold fetchRobotsTxt; cbn [userAgent freshChecker].
  destruct (get (s ++ "://" ++ h ++ "/robots.txt")) as [[st ls]|];
    [destruct (negb (Nat.eqb st 200))|]; cbn [fst snd];
    try reflexivity;
    destruct (negb (String.eqb (basePath r) "")); reflexivity.
Qed.

Lemma getRules_hit (get : robotsGet) (r : checker) (s h : string) (v : option robotsRules) :
  cacheLookup (cache r) (cacheKeyOf r s h) = Some v -> getRules get r s h = (v, r, []).
Proof. intros Hc; unfold getRules; fold (cacheKeyOf r s h); rewrite Hc; reflexivity. Qed.

Lemma getRules_cached (get : robotsGet) (r : checker) (s h : string) :
  let r' := snd (fst (getRules get r s h)) in
  cacheLookup (cache r') (cacheKeyOf r' s h) = Some (fst (fst (getRules get r s h)))
  /\ userAgent r' = userAgent r /\ basePath r' = basePath r.
Proof.
  destruct (cacheLookup (cache r) (cacheKeyOf r s h)) as [v|] eqn:Hc.
  - rewrite (getRules_hit get r s h v Hc); cbn; auto.
  - rewrite (getRules_miss get r s h Hc); cbn [fst snd cache userAgent basePath cacheLookup].
    change (cacheKeyOf (mkChecker ?c (userAgent r) (basePath r)) s h)
      with (cacheKeyOf r s h).
    rewrite String.eqb_refl; auto.
Qed.

Lemma getRules_coherent (get : robotsGet) (r : checker) (s h : string) :
  coherent get r ->
  fst (fst (getRules get r s h)) = fst (fst (getRules get (freshChecker r) s h))
  /\ coherent get (snd (fst (getRules get r s h)))
  /\ freshChecker (snd (fst (getRules get r s h))) = freshChecker r.
Proof.
  intros Hcoh; destruct (cacheLookup (cache r) (cacheKeyOf r s h)) as [v|] eqn:Hc.
  - rewrite (getRules_hit get r s h v Hc); cbn [fst snd]; split; [apply (Hcoh s h v Hc)|].
    split; [exact Hcoh | reflexivity].
  - rewrite (getRules_miss get r s h Hc); cbn [fst snd]; split; [reflexivity|].
    split; [|reflexivity].
    intros s' h' v'.
    change (cacheKeyOf (mkChecker ?c (userAgent r) (basePath r)) s' h')
      with (cacheKeyOf r s' h').
    change (freshChecker (mkChecker ?c (userAgent r) (basePath r))) with (freshChecker r).
    cbn [cache cacheLookup].
    destruct (String.eqb_spec (cacheKeyOf r s h) (cacheKeyOf r s' h')) as [Hk | _].
    + intros [= <-].
      rewrite (getRules_base get (freshChecker r) s h s' h' (cacheKeyOf_inj r _ _ _ _ Hk)).
      reflexivity.
    + intros Hv; apply Hcoh in Hv; exact Hv.
Qed.

Lemma cacheLookup_none_entries (c : list (string * option robotsRules)) (k : string)
    (v : option robotsRules) :
  Forall (fun e => snd e = None) c -> cacheLookup c k = Some v -> v = None.
Proof.
  induction 1 as [|[k' v'] c Hv _ IH]; cbn [cacheLookup]; [discriminate|].
  destruct (String.eqb k' k); [intros [= <-]; exact Hv | exact IH].
Qed.

Lemma trimSuffix_slash (b : string) :
  (exists x, b = x ++ "/" /\ trimSuffix b "/" = x) \/
  ((forall x, b <> x ++ "/") /\ trimSuffix b "/" = b).
Proof.
  unfold trimSuffix, hasSuffix; cbn [String.length].
  destruct (Nat.leb 1 (String.length b) && String.eqb (drop (String.length b - 1) b) "/")
    eqn:H.
  - left; apply andb_prop in H as [H1 H2]; apply Nat.leb_le in H1.
    apply String.eqb_eq in H2.
    exists (take (String.length b - 1) b); split; [|reflexivity].
    rewrite <- H2; symmetry; apply take_drop.
  - right; split; [|reflexivity]; intros x ->.
    rewrite length_app in H; cbn [String.length] in H.
    replace (String.length x + 1 - 1) with (String.length x) in H by lia.
    rewrite drop_app in H; rewrite String.eqb_refl in H.
    destruct (Nat.leb_spec 1 (String.length x + 1)); [discriminate | lia].
Qed.

Lemma ends_slash_nonempty (x : string) : x ++ "/" <> "".
Proof. destruct x; discriminate. Qed.

Lemma slash_cons_ends (t x : string) :
  "/" ++ t = x ++ "/" -> t = "" /\ x = "" \/ exists x', x = "/" ++ x' /\ t = x' ++ "/".
Proof.
  destruct x as [|c x']; cbn; intros H.
  - injection H as H1; left; split; [exact H1 | reflexivity].
  - injection H as H1 H2; right; exists x'; subst c; split; [reflexivity | exact H2].
Qed.

Lemma trimLeadingSlashes_split (s : string) :
  exists pre, s = pre ++ trimLeadingSlashes s
    /\ forallb (fun c => Ascii.eqb c "/") (list_ascii_of_string pre) = true.
Proof.
  induction s as [|c s [pre [H1 H2]]]; [exists ""; split; reflexivity|].
  cbn [trimLeadingSlashes]; destruct (Ascii.eqb c "/") eqn:Hc.
  - exists (String c pre); cbn; rewrite <- H1, Hc; split; [reflexivity | exact H2].
  - exists ""; split; reflexivity.
Qed.

Lemma string_of_app (l1 l2 : list ascii) :
  string_of_list_ascii (l1 ++ l2)%list = string_of_list_ascii l1 ++ string_of_list_ascii l2.
Proof. induction l1 as [|c l1 IH]; cbn; [reflexivity | rewrite IH; reflexivity]. Qed.

Lemma trimSlashes_split (path : string) :
  exists pre suf, path = pre ++ trimSlashes path ++ suf
    /\ forallb (fun c => Ascii.eqb c "/") (list_ascii_of_string pre) = true
    /\ forallb (fun c => Ascii.eqb c "/") (list_ascii_of_string suf) = true.
Proof.
  destruct (trimLeadingSlashes_split path) as [pre [Hp Fp]].
  set (m := trimLeadingSlashes path) in *.
  destruct (trimLeadingSlashes_split (string_of_list_ascii (rev (list_ascii_of_string m))))
    as [pre' [Hq Fq]].
  assert (Hm : list_ascii_of_string m
               = (rev (list_ascii_of_string (trimLeadingSlashes
                    (string_of_list_ascii (rev (list_ascii_of_string m)))))
                  ++ rev (list_ascii_of_string pre'))%list).
  { apply (f_equal list_ascii_of_string) in Hq.
    rewrite list_ascii_of_string_of_list_ascii, chars_app in Hq.
    rewrite <- rev_app_distr, <- Hq, rev_involutive; reflexivity. }
  exists pre, (string_of_list_ascii (rev (list_ascii_of_string pre'))).
  split; [|split; [exact Fp|]].
  - rewrite Hp at 1; f_equal.
    unfold trimSlashes; change (trimLeadingSlashes path) with m.
    rewrite <- (string_of_list_ascii_of_string m) at 1; rewrite Hm at 1; rewrite string_of_app.
    reflexivity.
  - rewrite list_ascii_of_string_of_list_ascii; apply forallb_forall; intros c Hc.
    apply in_rev in Hc; exact (proj1 (forallb_forall _ _) Fq c Hc).
Qed.

Lemma splitChar_nonempty (c : ascii) (s : string) : splitChar c s <> [].
Proof.
  induction s as [|d s IH]; cbn; [discriminate|].
  destruct (Ascii.eqb c d); [discriminate|]; destruct (splitChar c s); discriminate.
Qed.

Lemma splitChar_head (c : ascii) (s p0 : string) (rest : list string) :
  splitChar c s = p0 :: rest ->
  exists post, s = p0 ++ post /\ lacks c p0 = true
               /\ (post = "" \/ hasPrefix post (String c "") = true).
Proof.
  revert p0 rest; induction s as [|d s IH]; intros p0 rest H; cbn in H.
  - injection H as <- _; exists ""; split; [reflexivity | split; [reflexivity | left; reflexivity]].
  - destruct (Ascii.eqb c d) eqn:Hcd.
    + injection H as <- _; exists (String d s); split; [reflexivity|].
      split; [reflexivity | right; cbn [hasPrefix]; rewrite Hcd; reflexivity].
    + destruct (splitChar c s) as [|r rs] eqn:Hs; [exfalso; exact (splitChar_nonempty c s Hs)|].
      injection H as <- _; destruct (IH r rs eq_refl) as [post [-> [Hl Hp]]].
      exists post; split; [reflexivity|]; split; [|exact Hp].
      rewrite lacks_cons, Hcd, Hl; reflexivity.
Qed.

End CheckerFacts.

Module CheckerSpec.
Import Url Robots RobotsChecker Observations StringFacts UrlFacts RoundTrip CheckerFacts.

(** X1. [SetBasePath] stores [""] exactly for the inputs [""] and ["/"];
    anything else is stored with a leading ["/"], and the stored path ends
    in ["/"] exactly when the input ends in ["//"] (only one trailing slash
    is removed). The cache and user agent are kept. *)
Theorem SetBasePath_normalization (r : checker) (b : string) :
  let bp := basePath (SetBasePath r b) in
  (bp = "" <-> b = "" \/ b = "/")
  /\ (bp <> "" -> hasPrefix bp "/" = true)
  /\ ((exists x, bp = x ++ "/") <-> (exists y, b = y ++ "//"))
  /\ cache (SetBasePath r b) = cache r /\ userAgent (SetBasePath r b) = userAgent r.
Proof.
  unfold SetBasePath; cbn [basePath cache userAgent].
  destruct (String.eqb_spec b "") as [-> | Hb]; cbn [negb].
  { split; [tauto|]; split; [intros H; contradiction H; reflexivity|].
    split; [|split; reflexivity].
    split; intros [x Hx]; [exfalso; exact (ends_slash_nonempty x (eq_sym Hx))|].
    exfalso; destruct x; discriminate. }
  assert (Hb1 : exists t, (if negb (hasPrefix b "/") then "/" ++ b else b) = "/" ++ t
                 /\ (b = "/" ++ t \/ (b = t /\ hasPrefix t "/" = false))).
  { destruct (hasPrefix b "/") eqn:Hp; cbn [negb].
    - apply hasPrefix_spec in Hp as [t ->]; exists t; split; [reflexivity | left; reflexivity].
    - exists b; split; [reflexivity | right; split; [reflexivity | exact Hp]]. }
  destruct Hb1 as [t [-> Hbt]].
  split; [|split; [|split; [|split; reflexivity]]].
  - destruct (trimSuffix_slash ("/" ++ t)) as [[x [Hx ->]] | [Hx ->]].
    + split.
      * intros ->; right; destruct (slash_cons_ends t "" Hx) as [[-> _] | [x' [Hx' _]]];
          [|discriminate].
        destruct Hbt as [-> | [-> Hp]]; [reflexivity | contradiction].
      * intros [-> | ->]; [contradiction|].
        destruct Hbt as [Ht | [<- Hp]]; [|discriminate].
        injection Ht as <-; destruct (slash_cons_ends "" x Hx) as [[_ ->] | [x' [_ H]]];
          [reflexivity | exfalso; exact (ends_slash_nonempty x' (eq_sym H))].
    + split; [intros H; discriminate|].
      intros [-> | ->]; [contradiction|]; exfalso.
      destruct Hbt as [Ht | [<- Hp]]; [|discriminate].
      injection Ht as <-; exact (Hx "" eq_refl).
  - destruct (trimSuffix_slash ("/" ++ t)) as [[x [Hx ->]] | [Hx ->]]; [|reflexivity].
    intros Hne; destruct (slash_cons_ends t x Hx) as [[_ ->] | [x' [-> _]]];
      [contradiction | reflexivity].
  - assert (Hw : (exists y, b = y ++ "//") <-> (exists w, "/" ++ t = w ++ "//")).
    { split; intros [y Hy].
      - destruct Hbt as [Ht | [Ht _]]; [exists y; rewrite <- Ht; exact Hy|].
        exists ("/" ++ y); rewrite <- Ht, Hy; reflexivity.
      - destruct Hbt as [-> | [-> Hp]]; [exists y; exact Hy|].
        destruct y as [|c y']; cbn in Hy.
        + injection Hy as Ht; rewrite Ht in Hp; discriminate.
        + injection Hy as _ Ht; exists y'; exact Ht. }
    rewrite Hw; clear Hw.
    destruct (trimSuffix_slash ("/" ++ t)) as [[x [Hx ->]] | [Hx ->]].
    + split; intros [z Hz].
      * exists z; rewrite Hx, Hz, app_assoc_str; reflexivity.
      * exists z; apply (app_inv_tail_str _ _ "/"); rewrite <- Hx, Hz, app_assoc_str.
        reflexivity.
    + split; intros [z Hz]; exfalso.
      * exact (Hx z Hz).
      * apply (Hx (z ++ "/")); rewrite Hz, app_assoc_str; reflexivity.
Qed.

(** X2. The robots.txt of a scheme and host is requested at most once:
    after [IsAllowed] on one URL, [IsAllowed] on any URL with the same
    scheme and host requests nothing and leaves the checker unchanged. *)
Theorem IsAllowed_requests_robots_once (get : robotsGet) (r : checker) (u1 u2 : string)
    (p1 p2 : URL) :
  Parse u1 = Some p1 -> Parse u2 = Some p2 ->
  Scheme p2 = Scheme p1 -> Host p2 = Host p1 ->
  let r1 := snd (fst (IsAllowed get r u1)) in
  snd (IsAllowed get r1 u2) = [] /\ snd (fst (IsAllowed get r1 u2)) = r1.
Proof.
  intros H1 H2 Hs Hh; cbv zeta.
  assert (Hr1 : snd (fst (IsAllowed get r u1))
                = snd (fst (getRules get r (Scheme p1) (Host p1)))).
  { unfold IsAllowed; rewrite H1; destruct (getRules get r _ _) as [[? ?] ?]; reflexivity. }
  rewrite Hr1; destruct (getRules_cached get r (Scheme p1) (Host p1)) as [Hc _].
  set (r' := snd (fst (getRules get r (Scheme p1) (Host p1)))) in *.
  unfold IsAllowed; rewrite H2, Hs, Hh, (getRules_hit get r' _ _ _ Hc).
  split; reflexivity.
Qed.

(** X3. The cache never changes a verdict: on a checker whose cached entries
    are what an empty cache would compute (true of a new checker),
    [IsAllowed] gives the verdict of the same checker with an empty cache,
    and the checker it leaves behind again has that property. *)
Theorem IsAllowed_cache_transparent (get : robotsGet) (r : checker) (u : string) :
  coherent get r ->
  fst (fst (IsAllowed get r u)) = fst (fst (IsAllowed get (freshChecker r) u))
  /\ coherent get (snd (fst (IsAllowed get r u)))
  /\ freshChecker (snd (fst (IsAllowed get r u))) = freshChecker r.
Proof.
  intros Hcoh; unfold IsAllowed; destruct (Parse u) as [pu|]; [|cbn; auto].
  destruct (getRules_coherent get r (Scheme pu) (Host pu) Hcoh) as (H1 & H2 & H3).
  destruct (getRules get r (Scheme pu) (Host pu)) as [[x r'] q];
  destruct (getRules get (freshChecker r) (Scheme pu) (Host pu)) as [[y r''] q'];
  cbn [fst snd] in *; subst x; auto.
Qed.

(** X4. A site that serves no robots.txt (every request fails or answers
    with a status other than 200) has every URL allowed, and only empty
    rule sets are cached for it. *)
Theorem IsAllowed_without_robots_txt (get : robotsGet) (r : checker) (u : string) :
  (forall url, match get url with Some (status, _) => status <> 200 | None => True end) ->
  Forall (fun e => snd e = None) (cache r) ->
  fst (fst (IsAllowed get r u)) = true
  /\ Forall (fun e => snd e = None) (cache (snd (fst (IsAllowed get r u)))).
Proof.
  intros Hget Hc.
  assert (Hf : forall r' url, fetchRobotsTxt get r' url = None).
  { intros r' url; unfold fetchRobotsTxt; specialize (Hget url).
    destruct (get url) as [[st ls]|]; [|reflexivity].
    destruct (Nat.eqb_spec st 200); [contradiction | reflexivity]. }
  unfold IsAllowed; destruct (Parse u) as [pu|]; [|split; [reflexivity | exact Hc]].
  destruct (cacheLookup (cache r) (cacheKeyOf r (Scheme pu) (Host pu))) as [v|] eqn:Hl.
  - rewrite (getRules_hit get r _ _ v Hl); cbn [fst snd].
    rewrite (cacheLookup_none_entries _ _ _ Hc Hl); split; [reflexivity | exact Hc].
  - rewrite (getRules_miss get r _ _ Hl); cbn [fst snd cache].
    assert (Hn : fst (fst (getRules get (freshChecker r) (Scheme pu) (Host pu))) = None).
    { unfold getRules; cbn [cache cacheLookup]; rewrite !Hf.
      destruct (negb _); reflexivity. }
    rewrite Hn; split; [reflexivity | constructor; [reflexivity | exact Hc]].
Qed.

(** X5. The base path [Fetch] configures for a start path is ["/"] followed
    by the path's first segment: the path is slashes, then that non-empty
    segment without ["/"], then nothing or a ["/"]-led rest; [SetBasePath]
    stores it unchanged. *)
Theorem fetchBasePath_first_segment (path b : string) (r : checker) :
  fetchBasePath path = Some b ->
  exists pre seg post, path = pre ++ seg ++ post
    /\ forallb (fun c => Ascii.eqb c "/") (list_ascii_of_string pre) = true
    /\ seg <> "" /\ lacks "/" seg = true /\ (post = "" \/ hasPrefix post "/" = true)
    /\ b = "/" ++ seg /\ basePath (SetBasePath r b) = b.
Proof.
  unfold fetchBasePath; destruct (negb _ && negb _); [|discriminate].
  destruct (splitChar "/" (trimSlashes path)) as [|p0 rest] eqn:Hs; [discriminate|].
  destruct (String.eqb_spec p0 "") as [_ | Hp0]; [discriminate|]; cbn [negb].
  intros [= <-].
  destruct (trimSlashes_split path) as [pre [suf [Hpath [Fpre Fsuf]]]].
  destruct (splitChar_head "/" _ p0 rest Hs) as [post' [Ht [Hl Hpost]]].
  exists pre, p0, (post' ++ suf); split; [|split; [exact Fpre|]].
  { rewrite Hpath at 1; rewrite Ht, app_assoc_str; reflexivity. }
  split; [exact Hp0|]; split; [exact Hl|]; split; [|split; [reflexivity|]].
  - destruct Hpost as [-> | Hpost].
    + destruct suf as [|c suf']; [left; reflexivity|]; right.
      cbn [list_ascii_of_string forallb] in Fsuf; cbn [hasPrefix append].
      apply andb_prop in Fsuf as [Hc _]; rewrite eqb_ascii_sym, Hc.
      reflexivity.
    + right; apply hasPrefix_spec in Hpost as [z ->]; rewrite app_assoc_str.
      apply hasPrefix_app.
  - unfold SetBasePath; cbn [basePath].
    change (hasPrefix (String "/" p0) "/") with true.
    change (String.eqb (String "/" p0) "") with false; cbn [negb].
    change (String "/" p0) with ("/" ++ p0).
    destruct (trimSuffix_slash ("/" ++ p0)) as [[x [Hx ->]] | [_ ->]]; [|reflexivity].
    exfalso; destruct (slash_cons_ends p0 x Hx) as [[-> _] | [x' [_ Hp]]]; [contradiction|].
    rewrite Hp, lacks_app in Hl; apply andb_prop in Hl as [_ Hl]; discriminate.
Qed.

End CheckerSpec.

Module RobotsLineFacts.
Import Url Robots Observations.

Lemma parseLine_inert (ua : string) (st : parseState) (l : string) :
  inertLine l = true -> parseLine ua st l = st.
Proof.
  unfold inertLine, parseLine.
  destruct (lineKeyValue l) as [[k v]|]; [|reflexivity]. intros H.
  destruct (String.eqb k "user-agent") eqn:E1.
  - apply String.eqb_eq in E1; subst k. discriminate H.
  - destruct (String.eqb k "disallow") eqn:E2.
    + cbn [negb orb andb] in H. rewrite H. reflexivity.
    + destruct (String.eqb k "allow") eqn:E3; [discriminate H | reflexivity].
Qed.

Lemma fold_parseLine_filter (ua : string) (lines : list string) (st : parseState) :
  fold_left (parseLine ua) lines st
  = fold_left (parseLine ua) (filter (fun l => negb (inertLine l)) lines) st.
Proof.
  revert st; induction lines as [|l lines IH]; intros st; [reflexivity|].
  cbn [fold_left filter]. destruct (inertLine l) eqn:Hl; cbn [negb fold_left].
  - rewrite (parseLine_inert ua st l Hl). apply IH.
  - apply IH.
Qed.

End RobotsLineFacts.

Module RobotsLineSpec.
Import Url Robots Observations RobotsLineFacts.

(** X6. Lines that set nothing have no effect on [parseRobotsTxt]: blank
    lines, comments, lines without a colon, keys other than [user-agent],
    [disallow] and [allow] (such as [crawl-delay] or [sitemap]) and empty
    [Disallow] lines can all be removed from a robots.txt without changing
    the rules it yields, wherever they stand. *)
Theorem parseRobotsTxt_ignores_inert_lines (ua : string) (lines : list string) :
  parseRobotsTxt ua lines
  = parseRobotsTxt ua (filter (fun l => negb (inertLine l)) lines).
Proof.
  unfold parseRobotsTxt. rewrite (fold_parseLine_filter ua lines initState).
  reflexivity.
Qed.

End RobotsLineSpec.

Module NamingFacts.
Import Url Naming Observations StringFacts CheckerFacts.

(** the path part [getFilePath] computes before the query and extension *)
Lemma getFilePath_path (cd : string) (u : URL) (p q : string) :
  trimSuffix (if String.eqb p "" || String.eqb p "/" then "/index" else p) "/"
  = trimSuffix (if String.eqb q "" || String.eqb q "/" then "/index" else q) "/" ->
  getFilePath cd (withPath u p) = getFilePath cd (withPath u q).
Proof.
  intros H. unfold getFilePath. cbn [Path Query RawQuery Host withPath].
  rewrite H. reflexivity.
Qed.

Lemma trimSuffix_app_slash (p : string) : trimSuffix (p ++ "/") "/" = p.
Proof.
  destruct (trimSuffix_slash (p ++ "/")) as [[x [Hx ->]] | [Hn _]].
  - symmetry; exact (app_inv_tail_str _ _ _ Hx).
  - exfalso; exact (Hn p eq_refl).
Qed.

Lemma trimSuffix_no_slash (p : string) :
  hasSuffix p "/" = false -> trimSuffix p "/" = p.
Proof. intros H; unfold trimSuffix; rewrite H; reflexivity. Qed.

End NamingFacts.

Module NamingExtraSpec.
Import Url Naming Observations StringFacts CheckerFacts NamingFacts.

(** X15. [getFilePath] maps distinct URLs to the same file: a path and the
    same path with a trailing slash added give one file path (so /docs and
    /docs/ are saved to the same file), and the empty path, "/" and
    "/index" all give the file of "/index". *)
Theorem getFilePath_slash_collisions (cd : string) (u : URL) (p : string) :
  hasSuffix p "/" = false ->
  getFilePath cd (withPath u (p ++ "/")) = getFilePath cd (withPath u p)
  /\ getFilePath cd (withPath u "") = getFilePath cd (withPath u "/index")
  /\ getFilePath cd (withPath u "/") = getFilePath cd (withPath u "/index").
Proof.
  intros Hp. split; [|split; apply getFilePath_path; reflexivity].
  apply getFilePath_path.
  destruct p as [|c p']; [reflexivity|].
  assert (Hs : String.eqb (String c p') "/" = false).
  { destruct (String.eqb (String c p') "/") eqn:E; [|reflexivity].
    apply String.eqb_eq in E; rewrite E in Hp; discriminate Hp. }
  assert (Hs' : String.eqb (String c p' ++ "/") "/" = false).
  { apply String.eqb_neq; intros E. cbn [append] in E.
    injection E as _ E. destruct p'; discriminate E. }
  change (String.eqb (String c p' ++ "/") "") with false.
  change (String.eqb (String c p') "") with false.
  rewrite Hs, Hs'; cbn [orb].
  rewrite trimSuffix_app_slash, trimSuffix_no_slash by exact Hp. reflexivity.
Qed.

End NamingExtraSpec.

Module FetchSchemeFacts.
Import Url Fetcher StringFacts UrlFacts RoundTrip.

Lemma cut_cons_fst (c d : ascii) (s : string) :
  Ascii.eqb c d = false ->
  fst (fst (cut (String d s) (String c ""))) = String d (fst (fst (cut s (String c "")))).
Proof.
  intros Hd; unfold cut; cbn [index hasPrefix]. rewrite Hd; cbn [andb].
  destruct (index s (String c "")); reflexivity.
Qed.

Lemma cut_prefix_fst (c : ascii) (a s : string) :
  lacks c a = true ->
  fst (fst (cut (a ++ s) (String c ""))) = a ++ fst (fst (cut s (String c ""))).
Proof.
  induction a as [|d a IH]; [reflexivity|].
  rewrite lacks_cons, Bool.andb_true_iff, Bool.negb_true_iff; intros [Hd Ha].
  cbn [append]; rewrite (cut_cons_fst c d _ Hd), (IH Ha); reflexivity.
Qed.

Lemma setPath_scheme (v u : URL) (p : string) :
  setPath v p = Some u -> Scheme u = Scheme v.
Proof.
  unfold setPath; destruct (unescape p encodePath); [|discriminate].
  intros H; injection H as <-; reflexivity.
Qed.

Lemma parse_scheme (s sc r : string) (u : URL) :
  String.eqb s "*" = false -> getScheme s = Some (sc, r) ->
  parse s = Some u -> Scheme u = toLower sc.
Proof.
  intros Hs Hg H. unfold parse in H.
  destruct (stringContainsCTLByte s); [discriminate H|]. rewrite Hs, Hg in H.
  cbv zeta in H.
  repeat match type of H with
  | Some _ = Some _ => injection H as <-; reflexivity
  | None = Some _ => discriminate H
  | setPath (mkURL _ _ _ _ _ _ _ _ _ _) _ = Some _ =>
      apply setPath_scheme in H; rewrite H; reflexivity
  | context [match ?e with _ => _ end] =>
      lazymatch e with
      | context [match _ with _ => _ end] => fail
      | _ => destruct e
      end; cbv beta iota zeta in H
  end.
Qed.

Lemma Parse_valid_scheme (sch X : string) (u : URL) :
  validScheme sch = true -> Parse (sch ++ "://" ++ X) = Some u -> Scheme u = sch.
Proof.
  intros Hv H. unfold Parse in H.
  assert (Hl : lacks "#" (sch ++ "://") = true).
  { unfold validScheme in Hv; apply Bool.orb_true_iff in Hv as [E | E];
      apply String.eqb_eq in E; subst sch; reflexivity. }
  pose proof (cut_prefix_fst "#" (sch ++ "://") X Hl) as Hc.
  rewrite !app_assoc_str in Hc.
  destruct (cut (sch ++ "://" ++ X) "#") as [[u0 frag] b]; cbn [fst] in Hc; subst u0.
  destruct (scheme_facts sch (fst (fst (cut X "#"))) Hv) as [Hg [Hs [Ht _]]].
  destruct (parse _) as [url|] eqn:Hp; [|discriminate H].
  pose proof (parse_scheme _ _ _ url Hs Hg Hp) as Hu; rewrite Ht in Hu.
  destruct (String.eqb frag "").
  - injection H as <-; exact Hu.
  - destruct (unescape frag encodeFragment); [|discriminate H].
    injection H as <-; exact Hu.
Qed.

Lemma defaultScheme_shape (t : string) :
  exists sch X, defaultScheme t = sch ++ "://" ++ X /\ validScheme sch = true.
Proof.
  unfold defaultScheme.
  destruct (hasPrefix t "http://") eqn:H1.
  - apply hasPrefix_spec in H1 as [X ->]. exists "http", X; split; reflexivity.
  - destruct (hasPrefix t "https://") eqn:H2.
    + apply hasPrefix_spec in H2 as [X ->]. exists "https", X; split; reflexivity.
    + exists "https", t; split; reflexivity.
Qed.

End FetchSchemeFacts.

Module FetchSchemeSpec.
Import Url Locale Fetcher RoundTrip FetchSchemeFacts.

(** X13. [Fetch] never fails with the invalid-scheme error: after the
    scheme defaulting, a start URL that parses has the scheme http or
    https, so the check on the scheme never rejects it. *)
Theorem Fetch_never_invalid_scheme (E : env) (outputDir : string) (maxDepth : nat)
    (localeConfig : option LocaleConfig) (targetURL : string) :
  fst (Fetch E outputDir maxDepth localeConfig targetURL) <> Some ErrInvalidScheme.
Proof.
  unfold Fetch. destruct (defaultScheme_shape targetURL) as [sch [X [Hd Hv]]].
  rewrite Hd. destruct (Parse (sch ++ "://" ++ X)) as [pu|] eqn:Hp;
    [|cbn [fst]; discriminate].
  rewrite (Parse_valid_scheme sch X pu Hv Hp).
  replace (negb (String.eqb sch "http") && negb (String.eqb sch "https")) with false
    by (unfold validScheme in Hv; destruct (String.eqb sch "http"), (String.eqb sch "https");
        [reflexivity | reflexivity | reflexivity | discriminate Hv]).
  cbv iota.
  destruct (String.eqb (Host pu) ""); [cbn [fst]; discriminate|].
  destruct (removeAllResult E) as [[|]|]; cbv iota; try (cbn [fst]; discriminate);
    (destruct (mkdirAllOk E _); cbn [negb]; cbv iota; [|cbn [fst]; discriminate]);
    destruct (crawl _ _ _ _ _ _ _ _ _) as [st [m|]]; cbn [fst]; discriminate.
Qed.

End FetchSchemeSpec.

Module FetchScopeFacts.
Import Url Locale Naming Fetcher Observations CrawlFacts.
Local Open Scope list_scope.

Lemma probeLocales_found (E : env) (cfg : LocaleConfig) (st : crawlState)
    (base canonical : string) (prio : list string) (st' : crawlState) (u l : string) :
  probeLocales E cfg st base canonical prio = (st', Found u l) ->
  In l prio /\ u = BuildLocaleURL base l canonical (Some cfg).
Proof.
  revert st; induction prio as [|a prio IH]; intros st H; cbn [probeLocales] in H;
    [discriminate H|].
  destruct (checkURLExists E _) as [found code].
  destruct found.
  - injection H as _ Hu Hl; subst; split; [left|]; reflexivity.
  - destruct (_ && _); [discriminate H|].
    apply IH in H as [Hi Hu]; split; [right|]; assumption.
Qed.

Lemma Forall_fetchURLs (P : string -> Prop) (tr : list event) :
  Forall (fun e => match e with EGet u _ _ => P u | _ => True end) tr ->
  Forall P (fetchURLs tr).
Proof.
  induction 1 as [|e tr He _ IH]; [constructor|].
  destruct e; cbn; [exact IH | exact IH | constructor; assumption].
Qed.

(** [cwlp_ext], with what the checks of [crawlWithLocalePriority] and the
    probe loop establish about the URL it requests *)
Lemma cwlp_scope (Q : event -> Prop) (E : env) (domain crawlDir : string)
    (cfg : LocaleConfig) (rec : crawlFn) (st : crawlState) (orig canonical : string)
    (d : nat) :
  (forall st l, exists new, trace (fst (rec st l (S d))) = new ++ trace st /\ Forall Q new) ->
  (forall u, Q (EProbe u)) ->
  (forall pu, Parse orig = Some pu -> Host pu = domain -> isNonHTMLResource orig = false ->
     robotsAllowed E orig = true ->
     Q (EGet orig canonical d)
     /\ forall l, In l (localePriority cfg) ->
          Q (EGet (BuildLocaleURL (Scheme pu ++ "://" ++ Host pu) l canonical (Some cfg))
                  canonical d)) ->
  exists new,
    trace (fst (crawlWithLocalePriority E domain crawlDir cfg rec st orig canonical d))
      = new ++ trace st /\ Forall Q new.
Proof.
  intros Hrec HP HG; unfold crawlWithLocalePriority.
  destruct (Parse orig) as [pu|] eqn:Hp; [|exists []; split; [reflexivity | constructor]].
  destruct (String.eqb_spec (Host pu) domain) as [Hh|Hh]; cbn [negb];
    [|exists []; split; [reflexivity | constructor]].
  destruct (isNonHTMLResource orig) eqn:Hn; [exists []; split; [reflexivity | constructor]|].
  destruct (robotsAllowed E orig) eqn:Hr; cbn [negb];
    [|exists []; split; [reflexivity | constructor]].
  destruct (HG pu eq_refl Hh eq_refl eq_refl) as [HGo HGl].
  destruct (probeLocales_shape E cfg st (Scheme pu ++ "://" ++ Host pu)%string canonical
              (localePriority cfg)) as [ps Hps].
  destruct (probeLocales E cfg st _ canonical (localePriority cfg)) as [st1 outcome] eqn:Hpl.
  cbn [fst] in Hps; subst st1.
  destruct (recordProbes_fields ps st) as (_ & _ & _ & Htr).
  assert (Fps : Forall Q (rev (map EProbe ps))).
  { apply Forall_rev, Forall_map, Forall_forall; intros; apply HP. }
  assert (Hfin : forall st', (exists new, trace st' = new ++ trace (recordProbes ps st)
                                      /\ Forall Q new) ->
            exists new, trace st' = new ++ trace st /\ Forall Q new).
  { intros st' [n [Hn' Fn]]; exists (n ++ rev (map EProbe ps)); rewrite Hn', Htr, app_assoc.
    split; [reflexivity | apply Forall_app; split; assumption]. }
  assert (Hback : exists new,
            trace (fst (let '(found, _) := checkURLExists E orig in
                        if found then fetchPage E crawlDir rec
                                        (record (EProbe orig) (recordProbes ps st))
                                        orig canonical pu d
                        else (record (EProbe orig) (recordProbes ps st), None)))
            = new ++ trace st /\ Forall Q new).
  { destruct (checkURLExists E orig) as [[] c]; apply Hfin.
    - destruct (fetchPage_ext Q E crawlDir rec (record (EProbe orig) (recordProbes ps st))
                  orig canonical pu d Hrec HGo) as [n [Hn' Fn]].
      exists (n ++ [EProbe orig]); rewrite Hn', <- app_assoc; split; [reflexivity|].
      apply Forall_app; split; [assumption | repeat constructor; apply HP].
    - exists [EProbe orig]; split; [reflexivity | repeat constructor; apply HP]. }
  destruct outcome as [u l| |]; cbn iota beta.
  - destruct (String.eqb u ""); cbn iota; [exact Hback|].
    destruct (probeLocales_found E cfg st _ canonical _ _ u l Hpl) as [Hi ->].
    apply Hfin, fetchPage_ext; [exact Hrec | apply HGl, Hi].
  - apply Hfin; exists []; split; [reflexivity | constructor].
  - exact Hback.
Qed.

Section Scope.
Variable E : env.
Variable domain : string.
Variable maxDepth : nat.
Variable localeConfig : option LocaleConfig.
Variable crawlDir : string.

(** a log entry that is no page request, or a page request for a URL in scope *)
Local Abbreviation inScope := (fun e : event =>
  match e with
  | EGet x _ _ => fetchable E domain x
                  \/ exists cfg, localeConfig = Some cfg /\ localeVariant E domain cfg x
  | _ => True
  end).

Lemma crawl_scope (fuel : nat) :
  forall st u d, exists new,
    trace (fst (crawl E domain maxDepth localeConfig crawlDir fuel st u d))
      = new ++ trace st /\ Forall inScope new.
Proof.
  induction fuel as [|fuel IH]; intros st u d.
  - exists []; split; [reflexivity | constructor].
  - assert (Hfin : forall st', (exists new, trace st' = new ++ ECall u d :: trace st
                                            /\ Forall inScope new) ->
              exists new, trace st' = new ++ trace st /\ Forall inScope new).
    { intros st' [n [Hn Fn]]; exists (n ++ [ECall u d]); rewrite Hn, <- app_assoc.
      split; [reflexivity | apply Forall_app; split; [assumption | repeat constructor]]. }
    cbn [crawl]; apply Hfin.
    destruct (Nat.ltb maxDepth d); [exists []; split; [reflexivity | constructor]|].
    destruct (robotsAllowed E u) eqn:Hr; cbn [negb];
      [|exists []; split; [reflexivity | constructor]].
    destruct localeConfig as [cfg|] eqn:Hl.
    + destruct (Parse u) as [pu|] eqn:Hp; [|exists []; split; [reflexivity | constructor]].
      destruct (existsb _ _); [exists []; split; [reflexivity | constructor]|].
      apply cwlp_scope; [intros; apply IH | intros; exact I|].
      intros pu' Hp' Hh Hn _. rewrite Hp in Hp'; injection Hp' as <-.
      split.
      * left; exists pu; repeat split; assumption.
      * intros l Hi; right; exists cfg; split; [reflexivity|].
        exists u, pu, l; split; [exists pu; repeat split; assumption|].
        split; [exact Hp | split; [exact Hi | rewrite Hh; reflexivity]].
    + destruct (existsb _ _); [exists []; split; [reflexivity | constructor]|].
      destruct (Parse u) as [pu|] eqn:Hp; [|exists []; split; [reflexivity | constructor]].
      destruct (String.eqb_spec (Host pu) domain) as [Hh|Hh]; cbn [negb];
        [|exists []; split; [reflexivity | constructor]].
      destruct (isNonHTMLResource u) eqn:Hn; [exists []; split; [reflexivity | constructor]|].
      apply fetchPage_ext; [intros; apply IH|].
      left; exists pu; repeat split; assumption.
Qed.

End Scope.

End FetchScopeFacts.

Module FetchScopeSpec.
Import Url Locale FilePath Naming Fetcher Observations CrawlFacts FetchScopeFacts.
Local Open Scope list_scope.

(** X14. Every page [Fetch] requests is in scope: the start URL parses
    (after the scheme defaulting) and each requested URL either passed the
    checks on a link (it parses, its host is the start URL's host, it is no
    non-HTML resource by extension and robots.txt allows it), or, in locale
    mode, is the variant [BuildLocaleURL] makes for a priority locale from
    the scheme and host of such a URL and its canonical path. *)
Theorem Fetch_requests_only_in_scope (E : env) (outputDir : string) (maxDepth : nat)
    (localeConfig : option LocaleConfig) (targetURL : string) :
  Forall (fun x => exists pu, Parse (defaultScheme targetURL) = Some pu
            /\ (fetchable E (Host pu) x
                \/ exists cfg, localeConfig = Some cfg /\ localeVariant E (Host pu) cfg x))
    (fetchURLs (trace (snd (Fetch E outputDir maxDepth localeConfig targetURL)))).
Proof.
  destruct (Fetch_cases E outputDir maxDepth localeConfig targetURL)
    as [[_ H] | [pu [Hp [_ [_ [_ [_ H]]]]]]].
  - rewrite H; constructor.
  - rewrite H; cbn [snd].
    destruct (crawl_scope E (Host pu) maxDepth localeConfig (Join [outputDir; "crawl"])
                (S (S maxDepth)) initState (defaultScheme targetURL) 0) as [new [Hn Fn]].
    rewrite Hn; cbn [trace initState]; rewrite app_nil_r.
    apply Forall_fetchURLs; revert Fn; apply Forall_impl.
    intros [] Hx; [exact I | exact I | exists pu; split; [exact Hp | exact Hx]].
Qed.

End FetchScopeSpec.

Module ServerFilesFacts.
Import Url FilePath Naming RoundTrip ServerFiles StringFacts UrlFacts NamingFacts.

Lemma sanitize_acc (name : list N) (acc : string) :
  fold_left (fun result ch =>
               if keptRune ch then result ++ String (ascii_of_N ch) ""
               else result ++ "_") name acc
  = acc ++ string_of_list_ascii
              (map (fun ch => if keptRune ch then ascii_of_N ch else "_"%char) name).
Proof.
  revert acc; induction name as [|ch name IH]; intros acc.
  - cbn; symmetry; apply app_empty_str.
  - cbn [fold_left map string_of_list_ascii]; rewrite IH.
    destruct (keptRune ch); rewrite app_assoc_str; reflexivity.
Qed.

Lemma sanitize_map (name : list N) :
  sanitizeFilename name
  = string_of_list_ascii
      (map (fun ch => if keptRune ch then ascii_of_N ch else "_"%char) name).
Proof. unfold sanitizeFilename; rewrite sanitize_acc; reflexivity. Qed.

Lemma keptRune_small (ch : N) : keptRune ch = true -> (ch < 256)%N.
Proof.
  unfold keptRune; rewrite !Bool.orb_true_iff, !Bool.andb_true_iff, !N.leb_le, !N.eqb_eq.
  lia.
Qed.

Lemma kept_code (ch : N) :
  N_of_ascii (if keptRune ch then ascii_of_N ch else "_"%char)
  = if keptRune ch then ch else 95%N.
Proof.
  destruct (keptRune ch) eqn:Hk; [|reflexivity].
  apply N_ascii_embedding, keptRune_small, Hk.
Qed.

Lemma length_string_of_list (l : list ascii) :
  String.length (string_of_list_ascii l) = length l.
Proof. induction l as [|c l IH]; cbn; [reflexivity | rewrite IH; reflexivity]. Qed.

Lemma strip_html (x : string) :
  x <> "" ->
  (if Nat.ltb 5 (String.length (x ++ ".html"))
      && String.eqb (drop (String.length (x ++ ".html") - 5) (x ++ ".html")) ".html"
   then take (String.length (x ++ ".html") - 5) (x ++ ".html") else x ++ ".html") = x.
Proof.
  intros Hx. rewrite length_app.
  replace (String.length x + String.length ".html" - 5) with (String.length x)
    by (cbn [String.length]; lia).
  rewrite drop_app, take_app_exact, String.eqb_refl, Bool.andb_true_r.
  replace (Nat.ltb 5 (String.length x + String.length ".html")) with true; [reflexivity|].
  symmetry; apply Nat.ltb_lt; destruct x as [|c x]; [congruence | cbn; lia].
Qed.

Lemma http_scheme (base : string) :
  Nat.ltb 7 (String.length base) && String.eqb (take 7 base) "http://" = true
  <-> hasPrefix base "http://" = true /\ base <> "http://".
Proof.
  rewrite Bool.andb_true_iff, Nat.ltb_lt, String.eqb_eq, hasPrefix_spec. split.
  - intros [Hl Ht]; split.
    + exists (drop 7 base); rewrite <- Ht at 1; symmetry; apply take_drop.
    + intros ->; cbn in Hl; lia.
  - intros [[r ->] Hne]; split.
    + rewrite length_app; destruct r as [|c r]; [rewrite app_empty_str in Hne; congruence|].
      cbn; lia.
    + exact (take_app_exact "http://" r).
Qed.

Lemma getFilePath_plain (cd sch h p : string) :
  hasPrefix p "/" = true -> hasSuffix p "/" = false -> Ext p = "" ->
  getFilePath cd (mkURL sch "" None h p "" false false "" "") = Join [cd; h; p ++ ".html"].
Proof.
  intros Hp Hs He. unfold getFilePath; cbv zeta; cbn [Path Query RawQuery Host].
  replace (String.eqb p "" || String.eqb p "/") with false.
  2:{ destruct p as [|c p']; [discriminate Hp|].
      destruct (String.eqb_spec (String c p') "/") as [E|E]; [rewrite E in Hs; discriminate Hs|].
      reflexivity. }
  unfold Query; cbn [RawQuery].
  change (Nat.ltb 0 (List.length (ParseQuery ""))) with false; cbv iota.
  rewrite (trimSuffix_no_slash p Hs), He; reflexivity.
Qed.

End ServerFilesFacts.

Module ServerFilesSpec.
Import Url FilePath Naming RoundTrip ServerFiles StringFacts UrlFacts ServerFilesFacts.

(** X16. [sanitizeFilename] turns each rune of the name into exactly one
    byte, every byte of its result is a letter, a digit, [.], [_] or [-]
    (so the Markdown file name never holds a [/]), a name made of such
    runes comes back unchanged, and sanitizing a result again changes
    nothing. *)
Theorem sanitizeFilename_safe (name : list N) :
  String.length (sanitizeFilename name) = length name
  /\ forallb (fun c => keptRune (N_of_ascii c))
       (list_ascii_of_string (sanitizeFilename name)) = true
  /\ (forallb keptRune name = true ->
      map N_of_ascii (list_ascii_of_string (sanitizeFilename name)) = name)
  /\ sanitizeFilename (map N_of_ascii (list_ascii_of_string (sanitizeFilename name)))
     = sanitizeFilename name.
Proof.
  rewrite !sanitize_map, list_ascii_of_string_of_list_ascii, map_map.
  split; [rewrite length_string_of_list, length_map; reflexivity|].
  split; [|split].
  - rewrite forallb_forall; intros c Hc; apply in_map_iff in Hc as [ch [<- _]].
    rewrite kept_code; destruct (keptRune ch) eqn:Hk; [exact Hk | reflexivity].
  - intros Hall; rewrite forallb_forall in Hall.
    transitivity (map (fun ch : N => ch) name); [|apply map_id].
    apply map_ext_in; intros ch Hin; rewrite kept_code, (Hall ch Hin); reflexivity.
  - f_equal; rewrite map_map; apply map_ext; intros ch.
    rewrite kept_code; destruct (keptRune ch) eqn:Hk; [rewrite Hk; reflexivity|].
    reflexivity.
Qed.

(** X17. A crawled file at [host/path.html] (relative to the crawl
    directory) gets a source URL that [url.Parse] reads back with that host
    and path, and whose page [getFilePath] saves to that same file, for a
    host of letters, digits, [-] and [.], and a path that starts with "/",
    has only bytes path escaping keeps, does not end in "/" and has no
    extension. The scheme is http exactly when the site URL starts with
    "http://" and is longer than that prefix, https otherwise. *)
Theorem reconstructURL_getFilePath (cd baseURL h p : string) :
  validHost h = true -> validCanonical p = true -> hasSuffix p "/" = false -> Ext p = "" ->
  exists pu, Parse (reconstructURL baseURL (h ++ p ++ ".html")) = Some pu
    /\ Host pu = h /\ Path pu = p
    /\ getFilePath cd pu = Join [cd; h; p ++ ".html"]
    /\ (Scheme pu = "http" <-> hasPrefix baseURL "http://" = true /\ baseURL <> "http://")
    /\ (Scheme pu = "http" \/ Scheme pu = "https").
Proof.
  intros Hh Hc Hs He.
  unfold validCanonical in Hc; apply andb_prop in Hc as [Hp HpB].
  assert (Hne : h ++ p <> "").
  { destruct h; [discriminate Hh | discriminate]. }
  unfold reconstructURL; cbv zeta.
  rewrite <- (app_assoc_str h p ".html"), (strip_html (h ++ p) Hne).
  destruct (Nat.ltb 7 (String.length baseURL) && String.eqb (take 7 baseURL) "http://")
    eqn:Hsch;
    [set (sch := "http") | set (sch := "https")];
    (assert (Hv : validScheme sch = true) by reflexivity);
    pose proof (Parse_simple sch h p "" Hv Hh HpB (or_intror Hp) eq_refl eq_refl eq_refl)
      as HP;
    (change (if String.eqb "" "" then "" else "?" ++ "") with "" in HP);
    rewrite app_empty_str in HP; rewrite HP;
    eexists; (split; [reflexivity|]); cbn [Host Path Scheme];
    (split; [reflexivity|]); (split; [reflexivity|]);
    (split; [apply getFilePath_plain; assumption|]); subst sch.
  - rewrite <- http_scheme, Hsch.
    split; [split; reflexivity | left; reflexivity].
  - rewrite <- http_scheme, Hsch.
    split; [split; discriminate | right; reflexivity].
Qed.

End ServerFilesSpec.

Module LinksFacts.
Import Url Hreflang Links Observations HreflangFacts.
Local Open Scope list_scope.

Section Resolve.
Variable resolve : URL -> URL -> string.

Lemma flat_map_flat_map_gen {A B C : Type} (f : B -> list C) (g : A -> list B) (l : list A) :
  flat_map f (flat_map g l) = flat_map (fun x => flat_map f (g x)) l.
Proof.
  induction l as [|x l IH]; [reflexivity|].
  cbn [flat_map]; rewrite flat_map_app, IH; reflexivity.
Qed.

Lemma extract_links (baseURL : string) : forall n links,
  extract resolve baseURL n links
  = links ++ flat_map (fun m =>
                         if isElementNode (Type_ m) && String.eqb (Data m) "a" then
                           match hrefLink resolve baseURL (Attr m) with
                           | Some l => [l]
                           | None => []
                           end
                         else []) (nodesOf n).
Proof.
  intros n; induction n as [t d a cs Hcs] using Node_ind'; intros links.
  set (sel := fun m : Node =>
                if isElementNode (Type_ m) && String.eqb (Data m) "a" then
                  match hrefLink resolve baseURL (Attr m) with
                  | Some l => [l]
                  | None => []
                  end
                else []).
  assert (Hkids : forall acc,
            fold_left (fun links c => extract resolve baseURL c links) cs acc
            = acc ++ flat_map (fun c => flat_map sel (nodesOf c)) cs).
  { induction Hcs as [|c cs Hc _ IH]; intros acc; [symmetry; apply app_nil_r|].
    cbn [fold_left flat_map]; rewrite IH, Hc, app_assoc; reflexivity. }
  change (extract resolve baseURL (mkNode t d a cs) links)
    with (fold_left (fun links c => extract resolve baseURL c links) cs
            (if isElementNode t && String.eqb d "a" then
               match hrefLink resolve baseURL a with
               | Some link => links ++ [link]
               | None => links
               end
             else links)).
  rewrite Hkids.
  change (nodesOf (mkNode t d a cs)) with (mkNode t d a cs :: flat_map nodesOf cs).
  cbn [flat_map]; rewrite flat_map_flat_map_gen.
  change (sel (mkNode t d a cs))
    with (if isElementNode t && String.eqb d "a" then
            match hrefLink resolve baseURL a with Some l => [l] | None => [] end
          else []).
  destruct (isElementNode t && String.eqb d "a");
    [destruct (hrefLink resolve baseURL a)|]; cbn [app]; rewrite <- ?app_assoc; reflexivity.
Qed.

Lemma hrefLink_no_base (baseURL : string) (attrs : list (string * string)) :
  Parse baseURL = None -> hrefLink resolve baseURL attrs = None.
Proof.
  intros Hb; induction attrs as [|[k v] attrs IH]; [reflexivity|]; cbn [hrefLink].
  destruct (String.eqb k "href"); [|exact IH].
  destruct (Parse v); [rewrite Hb|]; exact IH.
Qed.

End Resolve.

End LinksFacts.

Module LinksSpec.
Import Url Hreflang Links Observations LinksFacts.
Local Open Scope list_scope.

(** X18. [extractLinks] returns, in document order, one link for each [a]
    element that has an [href] it can use and nothing for other nodes; the
    [href] used is the first one whose value parses, given that the base
    URL parses (an unparsable [href] does not stop the search for a later
    one), and the link is that value resolved against the base URL. When
    the base URL does not parse, no link is found at all. *)
Theorem extractLinks_anchors (resolve : URL -> URL -> string) (doc : Node)
    (baseURL : string) :
  extractLinks resolve doc baseURL
    = flat_map (fun n =>
                  if isElementNode (Type_ n) && String.eqb (Data n) "a" then
                    match hrefLink resolve baseURL (Attr n) with
                    | Some l => [l]
                    | None => []
                    end
                  else []) (nodesOf doc)
  /\ (forall attrs l, hrefLink resolve baseURL attrs = Some l
        <-> exists pre v rest b abs,
              attrs = pre ++ ("href", v) :: rest
              /\ Forall (fun kv => fst kv = "href" -> Parse (snd kv) = None) pre
              /\ Parse v = Some abs /\ Parse baseURL = Some b /\ l = resolve b abs)
  /\ (Parse baseURL = None -> extractLinks resolve doc baseURL = []).
Proof.
  split; [unfold extractLinks; apply extract_links|]. split.
  - intros attrs l; split.
    + induction attrs as [|[k v] attrs IH]; cbn [hrefLink]; [discriminate|].
      destruct (String.eqb_spec k "href") as [Hk|Hk].
      * subst k. destruct (Parse v) as [abs|] eqn:Hv.
        -- destruct (Parse baseURL) as [b|] eqn:Hb.
           ++ intros H; injection H as <-.
              exists [], v, attrs, b, abs; repeat split; [constructor | assumption].
           ++ intros H; destruct (IH H) as (pre & v' & rest & b & abs' & _ & _ & _ & Hb' & _).
              congruence.
        -- intros H; destruct (IH H) as (pre & v' & rest & b & abs & -> & F & H1 & H2 & H3).
           exists (("href", v) :: pre), v', rest, b, abs; repeat split; try assumption.
           constructor; [intros _; exact Hv | exact F].
      * intros H; destruct (IH H) as (pre & v' & rest & b & abs & -> & F & H1 & H2 & H3).
        exists ((k, v) :: pre), v', rest, b, abs; repeat split; try assumption.
        constructor; [intros Hk'; contradiction | exact F].
    + intros (pre & v & rest & b & abs & -> & F & Hv & Hb & ->).
      induction F as [|[k v'] pre Hkv _ IH]; cbn [app hrefLink].
      * rewrite String.eqb_refl, Hv, Hb; reflexivity.
      * destruct (String.eqb_spec k "href") as [Hk|Hk]; [|exact IH].
        cbn [snd] in Hkv; rewrite (Hkv Hk); exact IH.
  - intros Hb; unfold extractLinks; rewrite extract_links; cbn [app].
    induction (nodesOf doc) as [|n ns IH]; [reflexivity|].
    cbn [flat_map]; rewrite (hrefLink_no_base resolve baseURL (Attr n) Hb), IH.
    destruct (_ && _); reflexivity.
Qed.

End LinksSpec.

(** * Witnesses *)
Module Witnesses.
Import Robots RobotsSpec PathMatchSpec.


Lemma IsAllowed_longest_match_wins_witness :
  let r := parseRobotsTxt UserAgent
             ["User-agent: *"; "Disallow: /docs/"; "Allow: /docs/public/"] in
  NoDup (map String.length (matching (effectivePath "/docs/public/page.html")
                              (allowRules r ++ disallowRules r))) /\
  isAllowedPath (Some r) "/docs/public/page.html" = true.
Proof.
  assert (H : NoDup (map String.length (matching (effectivePath "/docs/public/page.html")
     (allowRules (parseRobotsTxt UserAgent
        ["User-agent: *"; "Disallow: /docs/"; "Allow: /docs/public/"])
      ++ disallowRules (parseRobotsTxt UserAgent
        ["User-agent: *"; "Disallow: /docs/"; "Allow: /docs/public/"]))))).
  { vm_compute. repeat constructor; simpl; intuition discriminate. }
  split; [exact H|].
  destruct (IsAllowed_longest_match_wins _ "/docs/public/page.html" H) as [_ [Hallow _]].
  apply (Hallow "/docs/public/"); vm_compute; [left; reflexivity|].
  intros w [<-|[<-|[]]]; lia.
Defined.

Lemma IsAllowed_equal_length_tie_allows_witness :
  isAllowedPath (Some (mkRules ["/docs/"] ["/docs/"])) "/docs/x" = true.
Proof.
  apply (IsAllowed_equal_length_tie_allows (mkRules ["/docs/"] ["/docs/"])
           "/docs/x" "/docs/" "/docs/"); vm_compute; try (left; reflexivity);
    try reflexivity.
  intros w [<-|[<-|[]]]; lia.
Defined.

Lemma parseRobotsTxt_ignores_rules_before_user_agent_witness :
  parseRobotsTxt UserAgent (["Disallow: /"; "Allow: /a"] ++ ["User-agent: *"])
  = parseRobotsTxt UserAgent ["User-agent: *"].
Proof.
  apply parseRobotsTxt_ignores_rules_before_user_agent.
  repeat constructor.
Defined.

Lemma ExtractLocale_BuildLocaleURL_roundtrip_witness :
  Locale.ExtractLocale
    (Url.Parse (Locale.BuildLocaleURL ("https" ++ "://" ++ "example.com" ++ ":8080") "ja"
                  "/a b*!" (Some (Locale.mkLocaleConfig ["en"; "ja"] "hl"))))
    (Some (Locale.mkLocaleConfig ["en"; "ja"] "hl"))
  = ("ja", "/a b*!")
  /\ Locale.ExtractLocale
    (Url.Parse (Locale.BuildLocaleURL ("http" ++ "://" ++ "example.com" ++ ":8080") "zh-tw"
                  "/docs/a b" None)) None
  = ("zh-tw", "/docs/a b").
Proof.
  split.
  - apply LocaleSpec.ExtractLocale_BuildLocaleURL_roundtrip;
      [reflexivity | discriminate | reflexivity | reflexivity | simpl; tauto
      | reflexivity | left; reflexivity].
  - apply LocaleSpec.ExtractLocale_BuildLocaleURL_roundtrip;
      [reflexivity | discriminate | reflexivity | reflexivity | simpl; tauto
      | reflexivity | left; reflexivity].
Defined.

Lemma Fetch_fetches_each_key_at_most_once_witness :
  Fetcher.fetchURLs (Fetcher.trace (snd (Fetcher.Fetch Examples.exEnv "out" 2 None "ex.com")))
    = ["https://ex.com/ja/docs"; "https://ex.com/docs"; "https://ex.com/"; "https://ex.com"]
  /\ NoDup (Fetcher.fetchURLs
              (Fetcher.trace (snd (Fetcher.Fetch Examples.exEnv "out" 2 None "ex.com"))))
  /\ Forall (fun k => exists u pu, Url.Parse u = Some pu
                        /\ k = snd (Locale.ExtractLocale (Some pu) (Some Examples.exLocale)))
       (Fetcher.fetchKeys (Fetcher.trace
          (snd (Fetcher.Fetch Examples.exEnv "out" 2 (Some Examples.exLocale) "ex.com")))).
Proof.
  split; [vm_compute; reflexivity|]; split.
  - exact (proj1 (proj1 (proj2 (CrawlSpec.Fetch_fetches_each_key_at_most_once
                                  Examples.exEnv "out" 2 None "ex.com")) eq_refl)).
  - exact (proj2 (proj2 (CrawlSpec.Fetch_fetches_each_key_at_most_once
                           Examples.exEnv "out" 2 (Some Examples.exLocale) "ex.com"))
             Examples.exLocale eq_refl).
Defined.

Lemma crawl_depth_bound_witness :
  Fetcher.fetchDepths (Fetcher.trace (snd (Fetcher.Fetch Examples.exEnv "out" 1 None "ex.com")))
    = [1; 1; 1; 0]
  /\ Forall (fun d => d <= 1)
       (Fetcher.fetchDepths
          (Fetcher.trace (snd (Fetcher.Fetch Examples.exEnv "out" 1 None "ex.com"))))
  /\ Fetcher.crawl Examples.exEnv "ex.com" 1 None "out/crawl" 3 Fetcher.initState
       "https://ex.com" 0
     = Fetcher.crawl Examples.exEnv "ex.com" 1 None "out/crawl" 5 Fetcher.initState
         "https://ex.com" 0.
Proof.
  split; [vm_compute; reflexivity|]; split.
  - apply (proj1 (proj2 CrawlSpec.crawl_depth_bound)).
  - apply (proj2 (proj2 CrawlSpec.crawl_depth_bound)); lia.
Defined.

Lemma Fetch_errors_only_from_setup_witness :
  fst (Fetcher.Fetch Examples.exEnv "out" 2 None "ex.com") = None
  /\ fst (Fetcher.Fetch Examples.exEnv "out" 2 None "http://") = Some Fetcher.ErrMissingDomain
  /\ In (Fetcher.ECall "https://ex.com/docs" 1)
       (Fetcher.trace (Fetcher.crawlLinks
          (Fetcher.crawl Examples.exEnv "ex.com" 2 None "out/crawl" 2) Fetcher.initState
          ["https://ex.com/"; "https://ex.com/docs"] 0)).
Proof.
  split; [|split; [vm_compute; reflexivity|]].
  - apply (proj2 (proj1 CrawlSpec.Fetch_errors_only_from_setup
                    Examples.exEnv "out" 2 None "ex.com")).
    exists (Url.mkURL "https" "" None "ex.com" "" "" false false "" "").
    split; [vm_compute; reflexivity|]; split; [right; reflexivity|].
    split; [discriminate|]; split; [discriminate | reflexivity].
  - apply (proj2 (proj2 (proj2 CrawlSpec.Fetch_errors_only_from_setup))).
    right; left; reflexivity.
Defined.

Lemma crawlWithLocalePriority_abort_or_fallback_witness :
  Fetcher.crawlWithLocalePriority Examples.exEnv "ex.com" "out/crawl" Examples.exLocale
    (Fetcher.crawl Examples.exEnv "ex.com" 2 (Some Examples.exLocale) "out/crawl" 2)
    Fetcher.initState "https://ex.com/docs" "/docs" 0
  = (Fetcher.recordProbes ["https://ex.com/en/docs"] Fetcher.initState, None)
  /\ Fetcher.crawlWithLocalePriority Examples.exEnv "ex.com" "out/crawl" Examples.exLocale
       (Fetcher.crawl Examples.exEnv "ex.com" 2 (Some Examples.exLocale) "out/crawl" 2)
       Fetcher.initState "https://ex.com/ja/guide" "/guide" 0
     = (Fetcher.record (Fetcher.EProbe "https://ex.com/ja/guide")
          (Fetcher.recordProbes ["https://ex.com/en/guide"; "https://ex.com/ja/guide"]
             Fetcher.initState), None).
Proof.
  split.
  - refine (eq_trans (proj1 CrawlSpec.crawlWithLocalePriority_abort_or_fallback
      Examples.exEnv "ex.com" "out/crawl" Examples.exLocale
      (Fetcher.crawl Examples.exEnv "ex.com" 2 (Some Examples.exLocale) "out/crawl" 2)
      Fetcher.initState "https://ex.com/docs" "/docs" 0
      (Url.mkURL "https" "" None "ex.com" "/docs" "" false false "" "") [] "en" ["ja"] 503
      _ _ _ _ _ _ _ _) _);
      [vm_compute; reflexivity | reflexivity | vm_compute; reflexivity | reflexivity
      | reflexivity | intros l' [] | vm_compute; reflexivity | right; right; lia
      | reflexivity].
  - refine (eq_trans (proj2 CrawlSpec.crawlWithLocalePriority_abort_or_fallback
      Examples.exEnv "ex.com" "out/crawl" Examples.exLocale
      (Fetcher.crawl Examples.exEnv "ex.com" 2 (Some Examples.exLocale) "out/crawl" 2)
      Fetcher.initState "https://ex.com/ja/guide" "/guide" 0
      (Url.mkURL "https" "" None "ex.com" "/ja/guide" "" false false "" "")
      _ _ _ _ _) _);
      [vm_compute; reflexivity | reflexivity | vm_compute; reflexivity | reflexivity
      | | vm_compute; reflexivity].
    intros l' [<- | [<- | []]]; eexists; (split; [vm_compute; reflexivity | left; reflexivity]).
Defined.

(** witnesses of the properties of the checker, the server and the crawler *)
Import Url RobotsChecker Observations.

Local Abbreviation exampleGet :=
  ((fun _ => Some (200, ["User-agent: *"; "Disallow: /private/"])) : robotsGet).

Local Abbreviation missingGet := ((fun _ => Some (404, [])) : robotsGet).

Local Abbreviation exampleURL p := (mkURL "https" "" None "example.com" p "" false false "" "").

Lemma IsAllowed_requests_robots_once_witness :
  let r1 := snd (fst (IsAllowed exampleGet (NewRobotsChecker "bot") "https://example.com/a")) in
  snd (IsAllowed exampleGet r1 "https://example.com/private/b") = []
  /\ snd (fst (IsAllowed exampleGet r1 "https://example.com/private/b")) = r1.
Proof.
  apply (CheckerSpec.IsAllowed_requests_robots_once exampleGet (NewRobotsChecker "bot")
           "https://example.com/a" "https://example.com/private/b"
           (exampleURL "/a") (exampleURL "/private/b")); reflexivity.
Defined.

Lemma IsAllowed_cache_transparent_witness :
  fst (fst (IsAllowed exampleGet (NewRobotsChecker "bot") "https://example.com/private/b"))
  = fst (fst (IsAllowed exampleGet (freshChecker (NewRobotsChecker "bot"))
                "https://example.com/private/b"))
  /\ coherent exampleGet
       (snd (fst (IsAllowed exampleGet (NewRobotsChecker "bot") "https://example.com/private/b")))
  /\ freshChecker
       (snd (fst (IsAllowed exampleGet (NewRobotsChecker "bot") "https://example.com/private/b")))
     = freshChecker (NewRobotsChecker "bot").
Proof.
  apply CheckerSpec.IsAllowed_cache_transparent.
  intros s h v H; cbn in H; discriminate H.
Defined.

Lemma IsAllowed_without_robots_txt_witness :
  fst (fst (IsAllowed missingGet (NewRobotsChecker "bot") "https://example.com/private/b"))
  = true
  /\ Forall (fun e => snd e = None)
       (cache (snd (fst (IsAllowed missingGet (NewRobotsChecker "bot")
                           "https://example.com/private/b")))).
Proof.
  apply CheckerSpec.IsAllowed_without_robots_txt.
  - intros url H; discriminate H.
  - constructor.
Defined.

Lemma fetchBasePath_first_segment_witness :
  exists pre seg post, "/site2skill-go/docs/" = pre ++ seg ++ post
    /\ forallb (fun c => Ascii.eqb c "/") (list_ascii_of_string pre) = true
    /\ seg <> "" /\ RoundTrip.lacks "/" seg = true
    /\ (post = "" \/ hasPrefix post "/" = true)
    /\ "/site2skill-go" = "/" ++ seg
    /\ basePath (SetBasePath (NewRobotsChecker "bot") "/site2skill-go") = "/site2skill-go".
Proof.
  apply (CheckerSpec.fetchBasePath_first_segment "/site2skill-go/docs/" "/site2skill-go"
           (NewRobotsChecker "bot")).
  reflexivity.
Defined.

Lemma SelectPreferredLocaleURL_first_priority_witness :
  let m := [("en", "https://example.com/en"); ("ja-ja", "https://example.com/ja")] in
  (Hreflang.mapLookup m "ja" = Some "https://example.com/ja" ->
     Hreflang.SelectPreferredLocaleURL m ["fr"; "ja"; "en"] = ("ja", "https://example.com/ja"))
  /\ (Hreflang.mapLookup m "ja" = None ->
      Hreflang.mapLookup m ("ja" ++ "-" ++ "ja") = Some "https://example.com/ja" ->
      Hreflang.SelectPreferredLocaleURL m ["fr"; "ja"; "en"]
      = ("ja" ++ "-" ++ "ja", "https://example.com/ja")).
Proof.
  apply (HreflangSpec.SelectPreferredLocaleURL_first_priority
           [("en", "https://example.com/en"); ("ja-ja", "https://example.com/ja")]
           ["fr"] ["en"] "ja" "https://example.com/ja").
  repeat constructor.
Defined.

Lemma parseLocales_items_clean_witness :
  In "ja" (ServerFlags.parseLocales " en ,	ja,,") /\
  ("ja" <> "" /\ RoundTrip.lacks "," "ja" = true /\ ServerFlags.trimSpace "ja" = "ja").
Proof.
  assert (H : In "ja" (ServerFlags.parseLocales " en ,	ja,,")) by (vm_compute; auto).
  split; [exact H | apply (ServerSpec.parseLocales_items_clean _ _ H)].
Defined.

Lemma parseLocales_join_witness :
  ServerFlags.parseLocales (String.concat "," ["en"; "ja"; "zh-cn"]) = ["en"; "ja"; "zh-cn"].
Proof.
  apply ServerSpec.parseLocales_join.
  repeat constructor; discriminate.
Defined.

Lemma getFilePath_slash_collisions_witness :
  Naming.getFilePath "out" (withPath (exampleURL "") ("/docs" ++ "/"))
  = Naming.getFilePath "out" (withPath (exampleURL "") "/docs")
  /\ Naming.getFilePath "out" (withPath (exampleURL "") "")
     = Naming.getFilePath "out" (withPath (exampleURL "") "/index")
  /\ Naming.getFilePath "out" (withPath (exampleURL "") "/")
     = Naming.getFilePath "out" (withPath (exampleURL "") "/index").
Proof.
  apply NamingExtraSpec.getFilePath_slash_collisions; reflexivity.
Defined.

Lemma reconstructURL_getFilePath_witness :
  exists pu,
    Parse (ServerFiles.reconstructURL "https://example.com/docs"
             ("example.com" ++ "/docs/page" ++ ".html")) = Some pu
    /\ Host pu = "example.com" /\ Path pu = "/docs/page"
    /\ Naming.getFilePath "out" pu = FilePath.Join ["out"; "example.com"; "/docs/page" ++ ".html"]
    /\ (Scheme pu = "http"
        <-> hasPrefix "https://example.com/docs" "http://" = true
            /\ "https://example.com/docs" <> "http://")
    /\ (Scheme pu = "http" \/ Scheme pu = "https").
Proof.
  apply ServerFilesSpec.reconstructURL_getFilePath; reflexivity.
Defined.

End Witnesses.
